(** * Jobs API: the account store, the job store and token issuance

    A shallow embedding of [models/User.js] and [models/Job.js].  Both
    classes are thin layers over a knex query builder bound to a SQLite
    database, over bcryptjs and over jsonwebtoken.  The database is modelled
    as explicit state (tables with their declared schema, their rows and
    their autoincrement counter), every asynchronous method as a function in
    a state-and-exception monad over that state. *)

From stdpp Require Import base option list strings gmap pretty.
From Stdlib Require Import ZArith Lia Ascii String.

Notation "x |> f" := (f x) (at level 45, left associativity, only parsing).

(** ** JavaScript values and objects

    The scalars a request body can put in a field; an object is a finite
    map from keys to values.  A string is the sequence of bytes of its
    UTF-8 encoding, which is what the driver hands to the engine and what
    bcryptjs hashes.  [JNum n] is the number of integer value [n]. *)

Inductive jsval :=
| JUndefined
| JNull
| JBool (b : bool)
| JNum (n : Z)
| JStr (s : string).

#[global] Instance jsval_eq_dec : EqDecision jsval.
Proof. solve_decision. Defined.

(** [ToBoolean]: what [&&] and [if] test. *)
Definition truthy (v : jsval) : bool :=
  match v with
  | JUndefined | JNull => false
  | JBool b => b
  | JNum n => negb (n =? 0)%Z
  | JStr s => negb (String.eqb s EmptyString)
  end.

(** Property access [o.k]: a missing key reads as [undefined]. *)
Definition prop (o : gmap string jsval) (k : string) : jsval :=
  default JUndefined (o !! k).

(** A value that is a scalar or an object of scalars. *)
Inductive jsany :=
| JScalar (v : jsval)
| JObject (o : gmap string jsval).

(** ** SQL values

    The values the tables of the program hold: every column is a text
    column or an integer column. *)

Inductive sqlval :=
| SNull
| SInt (n : Z)
| SText (s : string).

#[global] Instance sqlval_eq_dec : EqDecision sqlval.
Proof. solve_decision. Defined.

(** A value handed to the query builder: a JavaScript value to bind, or a
    raw SQL fragment ([db.raw(...)]). *)
Inductive bindval :=
| BVal (v : jsval)
| BRaw (sql : string).

(** What the driver binds for a parameter: a value as the tables hold
    them, or the double of integer value [n]. *)
Inductive param :=
| PVal (v : sqlval)
| PReal (n : Z).

Definition int32 (n : Z) : bool :=
  (-2147483648 <=? n)%Z && (n <=? 2147483647)%Z.

(** How the sqlite3 driver binds a JavaScript scalar: a number that is a
    32-bit integer as an integer, any other number as a double;
    [undefined] has no binding. *)
Definition bind_param (v : jsval) : option param :=
  match v with
  | JUndefined => None
  | JNull => Some (PVal SNull)
  | JBool b => Some (PVal (SInt (if b then 1 else 0)))
  | JNum n => Some (if int32 n then PVal (SInt n) else PReal n)
  | JStr s => Some (PVal (SText s))
  end.

Definition is_null (v : sqlval) : bool :=
  match v with SNull => true | _ => false end.

(** [a = b] in a WHERE clause: never true when a side is NULL. *)
Definition sql_eqb (a b : sqlval) : bool :=
  match a, b with
  | SInt x, SInt y => (x =? y)%Z
  | SText x, SText y => String.eqb x y
  | _, _ => false
  end.

(** The decimal digits of [m] without the zeros it ends with. *)
Fixpoint strip_zeros (fuel : nat) (m : Z) : Z :=
  match fuel with
  | O => m
  | S fuel' => if (m mod 10 =? 0)%Z && negb (m =? 0)%Z
               then strip_zeros fuel' (m / 10) else m
  end.

(** The text the engine gives a double of integer value [n], its
    [%!.15g]: all the digits and [.0] below 10^15, and from there on 15
    significant digits, the last rounded up from a following 5 or more,
    with an exponent. *)
Definition real_text (n : Z) : string :=
  let a := Z.abs n in
  let sign := if (n <? 0)%Z then "-" else EmptyString in
  if (a <? 10 ^ 15)%Z then sign +:+ pretty a +:+ ".0"
  else
    let k := Z.of_nat (String.length (pretty a)) in
    let q := (a / 10 ^ (k - 15))%Z in
    let next := ((a / 10 ^ (k - 16)) mod 10)%Z in
    let m := if (5 <=? next)%Z then (q + 1)%Z else q in
    let e := if (m =? 10 ^ 15)%Z then k else (k - 1)%Z in
    let m := if (m =? 10 ^ 15)%Z then (10 ^ 14)%Z else m in
    let lead := (m / 10 ^ 14)%Z in
    let frac := (m mod 10 ^ 14)%Z in
    let shown := strip_zeros 14 (10 ^ 14 + frac) in
    let digits := match pretty shown with
                  | String _ EmptyString => "0"
                  | String _ s => s
                  | EmptyString => "0"
                  end in
    sign +:+ pretty lead +:+ "." +:+ digits +:+ "e+" +:+ pretty e.

(** [length(s)] of a text: the characters before the first NUL, a
    character being a byte together with the continuation bytes (10xxxxxx)
    that follow a lead byte (11xxxxxx).  [continued] tells whether the byte
    before belongs to such a run. *)
Fixpoint char_count (continued : bool) (s : string) : Z :=
  match s with
  | EmptyString => 0
  | String c s' =>
    let b := nat_of_ascii c in
    if (b =? 0)%nat then 0
    else if continued && (128 <=? b)%nat && (b <? 192)%nat then char_count true s'
    else (1 + char_count (192 <=? b)%nat s')%Z
  end.

(** [length(v)]: NULL for NULL, else the length of the text form. *)
Definition sql_length (v : sqlval) : option Z :=
  match v with
  | SNull => None
  | SInt n => Some (char_count false (pretty n))
  | SText s => Some (char_count false s)
  end.

(** ** Errors and results *)

Inductive error :=
| ENoTable (tn : string)
| ETableExists (tn : string)
| ENoColumn (tn c : string)
| EAmbiguousColumn (c : string)
| ENotNull (tn c : string)
| ECheck (tn c : string)
| EUnique (tn c : string)
| EForeignKey (tn c : string)
| EDefaultUnsupported
| ERawUnsupported (sql : string)
| EBcrypt (msg : string)
| EJwt (msg : string).

#[global] Instance error_eq_dec : EqDecision error.
Proof. solve_decision. Defined.

Inductive result (A : Type) :=
| Ok (a : A)
| Throw (e : error).

Arguments Ok {A} a.
Arguments Throw {A} e.

(** ** Schema, as the table builder of [createTable] declares it *)

Inductive coltype :=
| TIncrements
| TString (len : nat)
| TEnum (allowed : list string)
| TInteger
| TTimestamp.

Inductive defaultv :=
| DConst (v : sqlval)
| DNow.

Record column := mkColumn {
  c_name : string;
  c_type : coltype;
  c_primary : bool;
  c_notnull : bool;
  c_unique : bool;
  c_lengths : list (string * Z);
  c_default : option defaultv;
  c_references : option string;
  c_intable : option string;
  c_ondelete : option string
}.

Definition new_column (n : string) (ty : coltype) : column :=
  {| c_name := n; c_type := ty; c_primary := false; c_notnull := false;
     c_unique := false; c_lengths := []; c_default := None;
     c_references := None; c_intable := None; c_ondelete := None |}.

Definition increments (n : string) : column := new_column n TIncrements.
Definition string_ (n : string) (len : nat) : column := new_column n (TString len).
Definition enum (n : string) (allowed : list string) : column := new_column n (TEnum allowed).
Definition integer (n : string) : column := new_column n TInteger.
Definition timestamp (n : string) : column := new_column n TTimestamp.

Definition primary (c : column) : column :=
  {| c_name := c_name c; c_type := c_type c; c_primary := true;
     c_notnull := c_notnull c; c_unique := c_unique c; c_lengths := c_lengths c;
     c_default := c_default c; c_references := c_references c;
     c_intable := c_intable c; c_ondelete := c_ondelete c |}.

Definition notNullable (c : column) : column :=
  {| c_name := c_name c; c_type := c_type c; c_primary := c_primary c;
     c_notnull := true; c_unique := c_unique c; c_lengths := c_lengths c;
     c_default := c_default c; c_references := c_references c;
     c_intable := c_intable c; c_ondelete := c_ondelete c |}.

Definition unique (c : column) : column :=
  {| c_name := c_name c; c_type := c_type c; c_primary := c_primary c;
     c_notnull := c_notnull c; c_unique := true; c_lengths := c_lengths c;
     c_default := c_default c; c_references := c_references c;
     c_intable := c_intable c; c_ondelete := c_ondelete c |}.

(** A column keeps one length check: a second [checkLength] replaces the
    first. *)
Definition checkLength (op : string) (n : Z) (c : column) : column :=
  {| c_name := c_name c; c_type := c_type c; c_primary := c_primary c;
     c_notnull := c_notnull c; c_unique := c_unique c;
     c_lengths := [(op, n)];
     c_default := c_default c; c_references := c_references c;
     c_intable := c_intable c; c_ondelete := c_ondelete c |}.

Definition defaultTo (d : defaultv) (c : column) : column :=
  {| c_name := c_name c; c_type := c_type c; c_primary := c_primary c;
     c_notnull := c_notnull c; c_unique := c_unique c; c_lengths := c_lengths c;
     c_default := Some d; c_references := c_references c;
     c_intable := c_intable c; c_ondelete := c_ondelete c |}.

Definition references (rc : string) (c : column) : column :=
  {| c_name := c_name c; c_type := c_type c; c_primary := c_primary c;
     c_notnull := c_notnull c; c_unique := c_unique c; c_lengths := c_lengths c;
     c_default := c_default c; c_references := Some rc;
     c_intable := c_intable c; c_ondelete := c_ondelete c |}.

Definition inTable (rt : string) (c : column) : column :=
  {| c_name := c_name c; c_type := c_type c; c_primary := c_primary c;
     c_notnull := c_notnull c; c_unique := c_unique c; c_lengths := c_lengths c;
     c_default := c_default c; c_references := c_references c;
     c_intable := Some rt; c_ondelete := c_ondelete c |}.

Definition onDelete (a : string) (c : column) : column :=
  {| c_name := c_name c; c_type := c_type c; c_primary := c_primary c;
     c_notnull := c_notnull c; c_unique := c_unique c; c_lengths := c_lengths c;
     c_default := c_default c; c_references := c_references c;
     c_intable := c_intable c; c_ondelete := Some a |}.

(** A table-level [table.check(...)]; the only raw check the program
    declares is a LIKE test on one column. *)
Record rawcheck := CheckLike {
  k_column : string;
  k_pattern : string
}.

(** ** Tables and the database *)

Record table := mkTable {
  t_columns : list column;
  t_checks : list rawcheck;
  t_rows : list (gmap string sqlval);
  t_seq : Z
}.

(** What the builder does with an [undefined] value in an insert: it
    refuses the insert, or binds NULL when the connection is configured with
    [useNullAsDefault].  It never falls back to the default of the column. *)
Inductive undef_policy :=
| UndefNull
| UndefThrow.

Record DB := mkDB {
  db_undefined : undef_policy;
  db_foreign_keys : bool;
  db_tables : gmap string table
}.

Definition set_table (tn : string) (t : table) (db : DB) : DB :=
  {| db_undefined := db_undefined db;
     db_foreign_keys := db_foreign_keys db;
     db_tables := <[tn := t]> (db_tables db) |}.

(** ** The monad of asynchronous methods: database state and exceptions *)

Definition M (A : Type) : Type := DB → result A * DB.

#[global] Instance M_ret : MRet M := λ A a db, (Ok a, db).

#[global] Instance M_bind : MBind M := λ A B f m db,
  match m db with
  | (Ok a, db') => f a db'
  | (Throw e, db') => (Throw e, db')
  end.

Definition throw {A : Type} (e : error) : M A := λ db, (Throw e, db).

Definition lift {A : Type} (r : result A) : M A := λ db, (r, db).

(** ** The storage engine: what SQLite does with the statements knex sends *)

Definition col (r : gmap string sqlval) (c : string) : sqlval :=
  default SNull (r !! c).

Definition find_column (t : table) (c : string) : option column :=
  List.find (λ k, String.eqb (c_name k) c) (t_columns t).

Definition has_column (t : table) (c : string) : bool :=
  match find_column t c with Some _ => true | None => false end.

Fixpoint first_error {A : Type} (f : A → option error) (l : list A) : option error :=
  match l with
  | [] => None
  | x :: l' =>
    match f x with
    | Some e => Some e
    | None => first_error f l'
    end
  end.

(** The comparison operator of [checkLength(op, n)]. *)
Definition op_holds (op : string) (a b : Z) : bool :=
  if String.eqb op ">=" then (b <=? a)%Z
  else if String.eqb op "<=" then (a <=? b)%Z
  else if String.eqb op ">" then (b <? a)%Z
  else if String.eqb op "<" then (a <? b)%Z
  else if String.eqb op "=" then (a =? b)%Z
  else if String.eqb op "!=" then negb (a =? b)%Z
  else false.

Definition lower (c : ascii) : ascii :=
  let n := nat_of_ascii c in
  if (65 <=? n)%nat && (n <=? 90)%nat then ascii_of_nat (n + 32) else c.

(** SQL [LIKE]: [%] matches any run of characters, [_] any single one,
    letters compare without case. *)
Fixpoint like (p s : string) : bool :=
  match p with
  | EmptyString => match s with EmptyString => true | _ => false end
  | String c p' =>
    if Ascii.eqb c "%" then
      (fix skip (s : string) : bool :=
         like p' s || match s with EmptyString => false | String _ s' => skip s' end) s
    else
      match s with
      | EmptyString => false
      | String d s' => (Ascii.eqb c "_" || Ascii.eqb (lower c) (lower d)) && like p' s'
      end
  end.

Definition text_column (ty : coltype) : bool :=
  match ty with
  | TString _ | TEnum _ => true
  | _ => false
  end.

(** Column affinity, on the way into a table: a number stored in a text
    column becomes its text, a double of integer value stored in a numeric
    column the integer (ids are within the 64-bit range of the engine). *)
Definition affinity (ty : coltype) (p : param) : sqlval :=
  match p with
  | PVal (SInt n) => if text_column ty then SText (pretty n) else SInt n
  | PVal v => v
  | PReal n => if text_column ty then SText (real_text n) else SInt n
  end.

Definition is_increments (c : column) : bool :=
  match c_type c with TIncrements => true | _ => false end.

Definition is_unique (c : column) : bool :=
  c_unique c || c_primary c || is_increments c.

Definition check_notnull (tn : string) (c : column) (v : sqlval) : option error :=
  if (c_notnull c || is_increments c) && is_null v
  then Some (ENotNull tn (c_name c)) else None.

Definition length_ok (v : sqlval) (chk : string * Z) : bool :=
  match sql_length v with
  | Some l => op_holds chk.1 l chk.2
  | None => true
  end.

(** [v in (allowed)]: NULL passes a CHECK. *)
Definition enum_member (allowed : list string) (v : sqlval) : bool :=
  match v with
  | SNull => true
  | SInt n => existsb (String.eqb (pretty n)) allowed
  | SText s => existsb (String.eqb s) allowed
  end.

Definition enum_ok (ty : coltype) (v : sqlval) : bool :=
  match ty with
  | TEnum allowed => enum_member allowed v
  | _ => true
  end.

Definition check_column (tn : string) (c : column) (v : sqlval) : option error :=
  if forallb (length_ok v) (c_lengths c) && enum_ok (c_type c) v
  then None else Some (ECheck tn (c_name c)).

(** What the engine's string functions read of a text: the bytes before
    the first NUL. *)
Fixpoint before_nul (s : string) : string :=
  match s with
  | EmptyString => EmptyString
  | String c s' => if (nat_of_ascii c =? 0)%nat then EmptyString
                   else String c (before_nul s')
  end.

(** [v LIKE pattern]: NULL passes a CHECK. *)
Definition like_ok (pattern : string) (v : sqlval) : bool :=
  match v with
  | SNull => true
  | SInt n => like pattern (pretty n)
  | SText s => like pattern (before_nul s)
  end.

Definition check_raw (tn : string) (k : rawcheck) (r : gmap string sqlval) : option error :=
  if like_ok (k_pattern k) (col r (k_column k))
  then None else Some (ECheck tn (k_column k)).

(** NOT NULL first, then the CHECK constraints, over the columns the
    statement writes ([touched]). *)
Definition row_errors (tn : string) (t : table) (touched : string → bool)
    (r : gmap string sqlval) : option error :=
  match first_error (λ c, if touched (c_name c)
                          then check_notnull tn c (col r (c_name c)) else None)
                    (t_columns t) with
  | Some e => Some e
  | None =>
    match first_error (λ c, if touched (c_name c)
                            then check_column tn c (col r (c_name c)) else None)
                      (t_columns t) with
    | Some e => Some e
    | None =>
      first_error (λ k, if touched (k_column k) then check_raw tn k r else None)
                  (t_checks t)
    end
  end.

Fixpoint dup_free (l : list sqlval) : bool :=
  match l with
  | [] => true
  | v :: l' => negb (existsb (sql_eqb v) l') && dup_free l'
  end.

(** PRIMARY KEY and UNIQUE: [clash c] tells whether the statement would leave
    two rows with the same value in column [c]. *)
Definition unique_errors (tn : string) (t : table) (touched : string → bool)
    (clash : column → bool) : option error :=
  first_error (λ c, if touched (c_name c) && is_unique c && clash c
                    then Some (EUnique tn (c_name c)) else None)
              (t_columns t).

Definition fk_ok (db : DB) (c : column) (v : sqlval) : bool :=
  match c_references c, c_intable c with
  | Some rc, Some rt =>
    is_null v ||
    match db_tables db !! rt with
    | Some parent => existsb (λ p, sql_eqb (col p rc) v) (t_rows parent)
    | None => false
    end
  | _, _ => true
  end.

(** FOREIGN KEY, only when the connection enforces it. *)
Definition fk_errors (db : DB) (tn : string) (t : table) (touched : string → bool)
    (r : gmap string sqlval) : option error :=
  if db_foreign_keys db then
    first_error (λ c, if touched (c_name c) && negb (fk_ok db c (col r (c_name c)))
                      then Some (EForeignKey tn (c_name c)) else None)
                (t_columns t)
  else None.

(** *** Binding the values of an object literal *)

Definition eval_bind (now : string) (b : bindval) : result (option param) :=
  match b with
  | BVal v => Ok (bind_param v)
  | BRaw sql =>
    if String.eqb sql "CURRENT_TIMESTAMP" then Ok (Some (PVal (SText now)))
    else Throw (ERawUnsupported sql)
  end.

Fixpoint eval_object (now : string) (o : list (string * bindval))
    : result (list (string * option param)) :=
  match o with
  | [] => Ok []
  | (k, b) :: o' =>
    match eval_bind now b with
    | Throw e => Throw e
    | Ok v =>
      match eval_object now o' with
      | Throw e => Throw e
      | Ok l => Ok ((k, v) :: l)
      end
    end
  end.

(** The value of key [k] in an object literal: the last one written. *)
Fixpoint assoc {B : Type} (k : string) (o : list (string * B)) : option B :=
  match o with
  | [] => None
  | (k', v) :: o' =>
    match assoc k o' with
    | Some x => Some x
    | None => if String.eqb k' k then Some v else None
    end
  end.

Definition unknown_column (tn : string) (t : table) {B : Type}
    (o : list (string * B)) : option error :=
  first_error (λ kv, if has_column t kv.1 then None else Some (ENoColumn tn kv.1)) o.

Definition default_value (now : string) (c : column) : sqlval :=
  match c_default c with
  | Some (DConst v) => v
  | Some DNow => SText now
  | None => SNull
  end.

(** *** INSERT *)

Definition row_int (c : string) (r : gmap string sqlval) : Z :=
  match col r c with SInt n => n | _ => 0%Z end.

(** AUTOINCREMENT: one more than the largest id the table ever held. *)
Definition next_id (idc : string) (t : table) : Z :=
  (1 + foldr (λ r m, Z.max (row_int idc r) m) (t_seq t) (t_rows t))%Z.

(** The value an insert stores in column [c]: the default of the column
    when the object has no such key, NULL for a key whose value is
    [undefined]. *)
Definition insert_value (now : string) (t : table)
    (o : list (string * option param)) (c : column) : sqlval :=
  let v := match assoc (c_name c) o with
           | None => default_value now c
           | Some (Some s) => affinity (c_type c) s
           | Some None => SNull
           end in
  if is_increments c && is_null v then SInt (next_id (c_name c) t) else v.

Definition build_row (now : string) (t : table)
    (o : list (string * option param)) : gmap string sqlval :=
  foldr (λ c r, <[c_name c := insert_value now t o c]> r) ∅ (t_columns t).

Definition rowid_of (t : table) (r : gmap string sqlval) : Z :=
  match List.find is_increments (t_columns t) with
  | Some c => row_int (c_name c) r
  | None => (1 + t_seq t)%Z
  end.

Definition table_insert (db : DB) (now : string) (tn : string) (t : table)
    (o : list (string * bindval)) : result (Z * table) :=
  match eval_object now o with
  | Throw e => Throw e
  | Ok vals =>
    if match db_undefined db with UndefThrow => true | _ => false end
       && existsb (λ kv, match kv.2 with None => true | Some _ => false end) vals
    then Throw EDefaultUnsupported
    else
      match unknown_column tn t vals with
      | Some e => Throw e
      | None =>
        let r := build_row now t vals in
        let all := λ _ : string, true in
        match row_errors tn t all r with
        | Some e => Throw e
        | None =>
          match unique_errors tn t all
                  (λ c, existsb (λ r', sql_eqb (col r' (c_name c)) (col r (c_name c)))
                                (t_rows t)) with
          | Some e => Throw e
          | None =>
            match fk_errors db tn t all r with
            | Some e => Throw e
            | None =>
              let id := rowid_of t r in
              Ok (id, {| t_columns := t_columns t; t_checks := t_checks t;
                         t_rows := t_rows t ++ [r];
                         t_seq := Z.max (t_seq t) id |})
            end
          end
        end
      end
  end.

(** *** Queries: [db(table)], [.where], [.select], [.join] *)

Inductive selector :=
| SelStar (tn : string)
| SelAs (tn c alias : string).

Record join_spec := mkJoin {
  j_table : string;
  j_left : string * string;
  j_right : string * string
}.

Record query := mkQuery {
  q_table : string;
  q_select : list selector;
  q_join : option join_spec;
  q_where : list (string * sqlval)
}.

Definition knex (tn : string) : query :=
  {| q_table := tn; q_select := []; q_join := None; q_where := [] |}.

Definition where_ (w : list (string * sqlval)) (q : query) : query :=
  {| q_table := q_table q; q_select := q_select q; q_join := q_join q;
     q_where := q_where q ++ w |}.

Definition select (sels : list selector) (q : query) : query :=
  {| q_table := q_table q; q_select := q_select q ++ sels; q_join := q_join q;
     q_where := q_where q |}.

Definition join (tn : string) (l r : string * string) (q : query) : query :=
  {| q_table := q_table q; q_select := q_select q;
     q_join := Some {| j_table := tn; j_left := l; j_right := r |};
     q_where := q_where q |}.

(** A row satisfies a WHERE object when every listed column equals its
    value. *)
Definition matches (w : list (string * sqlval)) (r : gmap string sqlval) : bool :=
  forallb (λ kv, sql_eqb (col r kv.1) kv.2) w.

(** *** SELECT *)

(** The value of a qualified column [tn.c] in a joined pair of rows. *)
Definition qualified (base jn : string) (ra rb : gmap string sqlval)
    (ref : string * string) : sqlval :=
  if String.eqb ref.1 base then col ra ref.2
  else if String.eqb ref.1 jn then col rb ref.2
  else SNull.

Definition project1 (base jn : string) (ra rb : gmap string sqlval)
    (s : selector) : gmap string sqlval :=
  match s with
  | SelStar tn =>
    if String.eqb tn base then ra else if String.eqb tn jn then rb else ∅
  | SelAs tn c alias => {[ alias := qualified base jn ra rb (tn, c) ]}
  end.

(** The result object of one joined pair: a later selector overrides an
    earlier key of the same name. *)
Definition project (base jn : string) (sels : list selector)
    (ra rb : gmap string sqlval) : gmap string sqlval :=
  foldl (λ acc s, project1 base jn ra rb s ∪ acc) ∅ sels.

(** An unqualified WHERE column of a join must belong to exactly one side. *)
Definition join_where_error (ta tb : table) (w : list (string * sqlval)) : option error :=
  first_error (λ kv, if has_column ta kv.1 && has_column tb kv.1
                     then Some (EAmbiguousColumn kv.1) else None) w.

Definition join_matches (ta : table) (w : list (string * sqlval))
    (ra rb : gmap string sqlval) : bool :=
  forallb (λ kv, sql_eqb (if has_column ta kv.1 then col ra kv.1 else col rb kv.1) kv.2) w.

Definition where_error (tn : string) (t : table) (w : list (string * sqlval)) : option error :=
  unknown_column tn t w.

Definition run_select (q : query) : M (list (gmap string sqlval)) := λ db,
  match db_tables db !! q_table q with
  | None => (Throw (ENoTable (q_table q)), db)
  | Some ta =>
    match q_join q with
    | None =>
      match where_error (q_table q) ta (q_where q) with
      | Some e => (Throw e, db)
      | None => (Ok (List.filter (matches (q_where q)) (t_rows ta)), db)
      end
    | Some j =>
      match db_tables db !! j_table j with
      | None => (Throw (ENoTable (j_table j)), db)
      | Some tb =>
        match join_where_error ta tb (q_where q) with
        | Some e => (Throw e, db)
        | None =>
          match first_error (λ kv, if has_column ta kv.1 || has_column tb kv.1 then None
                                   else Some (ENoColumn (q_table q) kv.1)) (q_where q) with
          | Some e => (Throw e, db)
          | None =>
            (Ok (flat_map (λ ra,
                   map (project (q_table q) (j_table j) (q_select q) ra)
                       (List.filter (λ rb,
                          sql_eqb (qualified (q_table q) (j_table j) ra rb (j_left j))
                                  (qualified (q_table q) (j_table j) ra rb (j_right j))
                          && join_matches ta (q_where q) ra rb)
                          (t_rows tb)))
                   (t_rows ta)), db)
          end
        end
      end
    end
  end.

(** [.first()]: the first row of the result, or [undefined]. *)
Definition first (q : query) : M (option (gmap string sqlval)) :=
  rows ← run_select q; mret (head rows).

(** *** INSERT, UPDATE, DELETE as query terminals *)

(** [.insert(o)] resolves to the list holding the new row's id. *)
Definition insert (now : string) (o : list (string * bindval)) (q : query) : M (list Z) := λ db,
  match db_tables db !! q_table q with
  | None => (Throw (ENoTable (q_table q)), db)
  | Some t =>
    match table_insert db now (q_table q) t o with
    | Throw e => (Throw e, db)
    | Ok (id, t') => (Ok [id], set_table (q_table q) t' db)
    end
  end.

(** [.returning(c)] on an insert into a table whose key is [c]: one object
    per new row, holding the new id under [c]. *)
Definition returning (c : string) (m : M (list Z)) : M (list (gmap string jsval)) :=
  ids ← m; mret (map (λ i, {[ c := JNum i ]}) ids).

(** The keys of an object literal whose value is not [undefined]. *)
Definition defined (vals : list (string * option param)) : list (string * option param) :=
  List.filter (λ kv, match kv.2 with Some _ => true | None => false end) vals.

(** The SET clause: [undefined] values are dropped, the others take the
    affinity of their column. *)
Fixpoint assignments (t : table) (vals : list (string * option param))
    : gmap string sqlval :=
  match vals with
  | [] => ∅
  | (k, v) :: vals' =>
    match assignments t vals', v, find_column t k with
    | rest, Some s, Some c =>
      match rest !! k with
      | Some _ => rest
      | None => <[k := affinity (c_type c) s]> rest
      end
    | rest, _, _ => rest
    end
  end.

(** [.update(o).returning("*")] resolves to the rows it changed, as they are
    after the change. *)
Definition update (now : string) (o : list (string * bindval)) (q : query)
    : M (list (gmap string sqlval)) := λ db,
  let tn := q_table q in
  match db_tables db !! tn with
  | None => (Throw (ENoTable tn), db)
  | Some t =>
    match where_error tn t (q_where q) with
    | Some e => (Throw e, db)
    | None =>
      match eval_object now o with
      | Throw e => (Throw e, db)
      | Ok vals =>
        match unknown_column tn t (defined vals) with
        | Some e => (Throw e, db)
        | None =>
          let asg := assignments t vals in
          let touched := λ c, bool_decide (is_Some (asg !! c)) in
          let changed := map (λ r, asg ∪ r) (List.filter (matches (q_where q)) (t_rows t)) in
          let rows' := map (λ r, if matches (q_where q) r then asg ∪ r else r) (t_rows t) in
          match first_error (row_errors tn t touched) changed with
          | Some e => (Throw e, db)
          | None =>
            match (if changed is [] then None
                   else unique_errors tn t touched
                          (λ c, negb (dup_free (map (λ r, col r (c_name c)) rows')))) with
            | Some e => (Throw e, db)
            | None =>
              match first_error (fk_errors db tn t touched) changed with
              | Some e => (Throw e, db)
              | None =>
                (Ok changed,
                 set_table tn {| t_columns := t_columns t; t_checks := t_checks t;
                                 t_rows := rows'; t_seq := t_seq t |} db)
              end
            end
          end
        end
      end
    end
  end.

(** [.del()] resolves to the number of rows deleted.  No table of the
    program references the one it deletes from, so no referential action is
    modelled. *)
Definition del (q : query) : M Z := λ db,
  let tn := q_table q in
  match db_tables db !! tn with
  | None => (Throw (ENoTable tn), db)
  | Some t =>
    match where_error tn t (q_where q) with
    | Some e => (Throw e, db)
    | None =>
      (Ok (Z.of_nat (List.length (List.filter (matches (q_where q)) (t_rows t)))),
       set_table tn {| t_columns := t_columns t; t_checks := t_checks t;
                       t_rows := List.filter (λ r, negb (matches (q_where q) r)) (t_rows t);
                       t_seq := t_seq t |} db)
    end
  end.

(** *** Schema operations *)

Definition hasTable (tn : string) : M bool := λ db,
  (Ok (bool_decide (is_Some (db_tables db !! tn))), db).

Definition createTable (tn : string) (cols : list column) (checks : list rawcheck)
    : M unit := λ db,
  match db_tables db !! tn with
  | Some _ => (Throw (ETableExists tn), db)
  | None =>
    (Ok (), set_table tn {| t_columns := cols; t_checks := checks;
                            t_rows := []; t_seq := 0 |} db)
  end.

(** ** bcryptjs

    The Eksblowfish digest itself is a parameter: [hash_string key salt] is
    the hash string of the key bytes [key] under [salt], or the error the
    library rejects a malformed salt with.  [hash] is the library's entry:
    the key schedule reads 72 bytes, so what follows the first 72 bytes of
    the string plays no part.  [compare] is the library's wrapper: a stored
    hash that is not 60 characters long never matches, otherwise the
    candidate is hashed under the salt the stored hash starts with (its
    first 29 characters) and the two strings are compared. *)

Module Bcrypt.

(** [s.length]: JavaScript counts 16-bit units, one for a character of up
    to three bytes and two for a character of four. *)
Fixpoint js_length (s : string) : nat :=
  match s with
  | EmptyString => 0
  | String c s' =>
    let b := nat_of_ascii c in
    ((if (128 <=? b) && (b <? 192) then 0 else if 240 <=? b then 2 else 1)
     + js_length s')%nat
  end.

(** [s.substr(0, n)]: the characters that lie within the first [n]
    units. *)
Fixpoint js_substr (n : nat) (s : string) : string :=
  match s with
  | EmptyString => EmptyString
  | String c s' =>
    let b := nat_of_ascii c in
    if (128 <=? b) && (b <? 192) then String c (js_substr n s')
    else
      let cost := if 240 <=? b then 2 else 1 in
      if cost <=? n then String c (js_substr (n - cost) s') else EmptyString
  end.

Section primitive.
Variable hash_string : string → string → result string.

Definition hash (s : string) (salt : string) : result string :=
  hash_string (substring 0 72 s) salt.

Definition compare (s : string) (stored : string) : result bool :=
  if (js_length stored =? 60)%nat then
    match hash s (js_substr 29 stored) with
    | Ok comp => Ok (String.eqb comp stored)
    | Throw e => Throw e
    end
  else Ok false.
End primitive.
End Bcrypt.

(** ** jsonwebtoken

    Signatures are symbolic: a signature records the key, the algorithm and
    the payload it was computed over. *)

Module Jwt.

Inductive signature :=
| HMAC (key : string) (alg : string) (payload : gmap string jsval).

#[global] Instance signature_eq_dec : EqDecision signature.
Proof. solve_decision. Defined.

Record token := mkToken {
  header_alg : string;
  payload : gmap string jsval;
  sig : signature
}.

Definition is_digit (c : ascii) : bool :=
  let n := nat_of_ascii c in (48 <=? n)%nat && (n <=? 57)%nat.

(** The leading decimal digits of a string, as a number, and what follows. *)
Fixpoint read_digits (acc : Z) (seen : bool) (s : string) : option Z * string :=
  match s with
  | String c s' =>
    if is_digit c
    then read_digits (10 * acc + Z.of_nat (nat_of_ascii c - 48))%Z true s'
    else (if seen then Some acc else None, s)
  | EmptyString => (if seen then Some acc else None, s)
  end.

Definition unit_ms (u : string) : option Z :=
  if String.eqb u EmptyString then Some 1%Z
  else if String.eqb u "ms" then Some 1%Z
  else if String.eqb u "s" then Some 1000%Z
  else if String.eqb u "m" then Some 60000%Z
  else if String.eqb u "h" then Some 3600000%Z
  else if String.eqb u "d" then Some 86400000%Z
  else if String.eqb u "w" then Some 604800000%Z
  else if String.eqb u "y" then Some 31557600000%Z
  else None.

(** The [ms] package on a whole number followed by a short unit: the span
    in milliseconds. *)
Definition ms (s : string) : option Z :=
  match read_digits 0 false s with
  | (Some n, u) =>
    match unit_ms u with
    | Some k => Some (n * k)%Z
    | None => None
    end
  | (None, _) => None
  end.

(** [timespan(time, iat)]: the second the span ends at. *)
Definition timespan (time : string) (iat : Z) : option Z :=
  match ms time with
  | Some milliseconds => Some (iat + milliseconds / 1000)%Z
  | None => None
  end.

(** [JSON.stringify] leaves out the keys whose value is [undefined]. *)
Definition json (o : gmap string jsval) : gmap string jsval :=
  filter (λ kv, kv.2 ≠ JUndefined) o.

(** [jwt.sign(payload, secretOrPrivateKey, { expiresIn })] at second [now]. *)
Definition sign (claims : gmap string jsval) (secretOrPrivateKey : jsval)
    (expiresIn : string) (now : Z) : result token :=
  match secretOrPrivateKey with
  | JStr key =>
    if truthy secretOrPrivateKey then
      match timespan expiresIn now with
      | Some exp =>
        let body := json (<["exp" := JNum exp]> (<["iat" := JNum now]> claims)) in
        Ok {| header_alg := "HS256"; payload := body; sig := HMAC key "HS256" body |}
      | None => Throw (EJwt "expiresIn should be a number of seconds or string representing a timespan")
      end
    else Throw (EJwt "secretOrPrivateKey must have a value")
  | _ => Throw (EJwt "secretOrPrivateKey must have a value")
  end.

(** [jwt.verify(token, secret)] at second [now]: the signature must be the
    one [secret] gives, and the token must not have expired. *)
Definition verify (t : token) (secret : string) (now : Z) : result (gmap string jsval) :=
  if bool_decide (sig t = HMAC secret (header_alg t) (payload t)) then
    match prop (payload t) "exp" with
    | JNum exp => if (exp <=? now)%Z then Throw (EJwt "jwt expired") else Ok (payload t)
    | _ => Ok (payload t)
    end
  else Throw (EJwt "invalid signature").

End Jwt.

(** [process.env.K] *)
Definition env_get (env : gmap string string) (k : string) : jsval :=
  match env !! k with
  | Some v => JStr v
  | None => JUndefined
  end.

(** [...(v && o)] inside an object literal: the keys of [o] when [v] is
    truthy, nothing otherwise. *)
Definition spread_and {B : Type} (v : jsval) (o : list (string * B)) : list (string * B) :=
  if truthy v then o else [].

(** ** models/User.js *)

Module User.

Record created := mkCreated {
  id : jsany;
  name : jsval;
  email : jsval;
  hashedPassword : string
}.

Definition columns : list column :=
  [ increments "id" |> primary;
    string_ "name" 50 |> notNullable |> checkLength ">=" 3 |> checkLength "<=" 50;
    string_ "email" 255 |> notNullable |> unique;
    string_ "password" 255 |> notNullable |> checkLength ">=" 6 ].

Definition checks : list rawcheck :=
  [ CheckLike "email" "%@%.%" ].

Definition initTable : M unit :=
  tableExists ← hasTable "users";
  if negb tableExists then createTable "users" columns checks else mret ().

Section bcrypt.
Variable hash_string : string → string → result string.

(** [salt] is the salt [bcrypt.genSalt(10)] draws, [now] the clock of the
    storage engine.  [const [id] = ...] takes the first element of what
    [.insert(o).returning("id")] resolves to: the object [{ id: n }] of the
    new row. *)
Definition createUser (salt now : string) (name email : jsval) (password : string)
    : M created :=
  hashedPassword ← lift (Bcrypt.hash hash_string password salt);
  rows ← knex "users"
         |> insert now [ ("name", BVal name);
                         ("email", BVal email);
                         ("password", BVal (JStr hashedPassword)) ]
         |> returning "id";
  mret {| id := match rows with o :: _ => JObject o | [] => JScalar JUndefined end;
          name := name; email := email; hashedPassword := hashedPassword |}.

Definition comparePassword (candidatePassword userPassword : string) : result bool :=
  Bcrypt.compare hash_string candidatePassword userPassword.
End bcrypt.

Definition findByEmail (email : string) : M (option (gmap string sqlval)) :=
  knex "users" |> where_ [("email", SText email)] |> first.

(** [now] is the second at which the token is issued. *)
Definition createJWT (env : gmap string string) (now : Z) (user : gmap string jsval)
    : result Jwt.token :=
  Jwt.sign (<["userId" := prop user "id"]> (<["name" := prop user "name"]> ∅))
           (env_get env "JWT_SECRET")
           "30d" now.

End User.

(** ** models/Job.js

    Job ids and account ids are integers: the primary keys the engine
    assigns. *)

Module Job.

Record created := mkCreated {
  id : jsval;
  role : jsval;
  company : jsval;
  status : jsval;
  createdBy : Z
}.

Definition columns : list column :=
  [ increments "id" |> primary;
    string_ "role" 255 |> notNullable |> checkLength "<=" 100;
    string_ "company" 255 |> notNullable |> checkLength "<=" 50;
    enum "status" ["pending"; "interview"; "decline"]
      |> notNullable |> defaultTo (DConst (SText "pending"));
    integer "created_by"
      |> notNullable |> references "id" |> inTable "users" |> onDelete "CASCADE";
    timestamp "created_at" |> defaultTo DNow;
    timestamp "updated_at" |> defaultTo DNow ].

Definition initTable : M unit :=
  tableExists ← hasTable "jobs";
  if negb tableExists then createTable "jobs" columns [] else mret ().

(** [now] is the clock of the storage engine, for the timestamp defaults. *)
Definition createJob (now : string) (role company status : jsval) (createdBy : Z)
    : M created :=
  ids ← knex "jobs"
        |> insert now [ ("role", BVal role);
                        ("company", BVal company);
                        ("status", BVal status);
                        ("created_by", BVal (JNum createdBy)) ];
  mret {| id := match ids with i :: _ => JNum i | [] => JUndefined end;
          role := role; company := company; status := status;
          createdBy := createdBy |}.

Definition getAllJobs (userId : Z) : M (list (gmap string sqlval)) :=
  knex "jobs"
  |> select [SelStar "jobs"; SelAs "users" "name" "creator_name"]
  |> join "users" ("jobs", "created_by") ("users", "id")
  |> where_ [("created_by", SInt userId)]
  |> run_select.

Definition getSingleJob (jobId userId : Z) : M (option (gmap string sqlval)) :=
  knex "jobs" |> where_ [("id", SInt jobId); ("created_by", SInt userId)] |> first.

(** The [updates] object of [updateJob], in the order it is written. *)
Definition updates (payload : gmap string jsval) : list (string * bindval) :=
  spread_and (prop payload "role") [("role", BVal (prop payload "role"))]
  ++ spread_and (prop payload "company") [("company", BVal (prop payload "company"))]
  ++ spread_and (prop payload "status") [("status", BVal (prop payload "status"))]
  ++ [("updated_at", BRaw "CURRENT_TIMESTAMP")].

(** [now] is what [CURRENT_TIMESTAMP] evaluates to. *)
Definition updateJob (now : string) (jobId userId : Z) (payload : gmap string jsval)
    : M (option (gmap string sqlval)) :=
  rows ← knex "jobs"
         |> where_ [("id", SInt jobId); ("created_by", SInt userId)]
         |> update now (updates payload);
  mret (head rows).

Definition deleteJob (jobId userId : Z) : M Z :=
  count ← knex "jobs" |> where_ [("id", SInt jobId); ("created_by", SInt userId)] |> del;
  mret count.

End Job.

(** ** app.js

    [connectDB] and [fastify.listen] are outside the models: what they
    resolve to, or the error they reject with, is given.  Registering the
    routes touches neither the database nor the console. *)

Module App.

(** What [console.log] prints: a fixed text, or the message of an error. *)
Inductive line :=
| Text (s : string)
| Message (e : error).

Inductive status :=
| Listening
| Exited (code : Z).

Record run := mkRun {
  r_status : status;
  r_console : list line;
  r_db : option DB
}.

(** The [catch] block: the message is printed and the process exits with
    code 1. *)
Definition failed (console : list line) (err : error) (db : option DB) : run :=
  {| r_status := Exited 1; r_console := console ++ [Message err]; r_db := db |}.

Definition start (connectDB : result DB) (listen : result unit) : run :=
  match connectDB with
  | Throw err => failed [] err None
  | Ok db =>
    let console := [Text "Database connected"] in
    match User.initTable db with
    | (Throw err, db) => failed console err (Some db)
    | (Ok _, db) =>
      let console := console ++ [Text "Users table initialized"] in
      match Job.initTable db with
      | (Throw err, db) => failed console err (Some db)
      | (Ok _, db) =>
        let console := console ++ [Text "Jobs table initialized"] in
        match listen with
        | Throw err => failed console err (Some db)
        | Ok _ =>
          {| r_status := Listening;
             r_console := console ++ [Text "Server running on http://localhost:3000"];
             r_db := Some db |}
        end
      end
    end
  end.

End App.

(** * Vocabulary of the properties *)

(** The rows a job statement addresses: those with this id and this owner. *)
Definition targets (jobId userId : Z) (r : gmap string sqlval) : Prop :=
  col r "id" = SInt jobId ∧ col r "created_by" = SInt userId.

#[global] Instance targets_dec jobId userId r : Decision (targets jobId userId r).
Proof. unfold targets. apply _. Defined.

Definition job_where (jobId userId : Z) : list (string * sqlval) :=
  [("id", SInt jobId); ("created_by", SInt userId)].

Definition with_rows (t : table) (rows : list (gmap string sqlval)) : table :=
  {| t_columns := t_columns t; t_checks := t_checks t; t_rows := rows; t_seq := t_seq t |}.

(** A database whose jobs table is the one [Job.initTable] declares, with
    its primary key respected. *)
Record jobs_ok (db : DB) (t : table) : Prop := mkJobsOk {
  jobs_lookup : db_tables db !! "jobs" = Some t;
  jobs_columns : t_columns t = Job.columns;
  jobs_checks : t_checks t = [];
  jobs_pk : NoDup (map (λ r, col r "id") (t_rows t))
}.

(** What a truthy payload value is bound as, and what a text column then
    holds. *)
Definition stored (v : jsval) : param := default (PVal SNull) (bind_param v).

Definition text (v : jsval) : sqlval := affinity (TString 255) (stored v).

Definition set_if (payload : gmap string jsval) (f : string)
    (m : gmap string sqlval) : gmap string sqlval :=
  if truthy (prop payload f) then <[f := text (prop payload f)]> m else m.

(** The SET clause [Job.updateJob] sends. *)
Definition job_set (now : string) (payload : gmap string jsval) : gmap string sqlval :=
  set_if payload "role"
    (set_if payload "company"
       (set_if payload "status" (<["updated_at" := SText now]> ∅))).

Definition job_vals (now : string) (payload : gmap string jsval)
    : list (string * option param) :=
  spread_and (prop payload "role") [("role", Some (stored (prop payload "role")))]
  ++ spread_and (prop payload "company") [("company", Some (stored (prop payload "company")))]
  ++ spread_and (prop payload "status") [("status", Some (stored (prop payload "status")))]
  ++ [("updated_at", Some (PVal (SText now)))].

(** The values [Job.updateJob] writes pass the checks of their columns. *)
Definition field_ok (payload : gmap string jsval) (f : string) (ok : sqlval → bool) : bool :=
  if truthy (prop payload f) then ok (text (prop payload f)) else true.

Definition fields_valid (payload : gmap string jsval) : bool :=
  field_ok payload "role" (λ v, length_ok v ("<=", 100%Z))
  && field_ok payload "company" (λ v, length_ok v ("<=", 50%Z))
  && field_ok payload "status" (enum_member ["pending"; "interview"; "decline"]).

Definition touches (asg : gmap string sqlval) (c : string) : bool :=
  bool_decide (is_Some (asg !! c)).

(** The rows [Job.getAllJobs] builds from the two tables. *)
Definition joined (userId : Z) (jobs users : list (gmap string sqlval))
    : list (gmap string sqlval) :=
  flat_map (λ ra,
    map (λ rb, <["creator_name" := col rb "name"]> ra)
        (List.filter (λ rb, sql_eqb (col ra "created_by") (col rb "id")
                            && sql_eqb (col ra "created_by") (SInt userId)) users))
    jobs.

Definition all_columns : string → bool := λ _, true.

(** The object literal [Job.createJob] inserts, and the row the engine
    builds from it. *)
Definition job_object (role company status : jsval) (createdBy : Z)
    : list (string * bindval) :=
  [ ("role", BVal role); ("company", BVal company); ("status", BVal status);
    ("created_by", BVal (JNum createdBy)) ].

Definition job_bound (role company status : jsval) (createdBy : Z)
    : list (string * option param) :=
  [ ("role", bind_param role); ("company", bind_param company);
    ("status", bind_param status); ("created_by", bind_param (JNum createdBy)) ].

Definition new_job_row (now : string) (t : table)
    (role company status : jsval) (createdBy : Z) : gmap string sqlval :=
  build_row now t (job_bound role company status createdBy).

(** The table after an insert of row [r]. *)
Definition with_new_row (t : table) (r : gmap string sqlval) : table :=
  {| t_columns := t_columns t; t_checks := t_checks t;
     t_rows := t_rows t ++ [r]; t_seq := Z.max (t_seq t) (rowid_of t r) |}.

(** What an inserted value is stored as in a text column; [d] is what the
    column holds for [undefined]. *)
Definition text_or (d : sqlval) (v : jsval) : sqlval :=
  match bind_param v with
  | Some s => affinity (TString 255) s
  | None => d
  end.

(** The NOT NULL and CHECK constraints of the jobs table, on one row. *)
Definition job_row_valid (r : gmap string sqlval) : bool :=
  negb (is_null (col r "id"))
  && negb (is_null (col r "role")) && length_ok (col r "role") ("<=", 100%Z)
  && negb (is_null (col r "company")) && length_ok (col r "company") ("<=", 50%Z)
  && negb (is_null (col r "status"))
  && enum_member ["pending"; "interview"; "decline"] (col r "status")
  && negb (is_null (col r "created_by")).

(** An argument of [createJob] that a text column of at most [n]
    characters accepts. *)
Definition text_arg_ok (n : Z) (v : jsval) : bool :=
  negb (is_null (text_or SNull v)) && length_ok (text_or SNull v) ("<=", n).

Definition status_arg_ok (v : jsval) : bool :=
  negb (is_null (text_or SNull v))
  && enum_member ["pending"; "interview"; "decline"] (text_or SNull v).

Definition owner_exists (db : DB) (createdBy : Z) : bool :=
  match db_tables db !! "users" with
  | Some users => existsb (λ p, sql_eqb (col p "id") (SInt createdBy)) (t_rows users)
  | None => false
  end.

(** The arguments of [createJob] the storage accepts. *)
Definition job_valid (db : DB) (role company status : jsval) (createdBy : Z) : bool :=
  text_arg_ok 100 role && text_arg_ok 50 company
  && status_arg_ok status
  && (negb (db_foreign_keys db) || owner_exists db createdBy).

(** A database whose users table is the one [User.initTable] declares,
    with its primary key respected. *)
Record users_ok (db : DB) (t : table) : Prop := mkUsersOk {
  users_lookup : db_tables db !! "users" = Some t;
  users_columns : t_columns t = User.columns;
  users_checks : t_checks t = User.checks;
  users_pk : NoDup (map (λ r, col r "id") (t_rows t))
}.

(** The object literal [User.createUser] inserts, and the row the engine
    builds from it. *)
Definition user_object (name email : jsval) (hashed : string) : list (string * bindval) :=
  [ ("name", BVal name); ("email", BVal email); ("password", BVal (JStr hashed)) ].

Definition user_bound (name email : jsval) (hashed : string)
    : list (string * option param) :=
  [ ("name", bind_param name); ("email", bind_param email);
    ("password", Some (PVal (SText hashed))) ].

Definition new_user_row (now : string) (t : table)
    (name email : jsval) (hashed : string) : gmap string sqlval :=
  build_row now t (user_bound name email hashed).

(** The NOT NULL and CHECK constraints of the users table, on one row. *)
Definition user_row_valid (r : gmap string sqlval) : bool :=
  negb (is_null (col r "id"))
  && negb (is_null (col r "name")) && length_ok (col r "name") ("<=", 50%Z)
  && negb (is_null (col r "email"))
  && negb (is_null (col r "password")) && length_ok (col r "password") (">=", 6%Z)
  && like_ok "%@%.%" (col r "email").

(** A name the users table accepts: of the two length checks the schema
    declares for the column, the table has the last. *)
Definition name_ok (name : jsval) : bool :=
  negb (is_null (text_or SNull name))
  && length_ok (text_or SNull name) ("<=", 50%Z).

(** An email the users table accepts, uniqueness apart. *)
Definition email_ok (email : jsval) : bool :=
  negb (is_null (text_or SNull email)) && like_ok "%@%.%" (text_or SNull email).

(** The builder refuses the insert: it throws on [undefined] and one of
    the values is. *)
Definition refuses_undefined (db : DB) (vals : list (string * option param)) : bool :=
  match db_undefined db with UndefThrow => true | _ => false end
  && existsb (λ kv, match kv.2 with None => true | Some _ => false end) vals.

Definition email_taken (t : table) (e : sqlval) : bool :=
  existsb (λ r, sql_eqb (col r "email") e) (t_rows t).

(** The alphabet of bcrypt's base-64 encoding. *)
Definition bcrypt_alphabet : string :=
  "./ABCDEFGHIJKLMNOPQRSTUVWXYZabcdefghijklmnopqrstuvwxyz0123456789".

Definition in_alphabet (c : ascii) : bool :=
  existsb (Ascii.eqb c) (list_ascii_of_string bcrypt_alphabet).

(** The characters of a hash string: those of the alphabet, and the
    separator. *)
Definition hash_char (c : ascii) : bool := in_alphabet c || Ascii.eqb c "$".

(** A salt as [bcrypt.genSalt(10)] draws it: the version and the cost, then
    the 22 characters that encode 16 random bytes, the last of which carries
    two bits only and is one of four. *)
Definition generated_salt (salt : string) : bool :=
  (String.eqb (substring 0 7 salt) "$2a$10$" || String.eqb (substring 0 7 salt) "$2b$10$")
  && (String.length salt =? 29)%nat
  && forallb in_alphabet (list_ascii_of_string (substring 7 22 salt))
  && existsb (String.eqb (substring 28 1 salt)) ["."; "O"; "e"; "u"].

(** What the development relies on about the digest behind [bcrypt.hash]:
    a hash is a string of at least 59 characters of the alphabet and
    separators, whether a salt is accepted does not depend on the key, and
    under a salt that [genSalt] draws the hash is that salt followed by 31
    characters.  Nothing is assumed on how the 31 characters depend on the
    key. *)
Record bcrypt_contract (hash_string : string → string → result string) : Prop :=
  mkBcryptContract {
    hash_text : ∀ key salt h,
      hash_string key salt = Ok h →
      (59 ≤ String.length h)%nat ∧ forallb hash_char (list_ascii_of_string h) = true;
    hash_accepts : ∀ key key' salt h,
      hash_string key salt = Ok h → ∃ h', hash_string key' salt = Ok h';
    hash_generated : ∀ key salt,
      generated_salt salt = true →
      ∃ tail, hash_string key salt = Ok (salt +:+ tail) ∧ String.length tail = 31%nat
  }.

(** A stand-in for the digest, to run the model on: under a salt that
    [genSalt] draws, the hash of a key is the salt followed by 31
    characters of the alphabet taken from the first bytes of the key. *)
Definition toy_char (c : ascii) : ascii :=
  nth (nat_of_ascii c mod 64) (list_ascii_of_string bcrypt_alphabet) "."%char.

Definition toy_hash (key salt : string) : result string :=
  if generated_salt salt
  then Ok (salt +:+ string_of_list_ascii
                      (map toy_char
                         (list_ascii_of_string
                            (substring 0 31 (key +:+ "===============================")))))
  else Throw (EBcrypt "Invalid salt").

Definition thirty_days : Z := 30 * 24 * 60 * 60.

(** ** A scenario to run the model on

    Both tables are initialised on an empty database, Alice registers, and
    Alice creates one job. *)

Definition empty_db (pol : undef_policy) (fk : bool) : DB :=
  {| db_undefined := pol; db_foreign_keys := fk; db_tables := ∅ |}.

Definition after {A : Type} (m : M A) (db : DB) : DB := (m db).2.

Definition demo_salt : string := "$2a$10$abcdefghijklmnopqrstuu".

Definition demo_init (pol : undef_policy) : DB :=
  after Job.initTable (after User.initTable (empty_db pol true)).

Definition demo_registered (pol : undef_policy) : DB :=
  after (User.createUser toy_hash demo_salt "2026-01-01 00:00:00"
           (JStr "Alice") (JStr "a@b.com") "secret1") (demo_init pol).

Definition demo_db : DB :=
  after (Job.createJob "2026-01-02 00:00:00" (JStr "Engineer") (JStr "Acme")
           (JStr "pending") 1) (demo_registered UndefThrow).

Definition table_of (db : DB) (tn : string) : table :=
  default {| t_columns := []; t_checks := []; t_rows := []; t_seq := 0 |}
          (db_tables db !! tn).

Definition demo_jobs : table := table_of demo_db "jobs".

Definition demo_users : table := table_of demo_db "users".

Definition demo_job : gmap string sqlval := default ∅ (head (t_rows demo_jobs)).

Definition demo_user : gmap string sqlval := default ∅ (head (t_rows demo_users)).

Definition demo_hash : string :=
  "$2a$10$abcdefghijklmnopqrstuuxjhwjyv777777777777777777777777".

Definition demo_account : User.created :=
  {| User.id := JObject {[ "id" := JNum 1 ]}; User.name := JStr "Alice";
     User.email := JStr "a@b.com"; User.hashedPassword := demo_hash |}.

Definition demo_payload : gmap string jsval :=
  <["status" := JStr EmptyString]> (<["role" := JStr "Lead"]> ∅).

Definition demo_env : gmap string string := <["JWT_SECRET" := "s3cret"]> ∅.

Definition demo_claims : gmap string jsval :=
  <["id" := JNum 1]> (<["name" := JStr "Alice"]> ∅).

(** ** The states the two stores can reach *)

(** Every job row belongs to an account. *)
Definition owned_jobs (tu tj : table) : Prop :=
  ∀ j, j ∈ t_rows tj → ∃ u, u ∈ t_rows tu ∧ col u "id" = col j "created_by".

Definition db_inv (db : DB) : Prop :=
  ∃ tu tj, users_ok db tu ∧ jobs_ok db tj ∧ owned_jobs tu tj.

(** The states reached from an empty database by initialising both tables
    and then calling the stores, [createJob] being called for an existing
    account (the one the token names) unless the connection enforces
    foreign keys. *)
Inductive reachable (hash_string : string → string → result string) : DB → Prop :=
| reach_init pol fk :
    reachable hash_string (after Job.initTable (after User.initTable (empty_db pol fk)))
| reach_createUser db salt now name email password :
    reachable hash_string db →
    reachable hash_string
      (after (User.createUser hash_string salt now name email password) db)
| reach_createJob db now role company status createdBy :
    reachable hash_string db →
    owner_exists db createdBy = true ∨ db_foreign_keys db = true →
    reachable hash_string (after (Job.createJob now role company status createdBy) db)
| reach_updateJob db now jobId userId payload :
    reachable hash_string db →
    reachable hash_string (after (Job.updateJob now jobId userId payload) db)
| reach_deleteJob db jobId userId :
    reachable hash_string db →
    reachable hash_string (after (Job.deleteJob jobId userId) db).

(** ** Runs of the two stores *)

(** One call of a method that writes, from any state and with any
    arguments. *)
Inductive step (hash_string : string → string → result string) : DB → DB → Prop :=
| step_createUser db salt now name email password :
    step hash_string db
      (after (User.createUser hash_string salt now name email password) db)
| step_createJob db now role company status createdBy :
    step hash_string db (after (Job.createJob now role company status createdBy) db)
| step_updateJob db now jobId userId payload :
    step hash_string db (after (Job.updateJob now jobId userId payload) db)
| step_deleteJob db jobId userId :
    step hash_string db (after (Job.deleteJob jobId userId) db)
| step_initUsers db :
    step hash_string db (after User.initTable db)
| step_initJobs db :
    step hash_string db (after Job.initTable db).

(** No two accounts share an email. *)
Definition emails_unique (t : table) : Prop :=
  NoDup (map (λ r, col r "email") (t_rows t)).

(** What every run keeps: both tables stay as declared, accounts are only
    added, emails stay distinct and the counter of job ids never goes
    back. *)
Definition grows (db db' : DB) : Prop :=
  ∃ tu tj tu' tj',
    users_ok db tu ∧ jobs_ok db tj ∧ users_ok db' tu' ∧ jobs_ok db' tj' ∧
    t_rows tu `prefix_of` t_rows tu' ∧ (t_seq tj ≤ t_seq tj')%Z ∧
    (emails_unique tu → emails_unique tu').

Definition accepted {A : Type} (r : result A) : bool :=
  match r with
  | Ok _ => true
  | Throw _ => false
  end.

(** The name and email [createUser] can store in table [t]. *)
Definition user_valid (t : table) (name email : jsval) : bool :=
  name_ok name && email_ok email && negb (email_taken t (text_or SNull email)).

(** The table a fresh database gets from [initTable]. *)
Definition fresh_table (cols : list column) (checks : list rawcheck) : table :=
  {| t_columns := cols; t_checks := checks; t_rows := []; t_seq := 0 |}.

(** Every stored row satisfies the NOT NULL and CHECK constraints of its
    table, and the status of a job is stored as a text. *)
Definition rows_valid (tu tj : table) : Prop :=
  (∀ u, u ∈ t_rows tu → user_row_valid u = true) ∧
  (∀ j, j ∈ t_rows tj → job_row_valid j = true) ∧
  (∀ j, j ∈ t_rows tj → ∃ s, col j "status" = SText s).

(** Two passwords of 73 characters that differ in the last one only. *)
Definition long_password : string :=
  "xxxxxxxxxxxxxxxxxxxxxxxxxxxxxxxxxxxxxxxxxxxxxxxxxxxxxxxxxxxxxxxxxxxxxxxxa".

Definition other_password : string :=
  "xxxxxxxxxxxxxxxxxxxxxxxxxxxxxxxxxxxxxxxxxxxxxxxxxxxxxxxxxxxxxxxxxxxxxxxxb".

(** A job created for owner 7 on a connection without foreign keys, when
    no account exists. *)
Definition orphan_db : DB :=
  after (Job.createJob "2026-01-02 00:00:00" (JStr "Engineer") (JStr "Acme")
           (JStr "pending") 7)
        (after Job.initTable (after User.initTable (empty_db UndefThrow false))).

(** * Properties *)

(** ** The model on small inputs *)

Example truthy_empty_string : truthy (JStr EmptyString) = false.
Proof. reflexivity. Qed.

Example truthy_zero : truthy (JNum 0) = false.
Proof. reflexivity. Qed.

Example truthy_word : truthy (JStr "pending") = true.
Proof. reflexivity. Qed.

Example spread_falsy : spread_and (B := bindval) JNull [("role", BVal JNull)] = [].
Proof. reflexivity. Qed.

Example like_email : like "%@%.%" "a@b.com" = true.
Proof. reflexivity. Qed.

Example like_no_dot : like "%@%.%" "a@bcom" = false.
Proof. reflexivity. Qed.

Example like_no_at : like "%@%.%" "ab.com" = false.
Proof. reflexivity. Qed.

Example ms_thirty_days : Jwt.ms "30d" = Some 2592000000%Z.
Proof. reflexivity. Qed.

Example ms_no_unit : Jwt.ms "d" = None.
Proof. reflexivity. Qed.

Example updates_partial :
  Job.updates (<["status" := JStr EmptyString]> (<["role" := JStr "Lead"]> ∅))
  = [("role", BVal (JStr "Lead")); ("updated_at", BRaw "CURRENT_TIMESTAMP")].
Proof. reflexivity. Qed.

Example name_length_checks :
  map c_lengths (List.filter (λ c, String.eqb (c_name c) "name") User.columns)
  = [[("<=", 50%Z)]].
Proof. reflexivity. Qed.

Example length_counts_characters :
  sql_length (SText (String (ascii_of_nat 195) (String (ascii_of_nat 169) "t")))
  = Some 2%Z.
Proof. reflexivity. Qed.

Example number_in_text_column :
  text (JNum 7) = SText "7" ∧ text (JNum 3000000000) = SText "3000000000.0".
Proof. split; reflexivity. Qed.

Example large_number_text : real_text (10 ^ 15) = "1.0e+15".
Proof. reflexivity. Qed.

Example enum_check_status :
  enum_member ["pending"; "interview"; "decline"] (SText "declined") = false.
Proof. reflexivity. Qed.

(** ** The monad and the engine *)
Lemma bind_run {A B : Type} (m : M A) (f : A → M B) (db : DB) :
  (x ← m; f x) db =
  match m db with
  | (Ok a, db') => f a db'
  | (Throw e, db') => (Throw e, db')
  end.
Proof. reflexivity. Qed.

Lemma set_table_lookup tn t db : db_tables (set_table tn t db) !! tn = Some t.
Proof. unfold set_table; simpl. apply lookup_insert_eq. Qed.

Lemma set_table_lookup_ne tn tn' t db :
  tn ≠ tn' → db_tables (set_table tn t db) !! tn' = db_tables db !! tn'.
Proof. intros Hne. unfold set_table; simpl. by apply lookup_insert_ne. Qed.

Lemma set_table_same tn t db : db_tables db !! tn = Some t → set_table tn t db = db.
Proof.
  intros Ht. destruct db as [pol fk tabs]; unfold set_table; simpl in *.
  f_equal. by apply insert_id.
Qed.

Lemma set_table_twice tn t t' db : set_table tn t (set_table tn t' db) = set_table tn t db.
Proof. unfold set_table; simpl. f_equal. apply insert_insert_eq. Qed.

Lemma sql_eqb_int a n : sql_eqb a (SInt n) = true ↔ a = SInt n.
Proof.
  destruct a as [|m|s]; simpl; split; try done.
  - intros H. apply Z.eqb_eq in H. by subst.
  - intros [= ->]. apply Z.eqb_refl.
Qed.

Lemma sql_eqb_eq a b : sql_eqb a b = true → a = b.
Proof.
  destruct a, b; simpl; try done.
  - intros H. apply Z.eqb_eq in H. by subst.
  - intros H. apply String.eqb_eq in H. by subst.
Qed.

Lemma sql_eqb_refl a : a ≠ SNull → sql_eqb a a = true.
Proof.
  destruct a; simpl; try done; intros _.
  - apply Z.eqb_refl.
  - apply String.eqb_refl.
Qed.

Lemma matches_targets jobId userId r :
  matches (job_where jobId userId) r = true ↔ targets jobId userId r.
Proof.
  unfold matches, targets, job_where; simpl.
  rewrite !andb_true_iff, !sql_eqb_int. tauto.
Qed.

Lemma matches_not_targets jobId userId r :
  matches (job_where jobId userId) r = false ↔ ¬ targets jobId userId r.
Proof.
  rewrite <- matches_targets. by destruct (matches _ r).
Qed.

Lemma filter_none {A : Type} (p : A → bool) (l : list A) :
  (∀ x, x ∈ l → p x = false) → List.filter p l = [].
Proof.
  induction l as [|a l IH]; simpl; [done|]. intros H.
  rewrite (H a) by apply list_elem_of_here.
  apply IH. intros x Hx. apply H. by apply list_elem_of_further.
Qed.

Lemma filter_all {A : Type} (p : A → bool) (l : list A) :
  (∀ x, x ∈ l → p x = true) → List.filter p l = l.
Proof.
  induction l as [|a l IH]; simpl; [done|]. intros H.
  rewrite (H a) by apply list_elem_of_here.
  f_equal. apply IH. intros x Hx. apply H. by apply list_elem_of_further.
Qed.

(** With a key that has no duplicates, a filter that pins the key down
    selects one row at most, and exactly the row it holds for. *)
Lemma filter_keyed {A K : Type} (key : A → K) (p : A → bool) (l : list A) (r : A) :
  NoDup (map key l) → r ∈ l → p r = true →
  (∀ x, p x = true → key x = key r) →
  List.filter p l = [r].
Proof.
  intros Hnd Hr Hp Hkey. induction l as [|a l IH]; [by inversion Hr|].
  simpl in Hnd. apply NoDup_cons in Hnd as [Hna Hnd].
  apply elem_of_cons in Hr as [<-|Hr]; simpl.
  - rewrite Hp. f_equal. apply filter_none. intros x Hx.
    destruct (p x) eqn:Hpx; [|done]. exfalso. apply Hna.
    rewrite <- (Hkey x Hpx). apply list_elem_of_fmap. by exists x. 
  - destruct (p a) eqn:Hpa; [|by apply IH].
    exfalso. apply Hna. rewrite (Hkey a Hpa). apply list_elem_of_fmap. by exists r.
Qed.

Lemma filter_keyed_length {A K : Type} (key : A → K) (p : A → bool) (l : list A) (k : K) :
  NoDup (map key l) → (∀ x, p x = true → key x = k) →
  (List.length (List.filter p l) ≤ 1)%nat.
Proof.
  intros Hnd Hkey.
  destruct (List.filter p l) as [|r rest] eqn:Hf; [simpl; lia|].
  assert (Hin : r ∈ List.filter p l) by (rewrite Hf; apply list_elem_of_here).
  apply list_elem_of_In, filter_In in Hin as [Hin Hp].
  apply list_elem_of_In in Hin.
  rewrite (filter_keyed key p l r) in Hf; try done.
  - by inversion Hf.
  - intros x Hx. by rewrite (Hkey x Hx), (Hkey r Hp).
Qed.

Lemma with_rows_same t : with_rows t (t_rows t) = t.
Proof. by destruct t. Qed.

Lemma job_where_ok t jobId userId :
  t_columns t = Job.columns → where_error "jobs" t (job_where jobId userId) = None.
Proof.
  intros Hc. unfold where_error, unknown_column, has_column, find_column.
  rewrite Hc. reflexivity.
Qed.

Lemma deleteJob_run db t jobId userId :
  db_tables db !! "jobs" = Some t → t_columns t = Job.columns →
  Job.deleteJob jobId userId db =
  (Ok (Z.of_nat (List.length (List.filter (matches (job_where jobId userId)) (t_rows t)))),
   set_table "jobs"
     (with_rows t (List.filter (λ r, negb (matches (job_where jobId userId) r)) (t_rows t))) db).
Proof.
  intros Ht Hc. unfold Job.deleteJob. rewrite bind_run.
  unfold del, where_, knex; simpl. rewrite Ht.
  change [("id", SInt jobId); ("created_by", SInt userId)] with (job_where jobId userId).
  by rewrite (job_where_ok t jobId userId Hc).
Qed.

Lemma getSingleJob_run db t jobId userId :
  db_tables db !! "jobs" = Some t → t_columns t = Job.columns →
  Job.getSingleJob jobId userId db =
  (Ok (head (List.filter (matches (job_where jobId userId)) (t_rows t))), db).
Proof.
  intros Ht Hc. unfold Job.getSingleJob, first. rewrite bind_run.
  unfold run_select, where_, knex; simpl. rewrite Ht.
  change [("id", SInt jobId); ("created_by", SInt userId)] with (job_where jobId userId).
  by rewrite (job_where_ok t jobId userId Hc).
Qed.

Lemma job_rows_keyed jobId userId :
  ∀ x, matches (job_where jobId userId) x = true → col x "id" = SInt jobId.
Proof. intros x Hx. by apply matches_targets in Hx as [? _]. Qed.

Lemma job_filter_one t jobId userId r :
  NoDup (map (λ r, col r "id") (t_rows t)) → r ∈ t_rows t → targets jobId userId r →
  List.filter (matches (job_where jobId userId)) (t_rows t) = [r].
Proof.
  intros Hnd Hr Ht. apply (filter_keyed (λ r, col r "id")); try done.
  - by apply matches_targets.
  - intros x Hx. apply matches_targets in Hx as [-> _]. by destruct Ht as [-> _].
Qed.

Lemma job_filter_none t jobId userId :
  (∀ r, r ∈ t_rows t → ¬ targets jobId userId r) →
  List.filter (matches (job_where jobId userId)) (t_rows t) = [].
Proof.
  intros H. apply filter_none. intros x Hx. apply matches_not_targets. by apply H.
Qed.

Lemma job_filter_keep_all t jobId userId :
  (∀ r, r ∈ t_rows t → ¬ targets jobId userId r) →
  List.filter (λ r, negb (matches (job_where jobId userId) r)) (t_rows t) = t_rows t.
Proof.
  intros H. apply filter_all. intros x Hx.
  apply negb_true_iff, matches_not_targets. by apply H.
Qed.

Lemma job_filter_le t jobId userId :
  NoDup (map (λ r, col r "id") (t_rows t)) →
  (List.length (List.filter (matches (job_where jobId userId)) (t_rows t)) ≤ 1)%nat.
Proof.
  intros Hnd. apply (filter_keyed_length (λ r, col r "id") _ _ (SInt jobId)); [done|].
  apply job_rows_keyed.
Qed.

Lemma NoDup_map_filter {A K : Type} (key : A → K) (p : A → bool) (l : list A) :
  NoDup (map key l) → NoDup (map key (List.filter p l)).
Proof.
  induction l as [|a l IH]; simpl; [done|].
  intros Hnd. apply NoDup_cons in Hnd as [Hna Hnd].
  destruct (p a); simpl; [|by apply IH].
  apply NoDup_cons. split; [|by apply IH].
  intros Hin. apply Hna.
  apply list_elem_of_fmap in Hin as (x & -> & Hx).
  apply list_elem_of_In, filter_In in Hx as [Hx _].
  apply list_elem_of_fmap. exists x. split; [done|]. by apply list_elem_of_In.
Qed.

Lemma jobs_ok_delete db t jobId userId :
  jobs_ok db t →
  jobs_ok (Job.deleteJob jobId userId db).2
          (with_rows t (List.filter (λ r, negb (matches (job_where jobId userId) r)) (t_rows t))).
Proof.
  intros [Hl Hc Hk Hpk]. rewrite (deleteJob_run db t) by done. simpl.
  split; simpl; try done.
  - apply lookup_insert_eq.
  - by apply NoDup_map_filter.
Qed.

Lemma truthy_bind v : truthy v = true → bind_param v = Some (stored v).
Proof. by destruct v. Qed.

Lemma truthy_not_null v : truthy v = true → is_null (text v) = false.
Proof.
  destruct v as [| |b|n|s]; try done. intros _.
  unfold text, stored. cbn [bind_param default]. by destruct (int32 n).
Qed.

Lemma updates_eval now payload :
  eval_object now (Job.updates payload) = Ok (job_vals now payload).
Proof.
  unfold Job.updates, job_vals, spread_and.
  destruct (truthy (prop payload "role")) eqn:Hr,
           (truthy (prop payload "company")) eqn:Hc,
           (truthy (prop payload "status")) eqn:Hs; simpl;
    rewrite ?(truthy_bind _ Hr), ?(truthy_bind _ Hc), ?(truthy_bind _ Hs); reflexivity.
Qed.

Lemma job_vals_defined now payload : defined (job_vals now payload) = job_vals now payload.
Proof.
  unfold job_vals, spread_and, defined.
  by destruct (truthy (prop payload "role")), (truthy (prop payload "company")),
              (truthy (prop payload "status")).
Qed.

Lemma job_vals_known t now payload :
  t_columns t = Job.columns → unknown_column "jobs" t (job_vals now payload) = None.
Proof.
  intros Hc. unfold unknown_column, has_column, find_column, job_vals, spread_and.
  rewrite Hc.
  by destruct (truthy (prop payload "role")), (truthy (prop payload "company")),
              (truthy (prop payload "status")).
Qed.

Lemma job_vals_assignments t now payload :
  t_columns t = Job.columns → assignments t (job_vals now payload) = job_set now payload.
Proof.
  intros Hc. unfold job_vals, job_set, set_if, spread_and, text.
  destruct t as [cols chk rows seq]; simpl in Hc; subst cols.
  by destruct (truthy (prop payload "role")), (truthy (prop payload "company")),
              (truthy (prop payload "status")).
Qed.

Lemma job_set_role now payload :
  job_set now payload !! "role" =
  if truthy (prop payload "role") then Some (text (prop payload "role")) else None.
Proof.
  unfold job_set, set_if.
  by destruct (truthy (prop payload "role")), (truthy (prop payload "company")),
              (truthy (prop payload "status")).
Qed.

Lemma job_set_company now payload :
  job_set now payload !! "company" =
  if truthy (prop payload "company") then Some (text (prop payload "company")) else None.
Proof.
  unfold job_set, set_if.
  by destruct (truthy (prop payload "role")), (truthy (prop payload "company")),
              (truthy (prop payload "status")).
Qed.

Lemma job_set_status now payload :
  job_set now payload !! "status" =
  if truthy (prop payload "status") then Some (text (prop payload "status")) else None.
Proof.
  unfold job_set, set_if.
  by destruct (truthy (prop payload "role")), (truthy (prop payload "company")),
              (truthy (prop payload "status")).
Qed.

Lemma job_set_updated_at now payload :
  job_set now payload !! "updated_at" = Some (SText now).
Proof.
  unfold job_set, set_if.
  by destruct (truthy (prop payload "role")), (truthy (prop payload "company")),
              (truthy (prop payload "status")).
Qed.

Lemma job_set_other now payload k :
  k ≠ "role" → k ≠ "company" → k ≠ "status" → k ≠ "updated_at" →
  job_set now payload !! k = None.
Proof.
  intros H1 H2 H3 H4. unfold job_set, set_if.
  destruct (truthy (prop payload "role")), (truthy (prop payload "company")),
           (truthy (prop payload "status"));
    rewrite ?lookup_insert_ne by done; apply lookup_empty.
Qed.

Lemma col_union (asg r : gmap string sqlval) c :
  col (asg ∪ r) c = match asg !! c with Some v => v | None => col r c end.
Proof.
  unfold col. rewrite lookup_union. by destruct (asg !! c), (r !! c).
Qed.

Lemma touches_spec asg c : touches asg c = match asg !! c with Some _ => true | None => false end.
Proof.
  unfold touches. destruct (asg !! c) as [v|].
  - apply bool_decide_eq_true. by exists v.
  - apply bool_decide_eq_false. by intros [v Hv].
Qed.

Lemma job_row_errors t now payload r :
  t_columns t = Job.columns → t_checks t = [] →
  (fields_valid payload = true →
   row_errors "jobs" t (touches (job_set now payload)) (job_set now payload ∪ r) = None) ∧
  (fields_valid payload = false →
   ∃ c, row_errors "jobs" t (touches (job_set now payload)) (job_set now payload ∪ r)
        = Some (ECheck "jobs" c)).
Proof.
  intros Hc Hk. destruct t as [cols chk rows seq]; simpl in Hc, Hk; subst cols chk.
  unfold row_errors, fields_valid, field_ok.
  cbn [t_columns t_checks Job.columns first_error].
  cbn [c_name c_type c_notnull c_lengths primary increments notNullable checkLength
       string_ enum integer timestamp defaultTo references inTable onDelete new_column].
  rewrite !touches_spec, !col_union.
  rewrite !job_set_role, !job_set_company, !job_set_status, !job_set_updated_at.
  rewrite !(job_set_other now payload "id"), !(job_set_other now payload "created_by"),
          !(job_set_other now payload "created_at") by done.
  unfold check_notnull, check_column, is_increments.
  cbn [c_name c_type c_notnull c_lengths primary increments notNullable checkLength
       string_ enum integer timestamp defaultTo references inTable onDelete new_column
       app forallb orb andb].
  destruct (truthy (prop payload "role")) eqn:Hr,
           (truthy (prop payload "company")) eqn:Hco,
           (truthy (prop payload "status")) eqn:Hs;
    rewrite ?(truthy_not_null _ Hr), ?(truthy_not_null _ Hco), ?(truthy_not_null _ Hs);
    cbn [andb orb is_null enum_ok];
    repeat match goal with
           | |- context [length_ok ?a ?b] => generalize (length_ok a b); intros ?
           | |- context [enum_member ?a ?b] => generalize (enum_member a b); intros ?
           end;
    repeat match goal with b : bool |- _ => destruct b end;
    split; intros; try done; eauto.
Qed.

Lemma first_error_none {A : Type} (f : A → option error) (l : list A) :
  (∀ x, x ∈ l → f x = None) → first_error f l = None.
Proof.
  induction l as [|a l IH]; [done|]. intros H. cbn [first_error].
  rewrite (H a) by apply list_elem_of_here.
  apply IH. intros x Hx. apply H. by apply list_elem_of_further.
Qed.

Ltac schema_cbn :=
  cbn [t_columns t_checks Job.columns User.columns User.checks first_error
       c_name c_type c_notnull c_unique c_primary c_lengths c_default
       c_references c_intable
       primary increments notNullable checkLength unique string_ enum integer timestamp
       defaultTo references inTable onDelete new_column].

Lemma unique_errors_jobs t touched clash :
  t_columns t = Job.columns → touched "id" = false →
  unique_errors "jobs" t touched clash = None.
Proof.
  intros Hc Hid. unfold unique_errors, is_unique, is_increments. rewrite Hc.
  schema_cbn. rewrite Hid. cbn [andb orb].
  by rewrite !andb_false_r.
Qed.

Lemma fk_errors_jobs db t touched r :
  t_columns t = Job.columns → touched "created_by" = false →
  fk_errors db "jobs" t touched r = None.
Proof.
  intros Hc Hcb. unfold fk_errors, fk_ok. destruct (db_foreign_keys db); [|done].
  rewrite Hc. schema_cbn. rewrite Hcb. cbn [andb negb].
  by rewrite !andb_false_r.
Qed.

Lemma touches_job_set_id now payload : touches (job_set now payload) "id" = false.
Proof. by rewrite touches_spec, job_set_other. Qed.

Lemma touches_job_set_created_by now payload :
  touches (job_set now payload) "created_by" = false.
Proof. by rewrite touches_spec, job_set_other. Qed.

(** [Job.updateJob] on a database with the declared jobs table: either a
    CHECK rejects a changed row and nothing changes, or every addressed row
    takes the SET clause. *)
Lemma updateJob_run db t now jobId userId payload :
  db_tables db !! "jobs" = Some t → t_columns t = Job.columns →
  Job.updateJob now jobId userId payload db =
  let asg := job_set now payload in
  let hit := List.filter (matches (job_where jobId userId)) (t_rows t) in
  match first_error (row_errors "jobs" t (touches asg)) (map (λ r, asg ∪ r) hit) with
  | Some e => (Throw e, db)
  | None =>
    (Ok (head (map (λ r, asg ∪ r) hit)),
     set_table "jobs"
       (with_rows t (map (λ r, if matches (job_where jobId userId) r then asg ∪ r else r)
                         (t_rows t))) db)
  end.
Proof.
  intros Ht Hc. unfold Job.updateJob. rewrite bind_run.
  unfold update, where_, knex. cbn [q_table q_where app].
  change [("id", SInt jobId); ("created_by", SInt userId)] with (job_where jobId userId).
  rewrite Ht, (job_where_ok t jobId userId Hc), updates_eval, job_vals_defined,
          (job_vals_known t now payload Hc), (job_vals_assignments t now payload Hc).
  cbn zeta.
  change (λ c : string, bool_decide (is_Some (job_set now payload !! c)))
    with (touches (job_set now payload)).
  destruct (first_error (row_errors "jobs" t (touches (job_set now payload))) _) as [e|];
    [done|].
  rewrite (unique_errors_jobs t _ _ Hc (touches_job_set_id now payload)).
  rewrite first_error_none.
  - by destruct (map _ _).
  - intros x _. apply fk_errors_jobs; [done|]. apply touches_job_set_created_by.
Qed.

Lemma project_job ra rb :
  project "jobs" "users" [SelStar "jobs"; SelAs "users" "name" "creator_name"] ra rb
  = <["creator_name" := col rb "name"]> ra.
Proof.
  unfold project. cbn [foldl project1 qualified String.eqb Ascii.eqb Bool.eqb fst snd].
  rewrite (right_id ∅ (∪) ra). symmetry. apply insert_union_singleton_l.
Qed.

Lemma getAllJobs_run db tj userId :
  db_tables db !! "jobs" = Some tj → t_columns tj = Job.columns →
  Job.getAllJobs userId db =
  match db_tables db !! "users" with
  | None => (Throw (ENoTable "users"), db)
  | Some tu =>
    if has_column tu "created_by" then (Throw (EAmbiguousColumn "created_by"), db)
    else (Ok (joined userId (t_rows tj) (t_rows tu)), db)
  end.
Proof.
  intros Hj Hc. unfold Job.getAllJobs, run_select, where_, join, select, knex.
  cbn [q_table q_join q_where q_select app j_table j_left j_right].
  rewrite Hj. destruct (db_tables db !! "users") as [tu|]; [|done].
  assert (Hcb : has_column tj "created_by" = true).
  { unfold has_column, find_column. by rewrite Hc. }
  unfold join_where_error, join_matches.
  cbn [first_error forallb fst snd]. rewrite Hcb. cbn [andb orb].
  destruct (has_column tu "created_by"); [done|].
  f_equal. f_equal. unfold joined. apply flat_map_ext. intros ra.
  rewrite (map_ext _ _ (project_job ra)). f_equal.
  apply filter_ext. intros rb.
  cbn [qualified String.eqb Ascii.eqb Bool.eqb fst snd]. by rewrite andb_true_r.
Qed.

Lemma joined_inv userId jobs users o :
  o ∈ joined userId jobs users →
  ∃ ra rb, ra ∈ jobs ∧ rb ∈ users ∧ col ra "created_by" = SInt userId ∧
           col rb "id" = SInt userId ∧ o = <["creator_name" := col rb "name"]> ra.
Proof.
  unfold joined. intros Ho. apply list_elem_of_In, in_flat_map in Ho as (ra & Hra & Ho).
  apply in_map_iff in Ho as (rb & <- & Hrb).
  apply filter_In in Hrb as [Hrb Hm]. apply andb_true_iff in Hm as [H1 H2].
  apply sql_eqb_int in H2. rewrite H2 in H1.
  exists ra, rb. repeat split; try by apply list_elem_of_In.
  - done.
  - destruct (col rb "id"); simpl in H1; try done. apply Z.eqb_eq in H1. by subst.
Qed.

Lemma col_insert_ne (r : gmap string sqlval) k v c :
  k ≠ c → col (<[k := v]> r) c = col r c.
Proof. intros Hne. unfold col. by rewrite lookup_insert_ne. Qed.

Lemma col_insert_eq (r : gmap string sqlval) k v : col (<[k := v]> r) k = v.
Proof. unfold col. by rewrite lookup_insert_eq. Qed.

Lemma job_set_keeps_id now payload r : col (job_set now payload ∪ r) "id" = col r "id".
Proof. by rewrite col_union, job_set_other. Qed.

Lemma job_set_keeps_owner now payload r :
  col (job_set now payload ∪ r) "created_by" = col r "created_by".
Proof. by rewrite col_union, job_set_other. Qed.

Lemma update_ids now payload (p : gmap string sqlval → bool) rows :
  map (λ r, col r "id") (map (λ r, if p r then job_set now payload ∪ r else r) rows)
  = map (λ r, col r "id") rows.
Proof.
  rewrite map_map. apply map_ext. intros r.
  destruct (p r); [apply job_set_keeps_id|done].
Qed.

(** Whatever [Job.updateJob] answers, the jobs table keeps its schema and
    its keys, and the rows the statement does not address stay in place. *)
Lemma updateJob_frame db t now jobId userId payload :
  jobs_ok db t →
  ∃ res t',
    Job.updateJob now jobId userId payload db = (res, set_table "jobs" t' db) ∧
    jobs_ok (set_table "jobs" t' db) t' ∧
    List.length (t_rows t') = List.length (t_rows t) ∧
    ∀ (i : nat) r, t_rows t !! i = Some r → ¬ targets jobId userId r →
                   t_rows t' !! i = Some r.
Proof.
  intros [Hl Hc Hk Hpk]. rewrite (updateJob_run db t) by done. cbn zeta.
  destruct (first_error _ _) as [e|].
  - exists (Throw e), t. rewrite (set_table_same "jobs" t db Hl).
    repeat split; done.
  - eexists _, _. split; [reflexivity|]. repeat split.
    + apply set_table_lookup.
    + done.
    + done.
    + cbn [with_rows t_rows]. by rewrite update_ids.
    + cbn [with_rows t_rows]. apply length_map.
    + intros i r Hi Hnt. cbn [with_rows t_rows].
      change (map ?f ?l) with (f <$> l). rewrite list_lookup_fmap, Hi. simpl.
      apply matches_not_targets in Hnt. simpl in Hnt. by rewrite Hnt.
Qed.

Lemma head_filter_Some {A : Type} (p : A → bool) (l : list A) (x : A) :
  head (List.filter p l) = Some x → x ∈ l ∧ p x = true.
Proof.
  intros H. assert (Hin : x ∈ List.filter p l).
  { destruct (List.filter p l); simplify_eq/=. apply list_elem_of_here. }
  apply list_elem_of_In, filter_In in Hin as [Hin Hp].
  split; [by apply list_elem_of_In|done].
Qed.

Lemma keyed_inj {A K : Type} (key : A → K) (l : list A) (x y : A) :
  NoDup (map key l) → x ∈ l → y ∈ l → key x = key y → x = y.
Proof.
  induction l as [|a l IH]; [by inversion 2|].
  simpl. intros Hnd Hx Hy Hk. apply NoDup_cons in Hnd as [Hna Hnd].
  apply elem_of_cons in Hx as [->|Hx]; apply elem_of_cons in Hy as [->|Hy]; try done.
  - exfalso. apply Hna. rewrite Hk. apply list_elem_of_fmap. by exists y.
  - exfalso. apply Hna. rewrite <- Hk. apply list_elem_of_fmap. by exists x.
  - by apply IH.
Qed.

Lemma getSingleJob_owner db t r jobId userId :
  jobs_ok db t → r ∈ t_rows t → targets jobId userId r →
  Job.getSingleJob jobId userId db = (Ok (Some r), db).
Proof.
  intros [Hl Hc Hk Hpk] Hr Ht. rewrite (getSingleJob_run db t) by done.
  by rewrite (job_filter_one t jobId userId r).
Qed.

(** ** C1: the owner filter *)
(** C1.  A job record created by owner [A] is invisible to every other
    owner [B]: [getSingleJob] with [A]'s job id answers [B] with the same
    "not found" it gives for an id no row has, no call of [B] returns the
    record, the list of [B] never holds a row with that id, and after any
    update or delete issued by [B] the owner still reads the record
    unchanged. *)
Theorem owner_isolation db t r jobId A B :
  jobs_ok db t → r ∈ t_rows t → targets jobId A r → A ≠ B →
  Job.getSingleJob jobId A db = (Ok (Some r), db) ∧
  Job.getSingleJob jobId B db = (Ok None, db) ∧
  (∀ j, (∀ x, x ∈ t_rows t → col x "id" ≠ SInt j) →
        Job.getSingleJob j B db = (Ok None, db)) ∧
  (∀ j, Job.getSingleJob j B db ≠ (Ok (Some r), db)) ∧
  (∀ rows db', Job.getAllJobs B db = (Ok rows, db') →
               ∀ o, o ∈ rows → col o "id" ≠ SInt jobId) ∧
  (∀ now j payload,
     (Job.getSingleJob jobId A (Job.updateJob now j B payload db).2).1 = Ok (Some r)) ∧
  (∀ j, (Job.getSingleJob jobId A (Job.deleteJob j B db).2).1 = Ok (Some r)).
Proof.
  intros Hok Hr Ht HAB. pose proof Hok as [Hl Hc Hk Hpk].
  assert (HnB : ∀ j, ¬ targets j B r).
  { intros j [_ Hb]. destruct Ht as [_ Ha]. rewrite Ha in Hb. by simplify_eq. }
  repeat split.
  - by apply (getSingleJob_owner db t).
  - rewrite (getSingleJob_run db t) by done.
    rewrite job_filter_none; [done|]. intros x Hx [Hid Hb].
    assert (x = r) as ->; [|by apply (HnB jobId)].
    apply (keyed_inj (λ y, col y "id") (t_rows t)); try done.
    destruct Ht as [Hid' _]. by rewrite Hid, Hid'.
  - intros j Hj. rewrite (getSingleJob_run db t) by done.
    rewrite job_filter_none; [done|]. intros x Hx [Hid _]. by apply (Hj x).
  - intros j. rewrite (getSingleJob_run db t) by done. intros [= Hh].
    apply head_filter_Some in Hh as [_ Hm]. apply matches_targets in Hm. by apply (HnB j).
  - intros rows db' Hall o Ho Hid.
    rewrite (getAllJobs_run db t) in Hall by done.
    destruct (db_tables db !! "users") as [tu|]; [|done].
    destruct (has_column tu "created_by"); [done|]. simplify_eq.
    apply joined_inv in Ho as (ra & rb & Hra & _ & Hb & _ & ->).
    rewrite col_insert_ne in Hid by done.
    assert (ra = r) as ->; [|by apply (HnB jobId)].
    apply (keyed_inj (λ y, col y "id") (t_rows t)); try done.
    destruct Ht as [Hid' _]. by rewrite Hid, Hid'.
  - intros now j payload.
    destruct (updateJob_frame db t now j B payload Hok) as (res & t' & -> & Hok' & _ & Hfr).
    apply list_elem_of_lookup in Hr as [i Hi].
    rewrite (getSingleJob_owner _ t' r); try done.
    apply list_elem_of_lookup. exists i. by apply Hfr.
  - intros j. pose proof (jobs_ok_delete db t j B Hok) as Hd.
    rewrite (getSingleJob_owner _ _ r jobId A Hd); try done.
    cbn [with_rows t_rows]. apply list_elem_of_In, filter_In.
    split; [by apply list_elem_of_In|].
    apply negb_true_iff, matches_not_targets, HnB.
Qed.

(** ** C7: deleteJob *)
(** C7.  On a database holding the jobs table, [deleteJob] deletes the rows
    with this id and this owner and answers their number, which is 0 or 1;
    it is 1 exactly when the owner has such a record, and every later call
    with the same arguments answers 0 and changes nothing. *)
Theorem deleteJob_once db t jobId userId :
  jobs_ok db t →
  ∃ n t',
    Job.deleteJob jobId userId db = (Ok n, set_table "jobs" t' db) ∧
    jobs_ok (set_table "jobs" t' db) t' ∧
    (n = 0 ∨ n = 1)%Z ∧
    (n = 1%Z ↔ ∃ r, r ∈ t_rows t ∧ targets jobId userId r) ∧
    (∀ r, r ∈ t_rows t' ↔ r ∈ t_rows t ∧ ¬ targets jobId userId r) ∧
    ∀ k : nat,
      Job.deleteJob jobId userId
        (Nat.iter k (λ d, (Job.deleteJob jobId userId d).2) (set_table "jobs" t' db))
      = (Ok 0%Z, set_table "jobs" t' db).
Proof.
  intros Hok. pose proof Hok as [Hl Hc Hk Hpk].
  pose proof (jobs_ok_delete db t jobId userId Hok) as Hok'.
  rewrite (deleteJob_run db t) in * by done. cbn [snd] in Hok'.
  set (t' := with_rows t _) in *.
  assert (Hrows : ∀ r, r ∈ t_rows t' ↔ r ∈ t_rows t ∧ ¬ targets jobId userId r).
  { intros r. unfold t'. cbn [with_rows t_rows].
    rewrite list_elem_of_In, filter_In, <- list_elem_of_In, negb_true_iff.
    by rewrite matches_not_targets. }
  assert (Hagain : Job.deleteJob jobId userId (set_table "jobs" t' db)
                   = (Ok 0%Z, set_table "jobs" t' db)).
  { pose proof Hok' as [Hl' Hc' _ _].
    rewrite (deleteJob_run _ t') by done.
    rewrite job_filter_none, job_filter_keep_all, with_rows_same;
      try (intros r Hr; by apply Hrows in Hr as [_ ?]).
    by rewrite set_table_twice. }
  exists (Z.of_nat (List.length (List.filter (matches (job_where jobId userId)) (t_rows t)))), t'.
  pose proof (job_filter_le t jobId userId Hpk) as Hle.
  split; [done|]. split; [done|]. split; [lia|]. split; [split|split; [done|]].
  - intros Hn.
    destruct (List.filter (matches (job_where jobId userId)) (t_rows t)) as [|r l] eqn:Hf;
      [simpl in Hn; lia|].
    assert (Hin : In r (List.filter (matches (job_where jobId userId)) (t_rows t)))
      by (rewrite Hf; by left).
    apply filter_In in Hin as [Hin Hm].
    exists r. split; [by apply list_elem_of_In|by apply matches_targets].
  - intros (r & Hr & Ht). by rewrite (job_filter_one t jobId userId r).
  - intros k. induction k as [|k IH]; [done|].
    rewrite Nat.iter_succ. cbn beta. by rewrite IH.
Qed.

Lemma map_fixed {A : Type} (f : A → A) (l : list A) :
  (∀ x, x ∈ l → f x = x) → map f l = l.
Proof.
  induction l as [|a l IH]; [done|]. intros H. simpl.
  rewrite (H a) by apply list_elem_of_here. f_equal.
  apply IH. intros x Hx. apply H. by apply list_elem_of_further.
Qed.

Lemma updateJob_none db t now jobId userId payload :
  jobs_ok db t → (∀ r, r ∈ t_rows t → ¬ targets jobId userId r) →
  Job.updateJob now jobId userId payload db = (Ok None, db).
Proof.
  intros [Hl Hc Hk Hpk] Hno. rewrite (updateJob_run db t) by done. cbn zeta.
  rewrite job_filter_none by done. cbn [map first_error head].
  rewrite map_fixed, with_rows_same, set_table_same; try done.
  intros x Hx. apply Hno, matches_not_targets in Hx. by rewrite Hx.
Qed.

Lemma deleteJob_none db t jobId userId :
  jobs_ok db t → (∀ r, r ∈ t_rows t → ¬ targets jobId userId r) →
  Job.deleteJob jobId userId db = (Ok 0%Z, db).
Proof.
  intros [Hl Hc Hk Hpk] Hno. rewrite (deleteJob_run db t) by done.
  rewrite job_filter_none, job_filter_keep_all by done.
  by rewrite with_rows_same, set_table_same.
Qed.

(** ** C10: what a job write leaves alone *)
(** C10.  [updateJob] and [deleteJob] write the jobs table only, and in it
    only rows with this id and this owner: after an update every other row
    sits unchanged at its position, after a delete the table holds exactly
    the other rows, in their order.  When no row has this id and this
    owner, the database is unchanged, [updateJob] answers [undefined] and
    [deleteJob] answers 0. *)
Theorem job_writes_frame db t now jobId userId payload :
  jobs_ok db t →
  (∃ res t',
     Job.updateJob now jobId userId payload db = (res, set_table "jobs" t' db) ∧
     List.length (t_rows t') = List.length (t_rows t) ∧
     ∀ (i : nat) r, t_rows t !! i = Some r → ¬ targets jobId userId r →
                    t_rows t' !! i = Some r) ∧
  (∃ n t',
     Job.deleteJob jobId userId db = (Ok n, set_table "jobs" t' db) ∧
     t_rows t' = List.filter (λ r, bool_decide (¬ targets jobId userId r)) (t_rows t)) ∧
  ((∀ r, r ∈ t_rows t → ¬ targets jobId userId r) →
   Job.updateJob now jobId userId payload db = (Ok None, db) ∧
   Job.deleteJob jobId userId db = (Ok 0%Z, db)).
Proof.
  intros Hok. split; [|split].
  - destruct (updateJob_frame db t now jobId userId payload Hok)
      as (res & t' & Hrun & _ & Hlen & Hfr).
    by exists res, t'.
  - destruct Hok as [Hl Hc _ _]. rewrite (deleteJob_run db t) by done.
    eexists _, _. split; [reflexivity|]. cbn [with_rows t_rows].
    apply filter_ext. intros r.
    destruct (matches (job_where jobId userId) r) eqn:Hm; simpl.
    + symmetry. apply bool_decide_eq_false. intros Hn. by apply Hn, matches_targets.
    + symmetry. apply bool_decide_eq_true. by apply matches_not_targets.
  - intros Hno. split; [by apply (updateJob_none db t)|by apply (deleteJob_none db t)].
Qed.

(** ** C9: initTable *)
(** C9.  Each [initTable] creates its table only when the database has
    none of that name: on a database that has it the call succeeds and
    changes nothing, schema included, and a second call in a row always
    succeeds and leaves the state of the first.  After the call the table
    is the one the database had, or else the declared one, empty. *)
Theorem initTable_idempotent db :
  (∀ t, db_tables db !! "users" = Some t → User.initTable db = (Ok (), db)) ∧
  (∀ t, db_tables db !! "jobs" = Some t → Job.initTable db = (Ok (), db)) ∧
  (_ ← User.initTable; User.initTable) db = User.initTable db ∧
  (_ ← Job.initTable; Job.initTable) db = Job.initTable db ∧
  db_tables (User.initTable db).2 !! "users"
  = Some (default {| t_columns := User.columns; t_checks := User.checks;
                     t_rows := []; t_seq := 0 |} (db_tables db !! "users")) ∧
  db_tables (Job.initTable db).2 !! "jobs"
  = Some (default {| t_columns := Job.columns; t_checks := [];
                     t_rows := []; t_seq := 0 |} (db_tables db !! "jobs")).
Proof.
  assert (Hu : ∀ d t, db_tables d !! "users" = Some t → User.initTable d = (Ok (), d)).
  { intros d t Ht. unfold User.initTable. rewrite bind_run. unfold hasTable.
    rewrite Ht. rewrite bool_decide_eq_true_2 by (by exists t). done. }
  assert (Hj : ∀ d t, db_tables d !! "jobs" = Some t → Job.initTable d = (Ok (), d)).
  { intros d t Ht. unfold Job.initTable. rewrite bind_run. unfold hasTable.
    rewrite Ht. rewrite bool_decide_eq_true_2 by (by exists t). done. }
  assert (Hu' : User.initTable db = (Ok (), (User.initTable db).2)
                ∧ db_tables (User.initTable db).2 !! "users"
                  = Some (default {| t_columns := User.columns; t_checks := User.checks;
                                     t_rows := []; t_seq := 0 |}
                                  (db_tables db !! "users"))).
  { destruct (db_tables db !! "users") as [t|] eqn:Ht.
    - by rewrite (Hu db t Ht).
    - unfold User.initTable. rewrite bind_run. unfold hasTable, createTable.
      rewrite Ht. rewrite bool_decide_eq_false_2 by (by intros [? ?]).
      cbn [negb]. rewrite !Ht. cbn [snd]. split; [done|]. apply set_table_lookup. }
  assert (Hj' : Job.initTable db = (Ok (), (Job.initTable db).2)
                ∧ db_tables (Job.initTable db).2 !! "jobs"
                  = Some (default {| t_columns := Job.columns; t_checks := [];
                                     t_rows := []; t_seq := 0 |}
                                  (db_tables db !! "jobs"))).
  { destruct (db_tables db !! "jobs") as [t|] eqn:Ht.
    - by rewrite (Hj db t Ht).
    - unfold Job.initTable. rewrite bind_run. unfold hasTable, createTable.
      rewrite Ht. rewrite bool_decide_eq_false_2 by (by intros [? ?]).
      cbn [negb]. rewrite !Ht. cbn [snd]. split; [done|]. apply set_table_lookup. }
  destruct Hu' as (Hu1 & Hu2), Hj' as (Hj1 & Hj2).
  split; [exact (Hu db)|]. split; [exact (Hj db)|]. split; [|split; [|split; [exact Hu2|exact Hj2]]].
  - rewrite bind_run. rewrite Hu1 at 1. rewrite (Hu _ _ Hu2). by rewrite <- Hu1.
  - rewrite bind_run. rewrite Hj1 at 1. rewrite (Hj _ _ Hj2). by rewrite <- Hj1.
Qed.

Lemma fields_valid_falsy payload :
  truthy (prop payload "role") = false →
  truthy (prop payload "company") = false →
  truthy (prop payload "status") = false →
  fields_valid payload = true.
Proof. intros Hr Hc Hs. unfold fields_valid, field_ok. by rewrite Hr, Hc, Hs. Qed.

Lemma text_string s : text (JStr s) = SText s.
Proof. reflexivity. Qed.

(** ** C2: updateJob *)
(** C2.  For an existing record of the caller, [updateJob] sends a SET
    clause with exactly the fields among role, company and status whose
    payload value is truthy, and with [updated_at].  The storage rejects it
    only when one of those values fails the CHECK of its column, and then
    nothing changes.  On every successful update the record returned, which
    is the record stored, has each truthy field set to the payload value,
    each other field (a falsy one included) as before, and [updated_at] set
    to the current time; an update with no truthy field always succeeds. *)
Theorem updateJob_truthy_fields db t r now jobId userId payload :
  jobs_ok db t → r ∈ t_rows t → targets jobId userId r →
  (fields_valid payload = false →
   ∃ c, Job.updateJob now jobId userId payload db = (Throw (ECheck "jobs" c), db)) ∧
  (fields_valid payload = true →
   ∃ r' db',
     Job.updateJob now jobId userId payload db = (Ok (Some r'), db') ∧
     Job.getSingleJob jobId userId db' = (Ok (Some r'), db') ∧
     (∀ f, f ∈ ["role"; "company"; "status"] →
           r' !! f = if truthy (prop payload f)
                     then Some (text (prop payload f)) else r !! f) ∧
     (∀ f s, f ∈ ["role"; "company"; "status"] → prop payload f = JStr s →
             r' !! f = if String.eqb s EmptyString then r !! f else Some (SText s)) ∧
     r' !! "updated_at" = Some (SText now) ∧
     (∀ k, k ∉ ["role"; "company"; "status"; "updated_at"] → r' !! k = r !! k)) ∧
  (truthy (prop payload "role") = false →
   truthy (prop payload "company") = false →
   truthy (prop payload "status") = false →
   fields_valid payload = true).
Proof.
  intros Hok Hr Ht. pose proof Hok as [Hl Hc Hk Hpk].
  pose proof (updateJob_run db t now jobId userId payload Hl Hc) as Hrun.
  cbn zeta in Hrun. rewrite (job_filter_one t jobId userId r) in Hrun by done.
  cbn [map first_error head] in Hrun.
  destruct (job_row_errors t now payload r Hc Hk) as [Hgood Hbad].
  assert (Hfields : ∀ f, f ∈ ["role"; "company"; "status"] →
            (job_set now payload ∪ r) !! f =
            if truthy (prop payload f) then Some (text (prop payload f)) else r !! f).
  { intros f Hf. rewrite lookup_union.
    assert (Hset : job_set now payload !! f =
              if truthy (prop payload f) then Some (text (prop payload f)) else None).
    { set_unfold in Hf. destruct Hf as [->|[->|[->|[]]]];
        [apply job_set_role|apply job_set_company|apply job_set_status]. }
    rewrite Hset. destruct (truthy (prop payload f)); [by destruct (r !! f)|].
    by destruct (r !! f). }
  split; [|split].
  - intros Hv. destruct (Hbad Hv) as [c Hc']. exists c. by rewrite Hrun, Hc'.
  - intros Hv. rewrite (Hgood Hv) in Hrun. eexists _, _. split; [exact Hrun|].
    destruct (updateJob_frame db t now jobId userId payload Hok)
      as (res & t' & Hrun' & Hok' & _ & _).
    rewrite Hrun in Hrun'. apply (f_equal snd) in Hrun'. cbn [snd] in Hrun'.
    apply (f_equal (λ d, db_tables d !! "jobs")) in Hrun'. cbn beta in Hrun'.
    rewrite !set_table_lookup in Hrun'. injection Hrun' as <-.
    split; [|split; [|split; [|split]]].
    + apply (getSingleJob_owner _ _ _ _ _ Hok').
      * cbn [with_rows t_rows]. apply list_elem_of_In, in_map_iff. exists r.
        split; [|by apply list_elem_of_In].
        apply matches_targets in Ht. simpl in Ht. by rewrite Ht.
      * destruct Ht as [Hid Hown]. split.
        -- by rewrite job_set_keeps_id.
        -- by rewrite job_set_keeps_owner.
    + exact Hfields.
    + intros f s Hf Hs. rewrite (Hfields f Hf), Hs. cbn [truthy].
      by destruct (String.eqb s EmptyString).
    + rewrite lookup_union, job_set_updated_at. by destruct (r !! "updated_at").
    + intros k Hk'. rewrite lookup_union, job_set_other; [by destruct (r !! k)| | | |];
        intros ->; apply Hk'; set_solver.
  - apply fields_valid_falsy.
Qed.

(** ** INSERT *)

Lemma first_error_inv {A : Type} (f : A → option error) (l : list A) :
  first_error f l = None → ∀ x, x ∈ l → f x = None.
Proof.
  induction l as [|a l IH]; [by inversion 2|]. cbn [first_error].
  destruct (f a) eqn:Hfa; [done|]. intros Hl x Hx.
  apply elem_of_cons in Hx as [->|Hx]; [done|by apply IH].
Qed.

Lemma next_id_bound idc t r :
  r ∈ t_rows t → (row_int idc r < next_id idc t)%Z.
Proof.
  unfold next_id. generalize (t_seq t). induction (t_rows t) as [|a l IH]; [by inversion 1|].
  intros s Hr. cbn [foldr]. apply elem_of_cons in Hr as [->|Hr].
  - lia.
  - specialize (IH s Hr). lia.
Qed.

Lemma next_id_fresh idc t r :
  r ∈ t_rows t → sql_eqb (col r idc) (SInt (next_id idc t)) = false.
Proof.
  intros Hr. pose proof (next_id_bound idc t r Hr) as Hlt. unfold row_int in Hlt.
  destruct (col r idc) as [|n|s]; try done. simpl. apply Z.eqb_neq. lia.
Qed.

Lemma next_id_no_clash idc t :
  existsb (λ r, sql_eqb (col r idc) (SInt (next_id idc t))) (t_rows t) = false.
Proof.
  apply not_true_is_false. intros He. apply existsb_exists in He as (r & Hr & He).
  apply list_elem_of_In in Hr. by rewrite next_id_fresh in He.
Qed.

(** An insert either throws, or every check passed and the new row is
    appended. *)
Lemma table_insert_cases db now tn t o :
  (∃ e, table_insert db now tn t o = Throw e) ∨
  (∃ vals,
     eval_object now o = Ok vals ∧
     let r := build_row now t vals in
     (db_undefined db = UndefThrow →
      existsb (λ kv, match kv.2 with None => true | Some _ => false end) vals = false) ∧
     row_errors tn t all_columns r = None ∧
     unique_errors tn t all_columns
       (λ c, existsb (λ r', sql_eqb (col r' (c_name c)) (col r (c_name c))) (t_rows t)) = None ∧
     fk_errors db tn t all_columns r = None ∧
     table_insert db now tn t o = Ok (rowid_of t r, with_new_row t r)).
Proof.
  unfold table_insert. destruct (eval_object now o) as [vals|e]; [|left; by exists e].
  destruct (_ && existsb _ vals) eqn:Hu; [left; by eexists|].
  destruct (unknown_column tn t vals) as [e|]; [left; by exists e|].
  cbn zeta.
  destruct (row_errors _ _ _ _) as [e|] eqn:Hr; [left; by exists e|].
  destruct (unique_errors _ _ _ _) as [e|] eqn:Hq; [left; by exists e|].
  destruct (fk_errors _ _ _ _ _) as [e|] eqn:Hf; [left; by exists e|].
  right. exists vals. split; [done|]. cbn zeta. repeat split; try done.
  intros Hp. rewrite Hp in Hu. done.
Qed.

Lemma insert_run now o tn db :
  insert now o (knex tn) db =
  match db_tables db !! tn with
  | None => (Throw (ENoTable tn), db)
  | Some t =>
    match table_insert db now tn t o with
    | Throw e => (Throw e, db)
    | Ok (id, t') => (Ok [id], set_table tn t' db)
    end
  end.
Proof. reflexivity. Qed.

Lemma createJob_run db t now role company status createdBy :
  db_tables db !! "jobs" = Some t →
  Job.createJob now role company status createdBy db =
  match table_insert db now "jobs" t (job_object role company status createdBy) with
  | Throw e => (Throw e, db)
  | Ok (id, t') =>
    (Ok {| Job.id := JNum id; Job.role := role; Job.company := company;
           Job.status := status; Job.createdBy := createdBy |},
     set_table "jobs" t' db)
  end.
Proof.
  intros Ht. unfold Job.createJob. rewrite bind_run, insert_run, Ht.
  fold (job_object role company status createdBy).
  by destruct (table_insert _ _ _ _ _) as [[id t']|e].
Qed.

Lemma job_object_eval now role company status createdBy :
  eval_object now (job_object role company status createdBy)
  = Ok (job_bound role company status createdBy).
Proof. reflexivity. Qed.

Lemma new_job_row_cols now t role company status createdBy :
  t_columns t = Job.columns →
  let r := new_job_row now t role company status createdBy in
  r !! "id" = Some (SInt (next_id "id" t)) ∧
  r !! "role" = Some (text_or SNull role) ∧
  r !! "company" = Some (text_or SNull company) ∧
  r !! "status" = Some (text_or SNull status) ∧
  r !! "created_by" = Some (SInt createdBy) ∧
  r !! "created_at" = Some (SText now) ∧
  r !! "updated_at" = Some (SText now).
Proof.
  intros Hc. unfold new_job_row, build_row, text_or, job_bound. rewrite Hc.
  destruct t as [cols chk rows seq]; simpl in Hc; subst cols.
  cbn [bind_param].
  destruct (bind_param role), (bind_param company), (bind_param status),
           (int32 createdBy);
    cbn zeta; repeat split; reflexivity.
Qed.

Ltac bool_atoms :=
  repeat match goal with
         | |- context [is_null ?a] => generalize (is_null a); intros ?
         | |- context [length_ok ?a ?b] => generalize (length_ok a b); intros ?
         | |- context [enum_member ?a ?b] => generalize (enum_member a b); intros ?
         | |- context [like_ok ?a ?b] => generalize (like_ok a b); intros ?
         end;
  repeat match goal with b : bool |- _ => destruct b end.

Lemma job_insert_row_errors t r :
  t_columns t = Job.columns → t_checks t = [] →
  (job_row_valid r = true → row_errors "jobs" t all_columns r = None) ∧
  (job_row_valid r = false → ∃ e, row_errors "jobs" t all_columns r = Some e).
Proof.
  intros Hc Hk. unfold row_errors, job_row_valid, all_columns. rewrite Hc, Hk.
  schema_cbn. unfold check_notnull, check_column, is_increments.
  schema_cbn. cbn [app forallb orb andb enum_ok].
  bool_atoms; split; intros; try done; eauto.
Qed.

Lemma col_lookup (r : gmap string sqlval) c v : r !! c = Some v → col r c = v.
Proof. intros H. unfold col. by rewrite H. Qed.

Lemma job_unique_errors t r :
  t_columns t = Job.columns → col r "id" = SInt (next_id "id" t) →
  unique_errors "jobs" t all_columns
    (λ c, existsb (λ r', sql_eqb (col r' (c_name c)) (col r (c_name c))) (t_rows t)) = None.
Proof.
  intros Hc Hid. unfold unique_errors, is_unique, is_increments, all_columns. rewrite Hc.
  schema_cbn. rewrite Hid, next_id_no_clash. cbn [andb orb]. done.
Qed.

Lemma job_fk_errors db t r createdBy :
  t_columns t = Job.columns → col r "created_by" = SInt createdBy →
  fk_errors db "jobs" t all_columns r =
  if db_foreign_keys db && negb (owner_exists db createdBy)
  then Some (EForeignKey "jobs" "created_by") else None.
Proof.
  intros Hc Hcb. unfold fk_errors, fk_ok, all_columns, owner_exists.
  destruct (db_foreign_keys db); [|done]. rewrite Hc. schema_cbn. rewrite Hcb.
  cbn [andb negb is_null orb]. by destruct (negb _).
Qed.

Lemma job_rowid t r :
  t_columns t = Job.columns → col r "id" = SInt (next_id "id" t) →
  rowid_of t r = next_id "id" t.
Proof. intros Hc Hid. unfold rowid_of, row_int. rewrite Hc. cbn. by rewrite Hid. Qed.

Lemma new_job_row_valid now t role company status createdBy :
  t_columns t = Job.columns →
  job_row_valid (new_job_row now t role company status createdBy)
  = text_arg_ok 100 role && text_arg_ok 50 company
    && status_arg_ok status.
Proof.
  intros Hc.
  destruct (new_job_row_cols now t role company status createdBy Hc)
    as (Hid & Hr & Hco & Hs & Hcb & _ & _).
  unfold job_row_valid, text_arg_ok, status_arg_ok.
  rewrite (col_lookup _ _ _ Hid), (col_lookup _ _ _ Hr), (col_lookup _ _ _ Hco),
          (col_lookup _ _ _ Hs), (col_lookup _ _ _ Hcb).
  cbn [is_null negb andb]. by rewrite andb_true_r, !andb_assoc.
Qed.

Lemma text_arg_bound n v : text_arg_ok n v = true → is_Some (bind_param v).
Proof.
  unfold text_arg_ok, text_or. destruct (bind_param v); [by eexists|done].
Qed.

Lemma status_arg_bound v : status_arg_ok v = true → is_Some (bind_param v).
Proof.
  unfold status_arg_ok, text_or. destruct (bind_param v); [by eexists|done].
Qed.

(** [Job.createJob] on a database with the declared jobs table. *)
Lemma createJob_cases db t now role company status createdBy :
  db_tables db !! "jobs" = Some t → t_columns t = Job.columns → t_checks t = [] →
  let r := new_job_row now t role company status createdBy in
  (job_valid db role company status createdBy = true →
   Job.createJob now role company status createdBy db =
   (Ok {| Job.id := JNum (next_id "id" t); Job.role := role; Job.company := company;
          Job.status := status; Job.createdBy := createdBy |},
    set_table "jobs" (with_new_row t r) db)) ∧
  (job_valid db role company status createdBy = false →
   ∃ e, Job.createJob now role company status createdBy db = (Throw e, db)).
Proof.
  intros Ht Hc Hk r.
  destruct (new_job_row_cols now t role company status createdBy Hc)
    as (Hid & _ & _ & _ & Hcb & _ & _).
  apply col_lookup in Hid, Hcb. fold r in Hid, Hcb.
  rewrite (createJob_run db t) by done.
  unfold table_insert. rewrite job_object_eval.
  assert (Hknown : unknown_column "jobs" t (job_bound role company status createdBy) = None).
  { unfold unknown_column, has_column, find_column. by rewrite Hc. }
  rewrite Hknown. cbn zeta. fold all_columns.
  change (build_row _ _ _) with r. unfold with_new_row.
  rewrite (job_unique_errors t r Hc Hid), (job_fk_errors db t r createdBy Hc Hcb),
          (job_rowid t r Hc Hid).
  destruct (job_insert_row_errors t r Hc Hk) as [Hgood Hbad].
  pose proof (new_job_row_valid now t role company status createdBy Hc) as Hv.
  fold r in Hv. unfold job_valid.
  destruct (job_row_valid r) eqn:Hrv.
  - rewrite (Hgood eq_refl). symmetry in Hv.
    apply andb_true_iff in Hv as [Hv Hs]. apply andb_true_iff in Hv as [Hr Hco].
    rewrite Hr, Hco, Hs. cbn [andb].
    assert (Hundef : (match db_undefined db with UndefThrow => true | _ => false end
                      && existsb (λ kv : string * option param,
                                    match kv.2 with None => true | Some _ => false end)
                                 (job_bound role company status createdBy)) = false).
    { destruct (text_arg_bound _ _ Hr) as [sr Hsr], (text_arg_bound _ _ Hco) as [sc Hsc].
      destruct (status_arg_bound _ Hs) as [ss Hss].
      unfold job_bound. cbn [existsb snd]. rewrite Hsr, Hsc, Hss.
      cbn [bind_param orb]. apply andb_false_r. }
    rewrite Hundef. split.
    + intros Hfk. apply orb_true_iff in Hfk.
      assert (db_foreign_keys db && negb (owner_exists db createdBy) = false) as ->;
        [|done].
      destruct Hfk as [Hfk|Hfk]; [apply negb_true_iff in Hfk|]; rewrite Hfk;
        [done|apply andb_false_r].
    + intros Hfk. apply orb_false_iff in Hfk as [Hfk Hown].
      apply negb_false_iff in Hfk. rewrite Hfk, Hown. by eexists.
  - destruct (Hbad eq_refl) as [e He]. rewrite He. rewrite <- Hv. cbn [andb]. split; [done|].
    intros _. destruct (_ && existsb _ _); by eexists.
Qed.

(** ** The users table *)

Lemma new_user_row_cols now t name email hashed :
  t_columns t = User.columns →
  let r := new_user_row now t name email hashed in
  r !! "id" = Some (SInt (next_id "id" t)) ∧
  r !! "name" = Some (text_or SNull name) ∧
  r !! "email" = Some (text_or SNull email) ∧
  r !! "password" = Some (SText hashed).
Proof.
  intros Hc. unfold new_user_row, build_row, text_or, user_bound. rewrite Hc.
  destruct t as [cols chk rows seq]; simpl in Hc; subst cols.
  destruct (bind_param name), (bind_param email);
    cbn zeta; repeat split; reflexivity.
Qed.

Lemma user_row_errors t r :
  t_columns t = User.columns → t_checks t = User.checks →
  (user_row_valid r = true → row_errors "users" t all_columns r = None) ∧
  (user_row_valid r = false → ∃ e, row_errors "users" t all_columns r = Some e).
Proof.
  intros Hc Hk. unfold row_errors, user_row_valid, all_columns. rewrite Hc, Hk.
  schema_cbn. unfold check_notnull, check_column, check_raw, is_increments.
  schema_cbn. cbn [app forallb orb andb enum_ok k_column k_pattern].
  bool_atoms; split; intros; try done; eauto.
Qed.

Lemma user_unique_errors t r :
  t_columns t = User.columns → col r "id" = SInt (next_id "id" t) →
  unique_errors "users" t all_columns
    (λ c, existsb (λ r', sql_eqb (col r' (c_name c)) (col r (c_name c))) (t_rows t))
  = if email_taken t (col r "email") then Some (EUnique "users" "email") else None.
Proof.
  intros Hc Hid. unfold unique_errors, is_unique, is_increments, all_columns, email_taken.
  rewrite Hc. schema_cbn. rewrite Hid, next_id_no_clash. cbn [andb orb].
  by destruct (existsb _ _).
Qed.

Lemma user_fk_errors db t r :
  t_columns t = User.columns → fk_errors db "users" t all_columns r = None.
Proof.
  intros Hc. unfold fk_errors, fk_ok. destruct (db_foreign_keys db); [|done].
  by rewrite Hc.
Qed.

Lemma user_rowid t r :
  t_columns t = User.columns → col r "id" = SInt (next_id "id" t) →
  rowid_of t r = next_id "id" t.
Proof. intros Hc Hid. unfold rowid_of, row_int. rewrite Hc. cbn. by rewrite Hid. Qed.

Lemma new_user_row_valid now t name email hashed :
  t_columns t = User.columns →
  user_row_valid (new_user_row now t name email hashed)
  = name_ok name && email_ok email && length_ok (SText hashed) (">=", 6%Z).
Proof.
  intros Hc.
  destruct (new_user_row_cols now t name email hashed Hc) as (Hid & Hn & He & Hp).
  unfold user_row_valid, name_ok, email_ok.
  rewrite (col_lookup _ _ _ Hid), (col_lookup _ _ _ Hn), (col_lookup _ _ _ He),
          (col_lookup _ _ _ Hp).
  cbn [is_null negb andb].
  destruct (is_null (text_or SNull name)), (is_null (text_or SNull email)),
           (length_ok (text_or SNull name) ("<=", 50%Z)),
           (length_ok (SText hashed) (">=", 6%Z)),
           (like_ok "%@%.%" (text_or SNull email)); reflexivity.
Qed.

Section createUser.
Variable hash_string : string → string → result string.

(** [User.createUser] on a database with the declared users table. *)
Lemma createUser_run db t salt now name email password :
  db_tables db !! "users" = Some t → t_columns t = User.columns →
  t_checks t = User.checks →
  User.createUser hash_string salt now name email password db =
  match Bcrypt.hash hash_string password salt with
  | Throw e => (Throw e, db)
  | Ok h =>
    let r := new_user_row now t name email h in
    if refuses_undefined db (user_bound name email h)
    then (Throw EDefaultUnsupported, db)
    else
      match row_errors "users" t all_columns r with
      | Some e => (Throw e, db)
      | None =>
        if email_taken t (text_or SNull email)
        then (Throw (EUnique "users" "email"), db)
        else (Ok {| User.id := JObject {[ "id" := JNum (next_id "id" t) ]};
                    User.name := name; User.email := email;
                    User.hashedPassword := h |},
              set_table "users" (with_new_row t r) db)
      end
  end.
Proof.
  intros Ht Hc Hk. unfold User.createUser, lift. rewrite bind_run.
  destruct (Bcrypt.hash hash_string password salt) as [h|e]; [|done].
  unfold returning. rewrite !bind_run, insert_run, Ht.
  fold (user_object name email h). unfold table_insert.
  change (eval_object now (user_object name email h)) with (Ok (user_bound name email h)).
  cbv beta iota. fold (refuses_undefined db (user_bound name email h)).
  destruct (refuses_undefined db _); [done|].
  assert (Hknown : unknown_column "users" t (user_bound name email h) = None).
  { unfold unknown_column, has_column, find_column. by rewrite Hc. }
  rewrite Hknown. cbn zeta. fold all_columns.
  change (build_row _ _ _) with (new_user_row now t name email h).
  destruct (new_user_row_cols now t name email h Hc) as (Hid & _ & He & _).
  apply col_lookup in Hid, He.
  destruct (row_errors _ _ _ _); [done|].
  rewrite (user_unique_errors t _ Hc Hid), He.
  destruct (email_taken t _); [done|].
  rewrite (user_fk_errors db t _ Hc). unfold with_new_row.
  by rewrite (user_rowid t _ Hc Hid).
Qed.
End createUser.

Lemma NoDup_new_id idc t r :
  NoDup (map (λ x, col x idc) (t_rows t)) → col r idc = SInt (next_id idc t) →
  NoDup (map (λ x, col x idc) (t_rows t ++ [r])).
Proof.
  intros Hnd Hid. rewrite map_app. apply NoDup_app. split; [done|]. split.
  - intros v Hv Hin. cbn [map] in Hin. apply list_elem_of_singleton in Hin. subst v.
    apply list_elem_of_fmap in Hv as (x & Hx & Hin).
    pose proof (next_id_fresh idc t x Hin) as Hf.
    rewrite <- Hx, Hid in Hf. cbn in Hf. by rewrite Z.eqb_refl in Hf.
  - apply NoDup_singleton.
Qed.

Lemma jobs_ok_insert db t r :
  jobs_ok db t → col r "id" = SInt (next_id "id" t) →
  jobs_ok (set_table "jobs" (with_new_row t r) db) (with_new_row t r).
Proof.
  intros [Hl Hc Hk Hpk] Hid. split; try done.
  - apply set_table_lookup.
  - cbn [with_new_row t_rows]. by apply NoDup_new_id.
Qed.

Lemma status_arg_unset : status_arg_ok JUndefined = false.
Proof. reflexivity. Qed.

Lemma job_valid_unset db role company createdBy :
  job_valid db role company JUndefined createdBy = false.
Proof. unfold job_valid. rewrite status_arg_unset. cbn [andb]. by rewrite andb_false_r. Qed.

(** ** C3: createJob *)

(** C3, at the input the claim is about.  The jobs table declares pending
    as the default of the status column, but [createJob] always lists
    status among the values it inserts, so the default never applies: with
    status unset every call throws and stores nothing, whatever the other
    arguments are and however the connection treats [undefined] (the
    builder refuses the insert, or binds NULL and the NOT NULL constraint
    of the column refuses it).  Only a status that is passed is stored:
    with pending passed, an accepted call stores and answers pending. *)
Theorem createJob_unset_status_throws db t now role company createdBy :
  jobs_ok db t →
  (∃ e, Job.createJob now role company JUndefined createdBy db = (Throw e, db)) ∧
  (db_undefined db = UndefThrow →
   Job.createJob now role company JUndefined createdBy db
   = (Throw EDefaultUnsupported, db)) ∧
  (db_undefined db = UndefNull →
   text_arg_ok 100 role = true → text_arg_ok 50 company = true →
   Job.createJob now role company JUndefined createdBy db
   = (Throw (ENotNull "jobs" "status"), db)) ∧
  (∃ c, c ∈ t_columns t ∧ c_name c = "status" ∧
        c_default c = Some (DConst (SText "pending"))) ∧
  (job_valid db role company (JStr "pending") createdBy = true →
   ∃ c db' r,
     Job.createJob now role company (JStr "pending") createdBy db = (Ok c, db') ∧
     Job.status c = JStr "pending" ∧
     Job.getSingleJob (next_id "id" t) createdBy db' = (Ok (Some r), db') ∧
     col r "status" = SText "pending").
Proof.
  intros Hok. pose proof Hok as [Hl Hc Hk Hpk].
  split; [|split; [|split; [|split]]].
  - destruct (createJob_cases db t now role company JUndefined createdBy Hl Hc Hk)
      as [_ Hbad].
    apply Hbad, job_valid_unset.
  - intros Hpol. rewrite (createJob_run db t) by done.
    unfold table_insert. rewrite job_object_eval. rewrite Hpol.
    unfold job_bound. cbn [existsb snd bind_param]. by rewrite !orb_true_r.
  - intros Hpol Hr Hco. rewrite (createJob_run db t) by done.
    unfold table_insert. rewrite job_object_eval. rewrite Hpol. cbn [andb].
    assert (Hknown : unknown_column "jobs" t (job_bound role company JUndefined createdBy)
                     = None).
    { unfold unknown_column, has_column, find_column. by rewrite Hc. }
    rewrite Hknown. cbn zeta.
    change (build_row _ _ _) with (new_job_row now t role company JUndefined createdBy).
    destruct (new_job_row_cols now t role company JUndefined createdBy Hc)
      as (Hid & Hrole & Hcomp & Hs & _).
    apply col_lookup in Hid, Hrole, Hcomp, Hs.
    unfold text_arg_ok in Hr, Hco.
    apply andb_true_iff in Hr as [Hr _], Hco as [Hco _].
    apply negb_true_iff in Hr, Hco.
    assert (Herr : row_errors "jobs" t (λ _, true)
                     (new_job_row now t role company JUndefined createdBy)
                   = Some (ENotNull "jobs" "status")).
    { unfold row_errors. rewrite Hc. schema_cbn. unfold check_notnull, is_increments.
      schema_cbn. rewrite Hid, Hrole, Hcomp, Hs, Hr, Hco. done. }
    by rewrite Herr.
  - exists (enum "status" ["pending"; "interview"; "decline"]
              |> notNullable |> defaultTo (DConst (SText "pending"))).
    rewrite Hc. split; [|done].
    unfold Job.columns. do 3 apply list_elem_of_further. apply list_elem_of_here.
  - intros Hv.
    destruct (createJob_cases db t now role company (JStr "pending") createdBy Hl Hc Hk)
      as [Hgood _].
    destruct (new_job_row_cols now t role company (JStr "pending") createdBy Hc)
      as (Hid & _ & _ & Hs & Hcb & _).
    apply col_lookup in Hid, Hs, Hcb.
    eexists _, _, (new_job_row now t role company (JStr "pending") createdBy).
    split; [exact (Hgood Hv)|]. split; [done|]. split; [|done].
    apply (getSingleJob_owner _
             (with_new_row t (new_job_row now t role company (JStr "pending") createdBy))).
    + by apply jobs_ok_insert.
    + cbn [with_new_row t_rows]. apply elem_of_app. right. apply list_elem_of_here.
    + by split.
Qed.

Lemma users_ok_insert db t r :
  users_ok db t → col r "id" = SInt (next_id "id" t) →
  users_ok (set_table "users" (with_new_row t r) db) (with_new_row t r).
Proof.
  intros [Hl Hc Hk Hpk] Hid. split; try done.
  - apply set_table_lookup.
  - cbn [with_new_row t_rows]. by apply NoDup_new_id.
Qed.

Lemma name_ok_bound v : name_ok v = true → is_Some (bind_param v).
Proof. unfold name_ok, text_or. destruct (bind_param v); [by eexists|done]. Qed.

Lemma email_ok_bound v : email_ok v = true → is_Some (bind_param v).
Proof. unfold email_ok, text_or. destruct (bind_param v); [by eexists|done]. Qed.

Lemma email_ok_not_null v : email_ok v = true → text_or SNull v ≠ SNull.
Proof.
  unfold email_ok. intros H Hn. rewrite Hn in H. done.
Qed.

Lemma hash_char_ascii c :
  hash_char c = true → ((0 <? nat_of_ascii c) && (nat_of_ascii c <? 128))%nat = true.
Proof. destruct c as [[] [] [] [] [] [] [] []]; vm_compute; done. Qed.

(** A text of ASCII characters other than NUL has as many characters as
    bytes. *)
Lemma char_count_ascii continued s :
  forallb (λ c, (0 <? nat_of_ascii c) && (nat_of_ascii c <? 128))%nat
          (list_ascii_of_string s) = true →
  char_count continued s = Z.of_nat (String.length s).
Proof.
  revert continued. induction s as [|c s IH]; intros continued Hall; [done|].
  cbn [list_ascii_of_string forallb] in Hall.
  apply andb_true_iff in Hall as [Hc Hall]. apply andb_true_iff in Hc as [Hpos Hlt].
  apply Nat.ltb_lt in Hpos, Hlt.
  cbn [char_count String.length]. cbv zeta.
  pose proof (IH false Hall) as IH'. clear IH Hall.
  generalize dependent (nat_of_ascii c). intros n Hpos Hlt.
  destruct (Nat.eqb_spec n 0) as [Hz|_]; [lia|].
  destruct (Nat.leb_spec 128 n) as [Hge|_]; [lia|].
  rewrite andb_false_r. cbn [andb].
  destruct (Nat.leb_spec 192 n) as [Hge|_]; [lia|].
  rewrite IH'. lia.
Qed.

Lemma hash_chars_ascii h :
  forallb hash_char (list_ascii_of_string h) = true →
  forallb (λ c, (0 <? nat_of_ascii c) && (nat_of_ascii c <? 128))%nat
          (list_ascii_of_string h) = true.
Proof.
  intros Hall. apply forallb_forall. intros c Hc.
  apply hash_char_ascii. by apply (proj1 (forallb_forall _ _) Hall).
Qed.

Lemma hash_long_enough hash_string key salt h :
  bcrypt_contract hash_string → hash_string key salt = Ok h →
  length_ok (SText h) (">=", 6%Z) = true.
Proof.
  intros Hb Hh. destruct (hash_text hash_string Hb key salt h Hh) as [Hlen Hall].
  unfold length_ok, sql_length. rewrite (char_count_ascii false h (hash_chars_ascii h Hall)).
  cbn [fst snd]. unfold op_holds. cbn. apply Z.leb_le. lia.
Qed.

Lemma findByEmail_run db t s :
  db_tables db !! "users" = Some t → t_columns t = User.columns →
  User.findByEmail s db =
  (Ok (head (List.filter (λ r, sql_eqb (col r "email") (SText s)) (t_rows t))), db).
Proof.
  intros Ht Hc. unfold User.findByEmail, first. rewrite bind_run.
  unfold run_select, where_, knex. cbn [q_table q_join q_where app]. rewrite Ht.
  assert (Hw : where_error "users" t [("email", SText s)] = None).
  { unfold where_error, unknown_column, has_column, find_column. by rewrite Hc. }
  rewrite Hw. unfold mret, M_ret. do 3 f_equal. apply filter_ext. intros r.
  unfold matches. cbn [forallb fst snd]. apply andb_true_r.
Qed.

(** ** C6: one account per email *)

(** C6.  Once [createUser] has succeeded for an email, every later
    [createUser] with the same email fails and leaves the database, hence
    the first account's row, as it was; when the later call is otherwise
    acceptable (a valid name, a salt bcrypt accepts) the failure is the
    violation of the UNIQUE constraint on users.email.  [findByEmail] keeps
    answering with the first account's row. *)
Theorem email_conflict hash_string db t salt1 now1 name1 email pw1 c1 db1 :
  bcrypt_contract hash_string → users_ok db t →
  User.createUser hash_string salt1 now1 name1 email pw1 db = (Ok c1, db1) →
  ∀ salt2 now2 name2 pw2,
    (∃ e, User.createUser hash_string salt2 now2 name2 email pw2 db1 = (Throw e, db1)) ∧
    (∀ h2, name_ok name2 = true → hash_string pw2 salt2 = Ok h2 →
       User.createUser hash_string salt2 now2 name2 email pw2 db1
       = (Throw (EUnique "users" "email"), db1)) ∧
    (∀ s, email = JStr s →
       ∃ row, User.findByEmail s db1 = (Ok (Some row), db1) ∧
              col row "name" = text_or SNull name1 ∧
              col row "email" = SText s ∧
              col row "password" = SText (User.hashedPassword c1) ∧
              User.findByEmail s
                (User.createUser hash_string salt2 now2 name2 email pw2 db1).2
              = (Ok (Some row), db1)).
Proof.
  intros Hb Hok Hfirst salt2 now2 name2 pw2. pose proof Hok as [Hl Hc Hk Hpk].
  rewrite (createUser_run hash_string db t) in Hfirst by done.
  destruct (Bcrypt.hash hash_string pw1 salt1) as [h1|] eqn:Hh1; [|done].
  cbn zeta in Hfirst.
  destruct (refuses_undefined db _); [done|].
  set (r1 := new_user_row now1 t name1 email h1) in *.
  destruct (row_errors "users" t all_columns r1) eqn:Hre; [done|].
  destruct (email_taken t (text_or SNull email)) eqn:Hfree; [done|].
  injection Hfirst as <- <-.
  destruct (new_user_row_cols now1 t name1 email h1 Hc) as (Hid1 & Hn1 & He1 & Hp1).
  apply col_lookup in Hid1, Hn1, He1, Hp1. fold r1 in Hid1, Hn1, He1, Hp1.
  assert (Hvalid1 : user_row_valid r1 = true).
  { destruct (user_row_valid r1) eqn:Hv; [done|].
    destruct (user_row_errors t r1 Hc Hk) as [_ Hbad].
    destruct (Hbad Hv) as [e He]. by rewrite He in Hre. }
  unfold r1 in Hvalid1. rewrite new_user_row_valid in Hvalid1 by done.
  apply andb_true_iff in Hvalid1 as [Hvalid1 _].
  apply andb_true_iff in Hvalid1 as [_ Hemail].
  set (t1 := with_new_row t r1).
  pose proof (users_ok_insert db t r1 Hok Hid1) as Hok1. fold t1 in Hok1.
  pose proof Hok1 as [Hl1 Hc1 Hk1 _].
  assert (Htaken : email_taken t1 (text_or SNull email) = true).
  { unfold email_taken, t1. cbn [with_new_row t_rows]. rewrite existsb_app.
    cbn [existsb]. rewrite He1, sql_eqb_refl by (by apply email_ok_not_null).
    by rewrite orb_true_r. }
  pose proof (createUser_run hash_string _ t1 salt2 now2 name2 email pw2 Hl1 Hc1 Hk1)
    as Hrun2.
  rewrite Htaken in Hrun2.
  assert (Hfail : ∃ e, User.createUser hash_string salt2 now2 name2 email pw2
                         (set_table "users" t1 db) = (Throw e, set_table "users" t1 db)).
  { rewrite Hrun2. destruct (Bcrypt.hash hash_string pw2 salt2); [|by eexists].
    cbn zeta.
    destruct (refuses_undefined _ _); [by eexists|].
    destruct (row_errors "users" t1 _ _); by eexists. }
  split; [exact Hfail|]. split.
  - intros h0 Hname Hh0.
    destruct (hash_accepts hash_string Hb pw2 (substring 0 72 pw2) salt2 h0 Hh0)
      as [h2 Hh2].
    unfold Bcrypt.hash in Hrun2. rewrite Hrun2, Hh2. cbn zeta.
    assert (Hrefuse : refuses_undefined (set_table "users" t1 db)
                        (user_bound name2 email h2) = false).
    { unfold refuses_undefined, user_bound. cbn [existsb snd].
      destruct (name_ok_bound _ Hname) as [sn ->], (email_ok_bound _ Hemail) as [se ->].
      cbn [orb]. apply andb_false_r. }
    rewrite Hrefuse.
    destruct (user_row_errors t1 (new_user_row now2 t1
                                    name2 email h2) Hc1 Hk1) as [Hgood _].
    rewrite Hgood; [done|]. rewrite new_user_row_valid by done.
    rewrite Hname, Hemail. cbn [andb].
    by apply (hash_long_enough hash_string (substring 0 72 pw2) salt2).
  - intros s ->. exists r1.
    assert (Hfind : User.findByEmail s (set_table "users" t1 db)
                    = (Ok (Some r1), set_table "users" t1 db)).
    { rewrite (findByEmail_run _ t1) by done. unfold t1. cbn [with_new_row t_rows].
      rewrite List.filter_app. cbn [List.filter]. rewrite He1.
      change (text_or SNull (JStr s)) with (SText s) in *.
      rewrite sql_eqb_refl by done.
      rewrite filter_none; [done|]. intros x Hx.
      apply not_true_is_false. intros Hm.
      assert (email_taken t (SText s) = true); [|congruence].
      apply existsb_exists. exists x. split; [by apply list_elem_of_In|done]. }
    split; [done|]. split; [done|]. split; [done|]. split; [done|].
    destruct Hfail as [e ->]. exact Hfind.
Qed.

(** ** The join of getAllJobs *)

Lemma sql_eqb_int_l n a : sql_eqb (SInt n) a = true ↔ a = SInt n.
Proof.
  destruct a as [|m|s]; simpl; split; try done.
  - intros H. apply Z.eqb_eq in H. by subst.
  - intros [= ->]. apply Z.eqb_refl.
Qed.

Lemma owned_decide userId (j : gmap string sqlval) :
  bool_decide (col j "created_by" = SInt userId)
  = sql_eqb (col j "created_by") (SInt userId).
Proof.
  destruct (sql_eqb (col j "created_by") (SInt userId)) eqn:He.
  - apply bool_decide_eq_true. by apply sql_eqb_int.
  - apply bool_decide_eq_false. intros H. apply sql_eqb_int in H. congruence.
Qed.

Lemma joined_owner userId jobs users u :
  NoDup (map (λ r, col r "id") users) → u ∈ users → col u "id" = SInt userId →
  joined userId jobs users
  = map (λ j, <["creator_name" := col u "name"]> j)
        (List.filter (λ j, bool_decide (col j "created_by" = SInt userId)) jobs).
Proof.
  intros Hnd Hu Hid. unfold joined.
  induction jobs as [|ra jobs IH]; [done|].
  cbn [flat_map List.filter]. rewrite IH, owned_decide.
  destruct (sql_eqb (col ra "created_by") (SInt userId)) eqn:Hown.
  - apply sql_eqb_int in Hown.
    rewrite (filter_keyed (λ r, col r "id") _ users u); try done.
    + rewrite Hown, Hid. cbn. by rewrite Z.eqb_refl.
    + intros x Hx. apply andb_true_iff in Hx as [Hx _].
      rewrite Hown in Hx. apply sql_eqb_int_l in Hx. by rewrite Hx, Hid.
  - rewrite filter_none; [done|]. intros x _. apply andb_false_r.
Qed.

Lemma joined_no_owner userId jobs users :
  (∀ u, u ∈ users → col u "id" ≠ SInt userId) → joined userId jobs users = [].
Proof.
  intros Hno. unfold joined. induction jobs as [|ra jobs IH]; [done|].
  cbn [flat_map]. rewrite IH, filter_none; [done|].
  intros x Hx. apply not_true_is_false. intros Hm.
  apply andb_true_iff in Hm as [H1 H2]. apply sql_eqb_int in H2.
  rewrite H2 in H1. apply sql_eqb_int_l in H1. by apply (Hno x).
Qed.

(** ** C8: listing the jobs of an owner *)

(** C8.  On a database where every job row belongs to an account,
    [getAllJobs] answers with exactly the job rows whose [created_by] is
    the caller, in storage order, each with the name of that account added
    as [creator_name]. *)
Theorem getAllJobs_owned db tj tu userId :
  jobs_ok db tj → users_ok db tu →
  (∀ j, j ∈ t_rows tj → ∃ u, u ∈ t_rows tu ∧ col u "id" = col j "created_by") →
  ∃ display,
    Job.getAllJobs userId db =
    (Ok (map (λ j, <["creator_name" := display]> j)
             (List.filter (λ j, bool_decide (col j "created_by" = SInt userId))
                          (t_rows tj))), db) ∧
    (∀ u, u ∈ t_rows tu → col u "id" = SInt userId → display = col u "name") ∧
    (∀ o, o ∈ map (λ j, <["creator_name" := display]> j)
                  (List.filter (λ j, bool_decide (col j "created_by" = SInt userId))
                               (t_rows tj)) →
          col o "created_by" = SInt userId ∧ col o "creator_name" = display).
Proof.
  intros [Hlj Hcj _ _] [Hlu Hcu _ Hpku] Href.
  rewrite (getAllJobs_run db tj) by done. rewrite Hlu.
  assert (Hnocol : has_column tu "created_by" = false).
  { unfold has_column, find_column. by rewrite Hcu. }
  rewrite Hnocol.
  assert (Hrows : ∀ display o,
            o ∈ map (λ j, <["creator_name" := display]> j)
                    (List.filter (λ j, bool_decide (col j "created_by" = SInt userId))
                                 (t_rows tj)) →
            col o "created_by" = SInt userId ∧ col o "creator_name" = display).
  { intros display o Ho. apply list_elem_of_In, in_map_iff in Ho as (j & <- & Hj).
    apply filter_In in Hj as [_ Hj]. apply bool_decide_eq_true in Hj.
    split; [by rewrite col_insert_ne|apply col_insert_eq]. }
  destruct (List.filter (λ u, sql_eqb (col u "id") (SInt userId)) (t_rows tu))
    as [|u rest] eqn:Hf.
  - assert (Hno : ∀ u, u ∈ t_rows tu → col u "id" ≠ SInt userId).
    { intros u Hu Hid.
      assert (Hin : In u (List.filter (λ u, sql_eqb (col u "id") (SInt userId)) (t_rows tu))).
      { apply filter_In. split; [by apply list_elem_of_In|by apply sql_eqb_int]. }
      by rewrite Hf in Hin. }
    exists SNull. rewrite joined_no_owner by done.
    split; [|split; [|apply Hrows]].
    + rewrite filter_none; [done|].
      intros j Hj. apply bool_decide_eq_false. intros Hown.
      destruct (Href j Hj) as (u & Hu & Hid). rewrite Hown in Hid. by apply (Hno u).
    + intros u Hu Hid. by destruct (Hno u Hu).
  - assert (Hin : In u (List.filter (λ u, sql_eqb (col u "id") (SInt userId)) (t_rows tu)))
      by (rewrite Hf; by left).
    apply filter_In in Hin as [Hu Hid]. apply list_elem_of_In in Hu.
    apply sql_eqb_int in Hid.
    exists (col u "name"). rewrite (joined_owner userId _ _ u) by done.
    split; [done|]. split; [|apply Hrows].
    intros u' Hu' Hid'. f_equal. symmetry.
    apply (keyed_inj (λ r, col r "id") (t_rows tu)); try done. by rewrite Hid, Hid'.
Qed.

(** ** Tokens *)

Lemma prop_json o k : prop (Jwt.json o) k = prop o k.
Proof.
  unfold prop, Jwt.json. destruct (o !! k) as [v|] eqn:Hk.
  - destruct (decide (v = JUndefined)) as [->|Hv].
    + rewrite (proj2 (map_lookup_filter_None _ o k)); [done|].
      right. intros x Hx Hp. by simplify_eq.
    + by rewrite (map_lookup_filter_Some_2 _ o k v).
  - rewrite (proj2 (map_lookup_filter_None _ o k)); [done|]. by left.
Qed.

Lemma json_lookup_none o k : o !! k = None → Jwt.json o !! k = None.
Proof. intros H. apply map_lookup_filter_None. by left. Qed.

Lemma prop_insert_eq (o : gmap string jsval) k v : prop (<[k := v]> o) k = v.
Proof. unfold prop. by rewrite lookup_insert_eq. Qed.

Lemma prop_insert_ne (o : gmap string jsval) k k' v :
  k ≠ k' → prop (<[k := v]> o) k' = prop o k'.
Proof. intros H. unfold prop. by rewrite lookup_insert_ne. Qed.

Lemma thirty_days_span now : Jwt.timespan "30d" now = Some (now + thirty_days)%Z.
Proof. reflexivity. Qed.

(** ** C4: issuing a token *)

(** C4.  With the secret set in the environment, [createJWT] answers with a
    token whose payload holds the account's id under [userId] (the
    specification's accountId) and its name under [name], the second of issue under [iat] and the second thirty days
    later under [exp], and nothing else; the token is signed with the
    environment's secret, so verification with that secret succeeds until
    thirty days have passed, fails from then on, and fails at any time with
    another key. *)
Theorem createJWT_thirty_days env now user secret :
  env !! "JWT_SECRET" = Some secret → secret ≠ EmptyString →
  ∃ tok,
    User.createJWT env now user = Ok tok ∧
    prop (Jwt.payload tok) "userId" = prop user "id" ∧
    prop (Jwt.payload tok) "name" = prop user "name" ∧
    prop (Jwt.payload tok) "iat" = JNum now ∧
    prop (Jwt.payload tok) "exp" = JNum (now + 30 * 24 * 60 * 60) ∧
    (∀ k, k ∉ ["userId"; "name"; "iat"; "exp"] → Jwt.payload tok !! k = None) ∧
    Jwt.sig tok = Jwt.HMAC secret "HS256" (Jwt.payload tok) ∧
    (∀ t, Jwt.verify tok secret t =
          if (t <? now + 30 * 24 * 60 * 60)%Z then Ok (Jwt.payload tok)
          else Throw (EJwt "jwt expired")) ∧
    (∀ key t, key ≠ secret → Jwt.verify tok key t = Throw (EJwt "invalid signature")).
Proof.
  intros Henv Hne. unfold User.createJWT, Jwt.sign, env_get. rewrite Henv.
  assert (Ht : truthy (JStr secret) = true).
  { cbn [truthy]. apply negb_true_iff, String.eqb_neq. done. }
  rewrite Ht, thirty_days_span.
  change (30 * 24 * 60 * 60)%Z with thirty_days.
  set (claims := <["exp" := JNum (now + thirty_days)]> _).
  set (body := Jwt.json claims).
  exists {| Jwt.header_alg := "HS256"; Jwt.payload := body;
            Jwt.sig := Jwt.HMAC secret "HS256" body |}.
  split; [reflexivity|].
  cbn [Jwt.payload Jwt.sig Jwt.header_alg].
  assert (Hexp : prop body "exp" = JNum (now + thirty_days)).
  { unfold body. rewrite prop_json. unfold claims. apply prop_insert_eq. }
  split; [|split; [|split; [|split; [|split; [|split; [|split]]]]]].
  - unfold body. rewrite prop_json. unfold claims. do 2 rewrite prop_insert_ne by done.
    apply prop_insert_eq.
  - unfold body. rewrite prop_json. unfold claims. do 3 rewrite prop_insert_ne by done.
    apply prop_insert_eq.
  - unfold body. rewrite prop_json. unfold claims. rewrite prop_insert_ne by done.
    apply prop_insert_eq.
  - exact Hexp.
  - intros k Hk. unfold body. apply json_lookup_none. unfold claims.
    do 4 (rewrite lookup_insert_ne;
          [|intros <-; apply Hk;
            repeat first [apply list_elem_of_here | apply list_elem_of_further]]).
    apply lookup_empty.
  - reflexivity.
  - intros t. unfold Jwt.verify. cbn [Jwt.payload Jwt.sig Jwt.header_alg].
    rewrite bool_decide_eq_true_2 by reflexivity. rewrite Hexp.
    destruct (Z.ltb_spec t (now + thirty_days)), (Z.leb_spec (now + thirty_days) t);
      try reflexivity; lia.
  - intros key t Hkey. unfold Jwt.verify. cbn [Jwt.payload Jwt.sig Jwt.header_alg].
    rewrite bool_decide_eq_false_2; [reflexivity|]. intros Heq. apply Hkey.
    apply (f_equal (λ s, match s with Jwt.HMAC k _ _ => k end)) in Heq.
    cbv beta iota in Heq. by symmetry.
Qed.

(** ** Strings *)

Lemma substring_length n s :
  String.length (substring 0 n s) = Nat.min n (String.length s).
Proof.
  revert s. induction n as [|n IH]; intros [|c s]; simpl; try done.
  by rewrite IH.
Qed.

Lemma append_length a b :
  String.length (a +:+ b) = (String.length a + String.length b)%nat.
Proof. induction a as [|c a IH]; simpl; [done|]. by rewrite IH. Qed.

Lemma substring_append a b :
  substring 0 (String.length a) (a +:+ b) = a.
Proof. induction a as [|c a IH]; simpl; [by destruct b|]. by rewrite IH. Qed.

Lemma substring_whole s : substring 0 (String.length s) s = s.
Proof. induction s as [|c s IH]; simpl; [done|]. by rewrite IH. Qed.

(** ** Passwords *)

Lemma js_length_ascii s :
  forallb (λ c, (0 <? nat_of_ascii c) && (nat_of_ascii c <? 128))%nat
          (list_ascii_of_string s) = true →
  Bcrypt.js_length s = String.length s.
Proof.
  induction s as [|c s IH]; intros Hall; [done|].
  cbn [list_ascii_of_string forallb] in Hall.
  apply andb_true_iff in Hall as [Hc Hall]. apply andb_true_iff in Hc as [_ Hlt].
  apply Nat.ltb_lt in Hlt. cbn [Bcrypt.js_length String.length]. cbv zeta.
  rewrite (IH Hall). clear IH Hall. generalize dependent (nat_of_ascii c). intros n Hlt.
  destruct (Nat.leb_spec 128 n) as [Hge|_]; [lia|]. cbn [andb].
  destruct (Nat.leb_spec 240 n) as [Hge|_]; [lia|]. done.
Qed.

Lemma js_substr_ascii n s :
  forallb (λ c, (0 <? nat_of_ascii c) && (nat_of_ascii c <? 128))%nat
          (list_ascii_of_string s) = true →
  Bcrypt.js_substr n s = substring 0 n s.
Proof.
  revert n. induction s as [|c s IH]; intros n Hall; [by destruct n|].
  cbn [list_ascii_of_string forallb] in Hall.
  apply andb_true_iff in Hall as [Hc Hall]. apply andb_true_iff in Hc as [_ Hlt].
  apply Nat.ltb_lt in Hlt. cbn [Bcrypt.js_substr]. cbv zeta.
  pose proof (λ n, IH n Hall) as IH'. clear IH Hall.
  generalize dependent (nat_of_ascii c). intros b Hlt.
  destruct (Nat.leb_spec 128 b) as [Hge|_]; [lia|]. cbn [andb].
  destruct (Nat.leb_spec 240 b) as [Hge|_]; [lia|].
  destruct n as [|n]; [done|]. cbn [Nat.leb Nat.sub substring].
  by rewrite Nat.sub_0_r, IH'.
Qed.

Lemma compare_run hash_string s h :
  User.comparePassword hash_string s h =
  if (Bcrypt.js_length h =? 60)%nat then
    match Bcrypt.hash hash_string s (Bcrypt.js_substr 29 h) with
    | Ok comp => Ok (String.eqb comp h)
    | Throw e => Throw e
    end
  else Ok false.
Proof. reflexivity. Qed.

Lemma createUser_hashed hash_string salt now name email password db c db' :
  User.createUser hash_string salt now name email password db = (Ok c, db') →
  Bcrypt.hash hash_string password salt = Ok (User.hashedPassword c).
Proof.
  unfold User.createUser, lift. rewrite bind_run.
  destruct (Bcrypt.hash hash_string password salt) as [h|e]; [|done].
  rewrite bind_run. destruct (returning _ _ db) as [[ids|e] db'']; [|done].
  unfold mret, M_ret. intros Heq. apply (f_equal fst) in Heq. cbn [fst] in Heq.
  by injection Heq as <-.
Qed.

Lemma generated_salt_length salt :
  generated_salt salt = true → String.length salt = 29%nat.
Proof.
  unfold generated_salt. intros H. apply andb_true_iff in H as [H _].
  apply andb_true_iff in H as [H _]. apply andb_true_iff in H as [_ H].
  by apply Nat.eqb_eq.
Qed.

(** Under a salt that [genSalt] draws a hash has 60 characters of which
    the first 29 are the salt. *)
Lemma hash_of_generated hash_string key salt :
  bcrypt_contract hash_string → generated_salt salt = true →
  ∃ h, hash_string key salt = Ok h ∧ String.length h = 60%nat ∧ substring 0 29 h = salt.
Proof.
  intros Hb Hg. destruct (hash_generated hash_string Hb key salt Hg) as (tail & Hh & Ht).
  pose proof (generated_salt_length salt Hg) as Hl.
  exists (salt +:+ tail). split; [done|]. split.
  - rewrite append_length. lia.
  - rewrite <- Hl at 1. apply substring_append.
Qed.

(** Against a hash made under a salt that [genSalt] draws,
    [comparePassword] answers whether the candidate has that hash under
    that salt. *)
Lemma compare_generated hash_string key salt h candidate :
  bcrypt_contract hash_string → generated_salt salt = true →
  hash_string key salt = Ok h →
  ∃ comp, Bcrypt.hash hash_string candidate salt = Ok comp ∧
          User.comparePassword hash_string candidate h = Ok (String.eqb comp h).
Proof.
  intros Hb Hg Hh.
  destruct (hash_of_generated hash_string key salt Hb Hg) as (h' & Hh' & Hlen & Hpre).
  assert (h' = h) as -> by congruence.
  destruct (hash_of_generated hash_string (substring 0 72 candidate) salt Hb Hg)
    as (comp & Hcomp & _).
  exists comp. split; [exact Hcomp|].
  destruct (hash_text hash_string Hb key salt h Hh) as [_ Hall].
  apply hash_chars_ascii in Hall.
  rewrite compare_run, (js_length_ascii h Hall), (js_substr_ascii 29 h Hall).
  rewrite Hlen, Nat.eqb_refl, Hpre.
  unfold Bcrypt.hash in *. by rewrite Hcomp.
Qed.

(** ** C5: comparing a password with a stored hash *)

(** C5, as the code has it.  Against the hash [createUser] stored for a
    password, [comparePassword] answers with a boolean for every
    candidate and never throws; it answers true for the registered
    password, and in general exactly for the candidates whose hash under
    the account's salt is the stored hash.  bcrypt reads the first 72
    bytes of a string only, so every candidate that agrees with the
    registered password on its first 72 bytes is accepted, the same
    plaintext or not.  A stored value that is not 60 characters long
    matches nothing, and the comparison throws only for a stored value
    that is no hash made under a salt of [genSalt]. *)
Theorem comparePassword_registered hash_string salt now name email password db c db' :
  bcrypt_contract hash_string → generated_salt salt = true →
  User.createUser hash_string salt now name email password db = (Ok c, db') →
  User.comparePassword hash_string password (User.hashedPassword c) = Ok true ∧
  (∀ candidate,
     ∃ b, User.comparePassword hash_string candidate (User.hashedPassword c) = Ok b) ∧
  (∀ candidate,
     User.comparePassword hash_string candidate (User.hashedPassword c) = Ok true
     ↔ Bcrypt.hash hash_string candidate salt = Ok (User.hashedPassword c)) ∧
  (∀ candidate,
     substring 0 72 candidate = substring 0 72 password →
     User.comparePassword hash_string candidate (User.hashedPassword c) = Ok true) ∧
  (∀ candidate v,
     Bcrypt.js_length v ≠ 60%nat →
     User.comparePassword hash_string candidate v = Ok false) ∧
  (∀ candidate v e,
     User.comparePassword hash_string candidate v = Throw e →
     ∀ key salt', generated_salt salt' = true → hash_string key salt' ≠ Ok v).
Proof.
  intros Hb Hg Hrun. apply createUser_hashed in Hrun.
  set (stored := User.hashedPassword c) in *.
  assert (Hiff : ∀ candidate,
            User.comparePassword hash_string candidate stored = Ok true
            ↔ Bcrypt.hash hash_string candidate salt = Ok stored).
  { intros candidate.
    destruct (compare_generated hash_string _ salt stored candidate Hb Hg Hrun)
      as (comp & Hcomp & ->).
    rewrite Hcomp. split.
    - intros [= Heq]. apply String.eqb_eq in Heq. by subst.
    - intros [= ->]. by rewrite String.eqb_refl. }
  split; [by apply Hiff|]. split; [|split; [exact Hiff|split; [|split]]].
  - intros candidate.
    destruct (compare_generated hash_string _ salt stored candidate Hb Hg Hrun)
      as (comp & _ & ->).
    by eexists.
  - intros candidate Hsame. apply Hiff. unfold Bcrypt.hash in *. by rewrite Hsame.
  - intros candidate v Hlen. rewrite compare_run.
    destruct (Nat.eqb_spec (Bcrypt.js_length v) 60); [done|done].
  - intros candidate v e Hthrow key salt' Hg' Hv.
    destruct (compare_generated hash_string key salt' v candidate Hb Hg' Hv)
      as (comp & _ & Hcmp).
    by rewrite Hcmp in Hthrow.
Qed.

(** ** The stand-in digest meets the contract *)

Lemma substring_cat n m s :
  substring 0 n s +:+ substring n m s = substring 0 (n + m) s.
Proof.
  revert s. induction n as [|n IH]; intros s.
  - cbn [Nat.add]. by destruct m, s.
  - destruct s as [|c s]; [by destruct m|]. simpl.
    change (String c (substring 0 n s +:+ substring n m s)
            = String c (substring 0 (n + m) s)).
    by rewrite IH.
Qed.

Lemma chars_append a b :
  list_ascii_of_string (a +:+ b) = list_ascii_of_string a ++ list_ascii_of_string b.
Proof. induction a as [|c a IH]; simpl; [done|]. by rewrite IH. Qed.

Lemma chars_length s : List.length (list_ascii_of_string s) = String.length s.
Proof. induction s as [|c s IH]; simpl; [done|]. by rewrite IH. Qed.

Lemma string_of_chars_length l : String.length (string_of_list_ascii l) = List.length l.
Proof. induction l as [|c l IH]; simpl; [done|]. by rewrite IH. Qed.

Lemma toy_char_alphabet c : in_alphabet (toy_char c) = true.
Proof. destruct c as [[] [] [] [] [] [] [] []]; vm_compute; reflexivity. Qed.

Lemma generated_salt_chars salt :
  generated_salt salt = true → forallb hash_char (list_ascii_of_string salt) = true.
Proof.
  intros Hg. pose proof (generated_salt_length salt Hg) as Hl.
  unfold generated_salt in Hg. apply andb_true_iff in Hg as [Hg _].
  apply andb_true_iff in Hg as [Hg Hbody]. apply andb_true_iff in Hg as [Hver _].
  rewrite <- (substring_whole salt), Hl.
  change 29%nat with (7 + 22)%nat. rewrite <- substring_cat, chars_append, forallb_app.
  apply andb_true_iff. split.
  - apply orb_true_iff in Hver as [Hver|Hver]; apply String.eqb_eq in Hver;
      rewrite Hver; reflexivity.
  - apply forallb_forall. intros c Hc. unfold hash_char.
    by rewrite (proj1 (forallb_forall _ _) Hbody c Hc).
Qed.

Lemma toy_tail_length key :
  String.length
    (string_of_list_ascii
       (map toy_char
          (list_ascii_of_string
             (substring 0 31 (key +:+ "===============================")))))
  = 31%nat.
Proof.
  rewrite string_of_chars_length, length_map, chars_length, substring_length,
          append_length.
  change (String.length "===============================") with 31%nat. lia.
Qed.

Lemma toy_hash_contract : bcrypt_contract toy_hash.
Proof.
  split.
  - intros key salt h. unfold toy_hash.
    destruct (generated_salt salt) eqn:Hg; [|done]. intros [= <-]. split.
    + rewrite append_length, toy_tail_length, (generated_salt_length salt Hg). lia.
    + rewrite chars_append, forallb_app, (generated_salt_chars salt Hg). cbn [andb].
      apply forallb_forall. intros c Hc.
      rewrite list_ascii_of_string_of_list_ascii in Hc.
      apply in_map_iff in Hc as (x & <- & _). unfold hash_char.
      by rewrite toy_char_alphabet.
  - intros key key' salt h. unfold toy_hash.
    destruct (generated_salt salt); [|done]. intros _. by eexists.
  - intros key salt Hg. unfold toy_hash. rewrite Hg. eexists. split; [reflexivity|].
    apply toy_tail_length.
Qed.

(** ** The invariant of the reachable states *)

Lemma users_ok_other db tu tn t :
  tn ≠ "users" → users_ok db tu → users_ok (set_table tn t db) tu.
Proof.
  intros Hne [Hl Hc Hk Hpk]. split; try done. by rewrite set_table_lookup_ne.
Qed.

Lemma jobs_ok_other db tj tn t :
  tn ≠ "jobs" → jobs_ok db tj → jobs_ok (set_table tn t db) tj.
Proof.
  intros Hne [Hl Hc Hk Hpk]. split; try done. by rewrite set_table_lookup_ne.
Qed.

Lemma inv_init pol fk :
  db_inv (after Job.initTable (after User.initTable (empty_db pol fk))).
Proof.
  exists {| t_columns := User.columns; t_checks := User.checks; t_rows := []; t_seq := 0 |},
         {| t_columns := Job.columns; t_checks := []; t_rows := []; t_seq := 0 |}.
  split; [|split].
  - destruct pol, fk; (split; [vm_compute; reflexivity..|apply NoDup_nil_2]).
  - destruct pol, fk; (split; [vm_compute; reflexivity..|apply NoDup_nil_2]).
  - intros j Hj. by inversion Hj.
Qed.

Lemma inv_createUser hash_string db salt now name email password :
  db_inv db → db_inv (after (User.createUser hash_string salt now name email password) db).
Proof.
  intros (tu & tj & Hu & Hj & Hown). unfold after. pose proof Hu as [Hl Hc Hk Hpk].
  rewrite (createUser_run hash_string db tu) by done.
  destruct (Bcrypt.hash hash_string password salt) as [h|]; [|by exists tu, tj].
  cbn zeta. destruct (refuses_undefined db _); [by exists tu, tj|].
  destruct (row_errors _ _ _ _); [by exists tu, tj|].
  destruct (email_taken tu _); [by exists tu, tj|]. cbn [snd].
  destruct (new_user_row_cols now tu name email h Hc) as (Hid & _).
  apply col_lookup in Hid.
  exists (with_new_row tu (new_user_row now tu name email h)), tj.
  split; [by apply users_ok_insert|]. split; [by apply jobs_ok_other|].
  intros j Hin. destruct (Hown j Hin) as (u & Hu' & Hid').
  exists u. split; [|done]. cbn [with_new_row t_rows]. apply elem_of_app. by left.
Qed.

Lemma inv_createJob db now role company status createdBy :
  db_inv db → owner_exists db createdBy = true ∨ db_foreign_keys db = true →
  db_inv (after (Job.createJob now role company status createdBy) db).
Proof.
  intros (tu & tj & Hu & Hj & Hown) Hex. unfold after. pose proof Hj as [Hl Hc Hk Hpk].
  destruct (createJob_cases db tj now role company status createdBy Hl Hc Hk)
    as [Hgood Hbad].
  destruct (job_valid db role company status createdBy) eqn:Hv.
  - rewrite (Hgood eq_refl). cbn [snd].
    destruct (new_job_row_cols now tj role company status createdBy Hc)
      as (Hid & _ & _ & _ & Hcb & _).
    apply col_lookup in Hid, Hcb.
    exists tu, (with_new_row tj (new_job_row now tj role company status createdBy)).
    split; [by apply users_ok_other|]. split; [by apply jobs_ok_insert|].
    intros j Hin. cbn [with_new_row t_rows] in Hin.
    apply elem_of_app in Hin as [Hin|Hin]; [by apply Hown|].
    apply list_elem_of_singleton in Hin. subst j. rewrite Hcb.
    assert (Hex' : owner_exists db createdBy = true).
    { destruct Hex as [Hex|Hfk]; [done|]. unfold job_valid in Hv.
      apply andb_true_iff in Hv as [_ Hv]. by rewrite Hfk in Hv. }
    unfold owner_exists in Hex'. destruct Hu as [Hlu _ _ _]. rewrite Hlu in Hex'.
    apply existsb_exists in Hex' as (u & Hu' & Hid').
    exists u. split; [by apply list_elem_of_In|by apply sql_eqb_int].
  - destruct (Hbad eq_refl) as [e ->]. by exists tu, tj.
Qed.

Lemma inv_updateJob db now jobId userId payload :
  db_inv db → db_inv (after (Job.updateJob now jobId userId payload) db).
Proof.
  intros (tu & tj & Hu & Hj & Hown). unfold after. pose proof Hj as [Hl Hc Hk Hpk].
  destruct (updateJob_frame db tj now jobId userId payload Hj)
    as (res & t' & Hrun & Hj' & _ & _).
  pose proof Hrun as Hrun'. rewrite (updateJob_run db tj) in Hrun' by done.
  cbn zeta in Hrun'. rewrite Hrun. cbn [snd].
  exists tu, t'. split; [by apply users_ok_other|]. split; [done|].
  destruct (first_error _ _).
  - apply (f_equal snd) in Hrun'. cbn [snd] in Hrun'.
    assert (t' = tj) as ->; [|done].
    apply (f_equal (λ d, db_tables d !! "jobs")) in Hrun'. cbn beta in Hrun'.
    rewrite set_table_lookup, Hl in Hrun'. by injection Hrun' as <-.
  - apply (f_equal snd) in Hrun'. cbn [snd] in Hrun'.
    apply (f_equal (λ d, db_tables d !! "jobs")) in Hrun'. cbn beta in Hrun'.
    rewrite !set_table_lookup in Hrun'. injection Hrun' as <-.
    intros j Hin. cbn [with_rows t_rows] in Hin.
    apply list_elem_of_In, in_map_iff in Hin as (x & <- & Hx).
    apply list_elem_of_In in Hx. destruct (Hown x Hx) as (u & Hu' & Hid).
    exists u. split; [done|]. destruct (_ && _); [|done].
    by rewrite job_set_keeps_owner.
Qed.

Lemma inv_deleteJob db jobId userId :
  db_inv db → db_inv (after (Job.deleteJob jobId userId) db).
Proof.
  intros (tu & tj & Hu & Hj & Hown). unfold after.
  pose proof (jobs_ok_delete db tj jobId userId Hj) as Hj'.
  destruct Hj as [Hl Hc _ _]. rewrite (deleteJob_run db tj) in * by done.
  cbn [snd] in *. eexists tu, _. split; [by apply users_ok_other|]. split; [exact Hj'|].
  intros j Hin. cbn [with_rows t_rows] in Hin.
  apply list_elem_of_In, filter_In in Hin as [Hin _]. by apply Hown, list_elem_of_In.
Qed.

(** X1 (models/User.js and models/Job.js, initTable and every method
    that writes).  Every state the stores can reach has both tables as
    declared, with their primary keys respected and every job owned by an
    account. *)
Theorem reachable_inv hash_string db : reachable hash_string db → db_inv db.
Proof.
  induction 1 as [pol fk|db salt now name email password _ IH
                  |db now role company status createdBy _ IH Hex
                  |db now jobId userId payload _ IH|db jobId userId _ IH].
  - apply inv_init.
  - by apply inv_createUser.
  - by apply inv_createJob.
  - by apply inv_updateJob.
  - by apply inv_deleteJob.
Qed.

(** ** The scenario *)

Lemma NoDup_by_decide {A : Type} `{EqDecision A} (l : list A) :
  bool_decide (NoDup l) = true → NoDup l.
Proof. apply bool_decide_eq_true. Qed.

Lemma demo_jobs_rows : t_rows demo_jobs = [demo_job].
Proof. vm_compute. reflexivity. Qed.

Lemma demo_users_rows : t_rows demo_users = [demo_user].
Proof. vm_compute. reflexivity. Qed.

Lemma demo_jobs_ok : jobs_ok demo_db demo_jobs.
Proof.
  split.
  - vm_compute. reflexivity.
  - vm_compute. reflexivity.
  - vm_compute. reflexivity.
  - apply NoDup_by_decide. vm_compute. reflexivity.
Qed.

Lemma demo_users_ok : users_ok demo_db demo_users.
Proof.
  split.
  - vm_compute. reflexivity.
  - vm_compute. reflexivity.
  - vm_compute. reflexivity.
  - apply NoDup_by_decide. vm_compute. reflexivity.
Qed.

Lemma demo_job_in : demo_job ∈ t_rows demo_jobs.
Proof. rewrite demo_jobs_rows. apply list_elem_of_here. Qed.

Lemma demo_job_targets : targets 1 1 demo_job.
Proof. split; vm_compute; reflexivity. Qed.

Lemma demo_init_users_ok pol : users_ok (demo_init pol) (table_of (demo_init pol) "users").
Proof.
  destruct pol; (split; [vm_compute; reflexivity..|apply NoDup_by_decide; vm_compute; reflexivity]).
Qed.

Lemma demo_registered_jobs_ok pol :
  jobs_ok (demo_registered pol) (table_of (demo_registered pol) "jobs").
Proof.
  destruct pol; (split; [vm_compute; reflexivity..|apply NoDup_by_decide; vm_compute; reflexivity]).
Qed.

Lemma demo_integrity :
  ∀ j, j ∈ t_rows demo_jobs → ∃ u, u ∈ t_rows demo_users ∧ col u "id" = col j "created_by".
Proof.
  intros j Hj. rewrite demo_jobs_rows in Hj. apply list_elem_of_singleton in Hj. subst j.
  exists demo_user. split.
  - rewrite demo_users_rows. apply list_elem_of_here.
  - vm_compute. reflexivity.
Qed.

(** ** The theorems on the scenario *)

(** Alice's job is not found for owner 2. *)
Lemma owner_isolation_witness :
  jobs_ok demo_db demo_jobs ∧ demo_job ∈ t_rows demo_jobs ∧ targets 1 1 demo_job ∧
  Job.getSingleJob 1 2 demo_db = (Ok None, demo_db).
Proof.
  split; [exact demo_jobs_ok|]. split; [exact demo_job_in|].
  split; [exact demo_job_targets|].
  refine (proj1 (proj2 (owner_isolation demo_db demo_jobs demo_job 1 1 2
                          demo_jobs_ok demo_job_in demo_job_targets _))).
  discriminate.
Defined.

(** An update of Alice's job with an empty status and a new role succeeds. *)
Lemma updateJob_truthy_fields_witness :
  fields_valid demo_payload = true ∧
  ∃ r' db',
    Job.updateJob "2026-01-03 00:00:00" 1 1 demo_payload demo_db = (Ok (Some r'), db') ∧
    r' !! "updated_at" = Some (SText "2026-01-03 00:00:00").
Proof.
  assert (Hv : fields_valid demo_payload = true) by (vm_compute; reflexivity).
  split; [exact Hv|].
  destruct (proj1 (proj2 (updateJob_truthy_fields demo_db demo_jobs demo_job
                            "2026-01-03 00:00:00" 1 1 demo_payload
                            demo_jobs_ok demo_job_in demo_job_targets)) Hv)
    as (r' & db' & Hrun & _ & _ & _ & Hup & _).
  exists r', db'. split; [exact Hrun|exact Hup].
Defined.

(** With status unset Alice's call throws and stores nothing, on a
    connection that refuses [undefined] and on one that binds NULL. *)
Lemma createJob_unset_status_throws_witness :
  jobs_ok demo_db demo_jobs ∧
  jobs_ok (demo_registered UndefNull) (table_of (demo_registered UndefNull) "jobs") ∧
  Job.createJob "2026-01-04 00:00:00" (JStr "Tester") (JStr "Initech") JUndefined 1 demo_db
  = (Throw EDefaultUnsupported, demo_db) ∧
  Job.createJob "2026-01-04 00:00:00" (JStr "Tester") (JStr "Initech") JUndefined 1
    (demo_registered UndefNull)
  = (Throw (ENotNull "jobs" "status"), demo_registered UndefNull).
Proof.
  split; [exact demo_jobs_ok|]. split; [exact (demo_registered_jobs_ok UndefNull)|].
  split.
  - apply (proj1 (proj2 (createJob_unset_status_throws demo_db demo_jobs
                           "2026-01-04 00:00:00" (JStr "Tester") (JStr "Initech") 1
                           demo_jobs_ok))).
    vm_compute. reflexivity.
  - apply (proj1 (proj2 (proj2 (createJob_unset_status_throws
                                  (demo_registered UndefNull)
                                  (table_of (demo_registered UndefNull) "jobs")
                                  "2026-01-04 00:00:00" (JStr "Tester") (JStr "Initech") 1
                                  (demo_registered_jobs_ok UndefNull)))));
      vm_compute; reflexivity.
Defined.

(** A token for Alice under the environment's secret. *)
Lemma createJWT_thirty_days_witness :
  demo_env !! "JWT_SECRET" = Some "s3cret" ∧
  ∃ tok, User.createJWT demo_env 1000 demo_claims = Ok tok ∧
         prop (Jwt.payload tok) "exp" = JNum 2593000.
Proof.
  assert (He : demo_env !! "JWT_SECRET" = Some "s3cret") by (vm_compute; reflexivity).
  split; [exact He|].
  destruct (createJWT_thirty_days demo_env 1000 demo_claims "s3cret" He)
    as (tok & Hrun & _ & _ & _ & Hexp & _); [discriminate|].
  exists tok. split; [exact Hrun|exact Hexp].
Defined.

(** The stand-in digest: Alice logs in with the password she registered
    with. *)
Lemma comparePassword_registered_witness :
  bcrypt_contract toy_hash ∧ generated_salt demo_salt = true ∧
  User.createUser toy_hash demo_salt "2026-01-01 00:00:00" (JStr "Alice") (JStr "a@b.com")
    "secret1" (demo_init UndefThrow)
  = (Ok demo_account, demo_registered UndefThrow) ∧
  User.comparePassword toy_hash "secret1" demo_hash = Ok true.
Proof.
  assert (Hg : generated_salt demo_salt = true) by (vm_compute; reflexivity).
  assert (Hrun : User.createUser toy_hash demo_salt "2026-01-01 00:00:00" (JStr "Alice")
                   (JStr "a@b.com") "secret1" (demo_init UndefThrow)
                 = (Ok demo_account, demo_registered UndefThrow))
    by (vm_compute; reflexivity).
  split; [exact toy_hash_contract|]. split; [exact Hg|]. split; [exact Hrun|].
  exact (proj1 (comparePassword_registered toy_hash demo_salt "2026-01-01 00:00:00"
                  (JStr "Alice") (JStr "a@b.com") "secret1" (demo_init UndefThrow)
                  demo_account (demo_registered UndefThrow)
                  toy_hash_contract Hg Hrun)).
Defined.

(** A second registration with Alice's email is a conflict. *)
Lemma email_conflict_witness :
  users_ok (demo_init UndefThrow) (table_of (demo_init UndefThrow) "users") ∧
  User.createUser toy_hash demo_salt "2026-01-05 00:00:00" (JStr "Bob") (JStr "a@b.com")
    "hunter22" (demo_registered UndefThrow)
  = (Throw (EUnique "users" "email"), demo_registered UndefThrow).
Proof.
  split; [exact (demo_init_users_ok UndefThrow)|].
  refine (proj1 (proj2 (email_conflict toy_hash (demo_init UndefThrow)
                          (table_of (demo_init UndefThrow) "users")
                          demo_salt "2026-01-01 00:00:00" (JStr "Alice") (JStr "a@b.com")
                          "secret1" demo_account (demo_registered UndefThrow)
                          toy_hash_contract (demo_init_users_ok UndefThrow) _
                          demo_salt "2026-01-05 00:00:00" (JStr "Bob") "hunter22"))
                 _ _ _).
  - vm_compute. reflexivity.
  - vm_compute. reflexivity.
  - vm_compute. reflexivity.
Defined.

(** Deleting Alice's job answers 1. *)
Lemma deleteJob_once_witness :
  jobs_ok demo_db demo_jobs ∧
  ∃ t', Job.deleteJob 1 1 demo_db = (Ok 1%Z, set_table "jobs" t' demo_db).
Proof.
  split; [exact demo_jobs_ok|].
  destruct (deleteJob_once demo_db demo_jobs 1 1 demo_jobs_ok)
    as (n & t' & Hrun & _ & _ & Hone & _).
  exists t'. rewrite Hrun. f_equal. f_equal. apply Hone.
  exists demo_job. split; [exact demo_job_in|exact demo_job_targets].
Defined.

(** Alice's list holds her job, with her name. *)
Lemma getAllJobs_owned_witness :
  jobs_ok demo_db demo_jobs ∧ users_ok demo_db demo_users ∧
  Job.getAllJobs 1 demo_db = (Ok [<["creator_name" := SText "Alice"]> demo_job], demo_db).
Proof.
  split; [exact demo_jobs_ok|]. split; [exact demo_users_ok|].
  destruct (getAllJobs_owned demo_db demo_jobs demo_users 1
              demo_jobs_ok demo_users_ok demo_integrity) as (display & Hrun & Hname & _).
  rewrite Hrun. f_equal. f_equal.
  rewrite (Hname demo_user); [vm_compute; reflexivity| |vm_compute; reflexivity].
  rewrite demo_users_rows. apply list_elem_of_here.
Defined.

(** An update and a delete by owner 2 leave the database as it is. *)
Lemma job_writes_frame_witness :
  jobs_ok demo_db demo_jobs ∧
  Job.updateJob "2026-01-03 00:00:00" 1 2 demo_payload demo_db = (Ok None, demo_db) ∧
  Job.deleteJob 1 2 demo_db = (Ok 0%Z, demo_db).
Proof.
  split; [exact demo_jobs_ok|].
  apply (proj2 (proj2 (job_writes_frame demo_db demo_jobs "2026-01-03 00:00:00" 1 2
                         demo_payload demo_jobs_ok))).
  intros r Hr [_ Hown]. rewrite demo_jobs_rows in Hr.
  apply list_elem_of_singleton in Hr. subst r. vm_compute in Hown. discriminate Hown.
Defined.

(** Both tables exist after the initialisation, and a second one changes
    nothing. *)
Lemma initTable_idempotent_witness :
  User.initTable (demo_init UndefThrow) = (Ok (), demo_init UndefThrow) ∧
  Job.initTable (demo_init UndefThrow) = (Ok (), demo_init UndefThrow).
Proof.
  destruct (initTable_idempotent (demo_init UndefThrow)) as (Hu & Hj & _).
  split.
  - apply (Hu (table_of (demo_init UndefThrow) "users")). vm_compute. reflexivity.
  - apply (Hj (table_of (demo_init UndefThrow) "jobs")). vm_compute. reflexivity.
Defined.

(** ** C5 as stated fails *)

(** C5 as stated: the hash stored for one password is matched by another
    plaintext.  The two passwords have 73 characters and differ in the
    last, which bcrypt does not read; the account is registered with the
    first and the comparison accepts the second. *)
Lemma comparePassword_other_plaintext :
  other_password ≠ long_password ∧
  ∃ c db',
    User.createUser toy_hash demo_salt "2026-01-01 00:00:00" (JStr "Alice") (JStr "a@b.com")
      long_password (demo_init UndefThrow) = (Ok c, db') ∧
    User.comparePassword toy_hash other_password (User.hashedPassword c) = Ok true.
Proof.
  split; [discriminate|]. eexists _, _. split; vm_compute; reflexivity.
Defined.

(** ** C8 as stated fails *)

(** C8 as stated: on a connection that does not enforce foreign keys, a
    job whose creator is no account is stored with createdBy 7 and found by
    [getSingleJob], and the list of owner 7 does not hold it. *)
Lemma getAllJobs_misses_orphan :
  ∃ r,
    r ∈ t_rows (table_of orphan_db "jobs") ∧ col r "created_by" = SInt 7 ∧
    Job.getSingleJob 1 7 orphan_db = (Ok (Some r), orphan_db) ∧
    Job.getAllJobs 7 orphan_db = (Ok [], orphan_db).
Proof.
  exists (default ∅ (head (t_rows (table_of orphan_db "jobs")))).
  split; [vm_compute; apply list_elem_of_here|].
  split; [vm_compute; reflexivity|]. split; vm_compute; reflexivity.
Defined.

(** ** Runs: what each call keeps *)

Lemma user_initTable_existing db t :
  db_tables db !! "users" = Some t → User.initTable db = (Ok (), db).
Proof.
  intros Ht. unfold User.initTable. rewrite bind_run. unfold hasTable.
  rewrite Ht. rewrite bool_decide_eq_true_2 by (by exists t). done.
Qed.

Lemma job_initTable_existing db t :
  db_tables db !! "jobs" = Some t → Job.initTable db = (Ok (), db).
Proof.
  intros Ht. unfold Job.initTable. rewrite bind_run. unfold hasTable.
  rewrite Ht. rewrite bool_decide_eq_true_2 by (by exists t). done.
Qed.

Lemma user_initTable_fresh db :
  db_tables db !! "users" = None →
  User.initTable db
  = (Ok (), set_table "users" (fresh_table User.columns User.checks) db).
Proof.
  intros Ht. unfold User.initTable. rewrite bind_run. unfold hasTable, createTable.
  rewrite Ht. rewrite bool_decide_eq_false_2 by (by intros [? ?]).
  cbn [negb]. by rewrite !Ht.
Qed.

Lemma job_initTable_fresh db :
  db_tables db !! "jobs" = None →
  Job.initTable db = (Ok (), set_table "jobs" (fresh_table Job.columns []) db).
Proof.
  intros Ht. unfold Job.initTable. rewrite bind_run. unfold hasTable, createTable.
  rewrite Ht. rewrite bool_decide_eq_false_2 by (by intros [? ?]).
  cbn [negb]. by rewrite !Ht.
Qed.

Lemma users_ok_unique db t t' : users_ok db t → users_ok db t' → t = t'.
Proof. intros [Hl _ _ _] [Hl' _ _ _]. congruence. Qed.

Lemma jobs_ok_unique db t t' : jobs_ok db t → jobs_ok db t' → t = t'.
Proof. intros [Hl _ _ _] [Hl' _ _ _]. congruence. Qed.

Lemma refuses_bound db name email h :
  is_Some (bind_param name) → is_Some (bind_param email) →
  refuses_undefined db (user_bound name email h) = false.
Proof.
  intros [sn Hn] [se He]. unfold refuses_undefined, user_bound. cbn [existsb snd].
  rewrite Hn, He. cbn [orb]. apply andb_false_r.
Qed.

(** What a successful [createUser] did. *)
Lemma createUser_inv hash_string db t salt now name email password c db' :
  users_ok db t →
  User.createUser hash_string salt now name email password db = (Ok c, db') →
  ∃ h, Bcrypt.hash hash_string password salt = Ok h ∧
       name_ok name = true ∧ email_ok email = true ∧
       email_taken t (text_or SNull email) = false ∧
       c = {| User.id := JObject {[ "id" := JNum (next_id "id" t) ]};
              User.name := name; User.email := email; User.hashedPassword := h |} ∧
       db' = set_table "users" (with_new_row t (new_user_row now t name email h)) db.
Proof.
  intros [Hl Hc Hk Hpk] Hrun.
  rewrite (createUser_run hash_string db t) in Hrun by done.
  destruct (Bcrypt.hash hash_string password salt) as [h|] eqn:Hh; [|done]. cbn zeta in Hrun.
  destruct (refuses_undefined db _); [done|].
  destruct (row_errors "users" t all_columns _) eqn:Hre; [done|].
  destruct (email_taken t (text_or SNull email)) eqn:Hfree; [done|].
  exists h. split; [done|].
  assert (Hvalid : user_row_valid (new_user_row now t name email h) = true).
  { destruct (user_row_valid _) eqn:Hv; [done|].
    destruct (user_row_errors t (new_user_row now t name email h) Hc Hk) as [_ Hbad].
    destruct (Hbad Hv) as [e He]. by rewrite He in Hre. }
  rewrite new_user_row_valid in Hvalid by done.
  apply andb_true_iff in Hvalid as [Hvalid _].
  apply andb_true_iff in Hvalid as [Hname Hemail].
  split; [done|]. split; [done|]. split; [done|].
  split; [congruence|congruence].
Qed.

(** The arguments [createUser] accepts, and what it then does. *)
Lemma createUser_cases hash_string db t salt now name email password :
  bcrypt_contract hash_string → users_ok db t →
  (∀ h, Bcrypt.hash hash_string password salt = Ok h →
        user_valid t name email = true →
        User.createUser hash_string salt now name email password db
        = (Ok {| User.id := JObject {[ "id" := JNum (next_id "id" t) ]};
                 User.name := name; User.email := email; User.hashedPassword := h |},
           set_table "users" (with_new_row t (new_user_row now t name email h)) db)) ∧
  (accepted (Bcrypt.hash hash_string password salt) && user_valid t name email = false →
   ∃ e, User.createUser hash_string salt now name email password db = (Throw e, db)).
Proof.
  intros Hb [Hl Hc Hk Hpk].
  pose proof (createUser_run hash_string db t salt now name email password Hl Hc Hk)
    as Hrun.
  split.
  - intros h Hh Hv. rewrite Hh in Hrun. cbn zeta in Hrun.
    unfold user_valid in Hv. apply andb_true_iff in Hv as [Hv Hfree].
    apply andb_true_iff in Hv as [Hname Hemail]. apply negb_true_iff in Hfree.
    rewrite refuses_bound in Hrun by first [by apply name_ok_bound|by apply email_ok_bound].
    destruct (user_row_errors t (new_user_row now t name email h) Hc Hk) as [Hgood _].
    rewrite Hgood, Hfree in Hrun; [done|].
    rewrite new_user_row_valid by done. rewrite Hname, Hemail. cbn [andb].
    by apply (hash_long_enough hash_string (substring 0 72 password) salt).
  - intros Hbad. rewrite Hrun.
    destruct (Bcrypt.hash hash_string password salt) as [h|]; [|by eexists]. cbn zeta.
    cbn [accepted andb] in Hbad.
    destruct (refuses_undefined db _); [by eexists|].
    destruct (row_errors "users" t all_columns _) eqn:Hre; [by eexists|].
    destruct (email_taken t (text_or SNull email)) eqn:Hfree; [by eexists|].
    exfalso.
    assert (Hvalid : user_row_valid (new_user_row now t name email h) = true).
    { destruct (user_row_valid _) eqn:Hv; [done|].
      destruct (user_row_errors t (new_user_row now t name email h) Hc Hk) as [_ Hb0].
      destruct (Hb0 Hv) as [e He]. by rewrite He in Hre. }
    rewrite new_user_row_valid in Hvalid by done.
    apply andb_true_iff in Hvalid as [Hvalid _].
    unfold user_valid in Hbad. rewrite Hvalid, Hfree in Hbad. done.
Qed.

Lemma sql_eqb_same a : a ≠ SNull → sql_eqb a a = true.
Proof. intros Ha. by apply sql_eqb_refl. Qed.

Lemma emails_unique_insert t r :
  emails_unique t → col r "email" ≠ SNull → email_taken t (col r "email") = false →
  emails_unique (with_new_row t r).
Proof.
  unfold emails_unique. intros Hnd Hnn Hfree. cbn [with_new_row t_rows].
  rewrite map_app. cbn [map]. apply NoDup_app. split; [done|]. split.
  - intros e He Hin. apply list_elem_of_singleton in Hin. subst e.
    apply list_elem_of_In, in_map_iff in He as (x & Hx & Hin).
    assert (email_taken t (col r "email") = true); [|congruence].
    apply existsb_exists. exists x. split; [done|].
    rewrite Hx. by apply sql_eqb_same.
  - apply NoDup_singleton.
Qed.

Lemma createUser_grows hash_string db tu tj salt now name email password :
  users_ok db tu → jobs_ok db tj →
  grows db (after (User.createUser hash_string salt now name email password) db).
Proof.
  intros Hu Hj. unfold after.
  destruct (User.createUser hash_string salt now name email password db)
    as [[c|e] db'] eqn:Hrun.
  - destruct (createUser_inv _ _ _ _ _ _ _ _ _ _ Hu Hrun)
      as (h & Hh & Hname & Hemail & Hfree & _ & ->). cbn [snd].
    pose proof Hu as [Hl Hc Hk Hpk].
    destruct (new_user_row_cols now tu name email h Hc) as (Hid & _ & He & _).
    apply col_lookup in Hid, He.
    exists tu, tj, (with_new_row tu (new_user_row now tu name email h)), tj.
    split; [done|]. split; [done|]. split; [by apply users_ok_insert|].
    split; [by apply jobs_ok_other|]. split; [by apply prefix_app_r|].
    split; [lia|]. intros Hnd. apply emails_unique_insert; [done|..].
    + rewrite He. by apply email_ok_not_null.
    + by rewrite He.
  - pose proof Hu as [Hl Hc Hk Hpk].
    rewrite (createUser_run hash_string db tu) in Hrun by done.
    assert (db' = db) as ->.
    { destruct (Bcrypt.hash hash_string password salt); [|congruence]. cbn zeta in Hrun.
      destruct (refuses_undefined db _); [congruence|].
      destruct (row_errors "users" tu all_columns _); [congruence|].
      destruct (email_taken tu _); [congruence|done]. }
    cbn [snd]. exists tu, tj, tu, tj. by repeat (split; [done|]).
Qed.

Lemma createJob_grows db tu tj now role company status createdBy :
  users_ok db tu → jobs_ok db tj →
  grows db (after (Job.createJob now role company status createdBy) db).
Proof.
  intros Hu Hj. unfold after. pose proof Hj as [Hl Hc Hk Hpk].
  destruct (createJob_cases db tj now role company status createdBy Hl Hc Hk)
    as [Hgood Hbad].
  destruct (job_valid db role company status createdBy) eqn:Hv.
  - rewrite (Hgood eq_refl). cbn [snd].
    destruct (new_job_row_cols now tj role company status createdBy Hc) as (Hid & _).
    apply col_lookup in Hid.
    exists tu, tj, tu, (with_new_row tj (new_job_row now tj role company status createdBy)).
    split; [done|]. split; [done|]. split; [by apply users_ok_other|].
    split; [by apply jobs_ok_insert|]. split; [done|].
    split; [cbn [with_new_row t_seq]; lia|done].
  - destruct (Hbad eq_refl) as [e ->]. cbn [snd].
    exists tu, tj, tu, tj. by repeat (split; [done|]).
Qed.

Lemma updateJob_grows db tu tj now jobId userId payload :
  users_ok db tu → jobs_ok db tj →
  grows db (after (Job.updateJob now jobId userId payload) db).
Proof.
  intros Hu Hj. unfold after. pose proof Hj as [Hl Hc Hk Hpk].
  destruct (updateJob_frame db tj now jobId userId payload Hj)
    as (res & t' & Hrun & Hj' & _ & _).
  pose proof Hrun as Hrun'. rewrite (updateJob_run db tj) in Hrun' by done.
  cbn zeta in Hrun'. rewrite Hrun. cbn [snd].
  exists tu, tj, tu, t'. split; [done|]. split; [done|].
  split; [by apply users_ok_other|]. split; [done|]. split; [done|].
  split; [|done].
  destruct (first_error _ _).
  - apply (f_equal snd) in Hrun'. cbn [snd] in Hrun'.
    apply (f_equal (λ d, db_tables d !! "jobs")) in Hrun'. cbn beta in Hrun'.
    rewrite set_table_lookup, Hl in Hrun'. injection Hrun' as <-. lia.
  - apply (f_equal snd) in Hrun'. cbn [snd] in Hrun'.
    apply (f_equal (λ d, db_tables d !! "jobs")) in Hrun'. cbn beta in Hrun'.
    rewrite !set_table_lookup in Hrun'. injection Hrun' as <-.
    cbn [with_rows t_seq]. lia.
Qed.

Lemma deleteJob_grows db tu tj jobId userId :
  users_ok db tu → jobs_ok db tj → grows db (after (Job.deleteJob jobId userId) db).
Proof.
  intros Hu Hj. unfold after.
  pose proof (jobs_ok_delete db tj jobId userId Hj) as Hj'.
  pose proof Hj as [Hl Hc _ _]. rewrite (deleteJob_run db tj) in * by done.
  cbn [snd] in *. eexists tu, tj, tu, _.
  split; [done|]. split; [done|]. split; [by apply users_ok_other|].
  split; [exact Hj'|]. split; [done|]. split; [cbn [with_rows t_seq]; lia|done].
Qed.

Lemma grows_refl db tu tj : users_ok db tu → jobs_ok db tj → grows db db.
Proof. intros Hu Hj. exists tu, tj, tu, tj. by repeat (split; [done|]). Qed.

Lemma grows_trans db1 db2 db3 : grows db1 db2 → grows db2 db3 → grows db1 db3.
Proof.
  intros (tu & tj & tu' & tj' & Hu & Hj & Hu' & Hj' & Hp & Hs & He)
         (tu2 & tj2 & tu3 & tj3 & Hu2 & Hj2 & Hu3 & Hj3 & Hp' & Hs' & He').
  rewrite <- (users_ok_unique _ _ _ Hu' Hu2) in *.
  rewrite <- (jobs_ok_unique _ _ _ Hj' Hj2) in *.
  exists tu, tj, tu3, tj3. split; [done|]. split; [done|]. split; [done|].
  split; [done|]. split; [by etrans|]. split; [lia|auto].
Qed.

Lemma step_grows hash_string db db' tu tj :
  users_ok db tu → jobs_ok db tj → step hash_string db db' → grows db db'.
Proof.
  intros Hu Hj Hstep.
  destruct Hstep as [db salt now name email password
                    |db now role company status createdBy
                    |db now jobId userId payload|db jobId userId|db|db].
  - by eapply createUser_grows.
  - by eapply createJob_grows.
  - by eapply updateJob_grows.
  - by eapply deleteJob_grows.
  - unfold after. destruct Hu as [Hl ? ? ?] eqn:E. clear E.
    rewrite (user_initTable_existing db tu Hl). cbn [snd]. by eapply grows_refl.
  - unfold after. destruct Hj as [Hl ? ? ?] eqn:E. clear E.
    rewrite (job_initTable_existing db tj Hl). cbn [snd]. by eapply grows_refl.
Qed.

Lemma steps_grow hash_string db db' tu tj :
  users_ok db tu → jobs_ok db tj → rtc (step hash_string) db db' → grows db db'.
Proof.
  intros Hu Hj Hsteps. revert tu tj Hu Hj.
  induction Hsteps as [db|db db1 db2 Hstep Hsteps IH]; intros tu tj Hu Hj.
  - by eapply grows_refl.
  - pose proof (step_grows _ _ _ _ _ Hu Hj Hstep) as Hg.
    destruct Hg as (tu0 & tj0 & tu1 & tj1 & Hu0 & Hj0 & Hu1 & Hj1 & Hrest).
    eapply grows_trans; [|by eapply (IH tu1 tj1)].
    exists tu0, tj0, tu1, tj1. by repeat (split; [done|]).
Qed.

(** ** Accounts *)

Lemma init_tables pol fk :
  users_ok (after Job.initTable (after User.initTable (empty_db pol fk)))
           (fresh_table User.columns User.checks) ∧
  jobs_ok (after Job.initTable (after User.initTable (empty_db pol fk)))
          (fresh_table Job.columns []).
Proof.
  split; destruct pol, fk; (split; [vm_compute; reflexivity..|apply NoDup_nil_2]).
Qed.

Lemma reachable_steps hash_string db :
  reachable hash_string db →
  ∃ pol fk, rtc (step hash_string)
              (after Job.initTable (after User.initTable (empty_db pol fk))) db.
Proof.
  induction 1 as [pol fk|db salt now name email password _ (pol & fk & IH)
                  |db now role company status createdBy _ (pol & fk & IH) Hex
                  |db now jobId userId payload _ (pol & fk & IH)
                  |db jobId userId _ (pol & fk & IH)].
  - by exists pol, fk.
  - exists pol, fk. eapply rtc_r; [exact IH|]. constructor.
  - exists pol, fk. eapply rtc_r; [exact IH|]. constructor.
  - exists pol, fk. eapply rtc_r; [exact IH|]. constructor.
  - exists pol, fk. eapply rtc_r; [exact IH|]. constructor.
Qed.

Lemma demo_reachable : reachable toy_hash demo_db.
Proof.
  unfold demo_db, demo_registered, demo_init.
  apply reach_createJob; [|right; vm_compute; reflexivity].
  apply reach_createUser. apply reach_init.
Qed.

Lemma head_filter_app {A : Type} (p : A → bool) (l k : list A) (x : A) :
  head (List.filter p l) = Some x → head (List.filter p (l ++ k)) = Some x.
Proof.
  intros Hx. rewrite List.filter_app. by destruct (List.filter p l).
Qed.

Lemma email_in_unique t s r :
  emails_unique t → r ∈ t_rows t → col r "email" = SText s →
  List.filter (λ r, sql_eqb (col r "email") (SText s)) (t_rows t) = [r].
Proof.
  intros Hnd Hin He.
  apply (filter_keyed (λ r, col r "email")); [done|done|..].
  - rewrite He. by apply sql_eqb_refl.
  - intros x Hx. apply sql_eqb_eq in Hx. congruence.
Qed.

(** X2 (models/User.js, createUser and initTable): in every state the
    stores reach, two distinct accounts never have the same email: the
    account that [findByEmail] answers with is the only one with that
    email. *)
Theorem reachable_emails_unique hash_string db :
  reachable hash_string db →
  ∃ tu, users_ok db tu ∧
        (∀ r1 r2, r1 ∈ t_rows tu → r2 ∈ t_rows tu →
                  col r1 "email" = col r2 "email" → r1 = r2) ∧
        (∀ s row, row ∈ t_rows tu → col row "email" = SText s →
                  User.findByEmail s db = (Ok (Some row), db)).
Proof.
  intros Hr. destruct (reachable_steps _ _ Hr) as (pol & fk & Hsteps).
  destruct (init_tables pol fk) as [Hu Hj].
  destruct (steps_grow _ _ _ _ _ Hu Hj Hsteps)
    as (tu0 & tj0 & tu & tj & Hu0 & _ & Hu' & _ & _ & _ & He).
  rewrite <- (users_ok_unique _ _ _ Hu Hu0) in He.
  assert (Hnd : emails_unique tu) by (apply He; apply NoDup_nil_2).
  exists tu. split; [done|]. split.
  - intros r1 r2 H1 H2 Heq. by apply (keyed_inj (λ r, col r "email") (t_rows tu)).
  - intros s row Hin Hs. pose proof Hu' as [Hl Hc _ _].
    rewrite (findByEmail_run db tu) by done.
    by rewrite (email_in_unique tu s row).
Qed.

Lemma reachable_emails_unique_witness :
  reachable toy_hash demo_db ∧
  User.findByEmail "a@b.com" demo_db = (Ok (Some demo_user), demo_db).
Proof.
  split; [exact demo_reachable|].
  destruct (reachable_emails_unique toy_hash demo_db demo_reachable)
    as (tu & Hu & _ & Hfind).
  rewrite <- (users_ok_unique _ _ _ demo_users_ok Hu) in Hfind.
  apply Hfind; [|vm_compute; reflexivity].
  rewrite demo_users_rows. apply list_elem_of_here.
Defined.

(** The scenario is a reachable state, so it satisfies the invariant. *)
Lemma reachable_inv_witness : reachable toy_hash demo_db ∧ db_inv demo_db.
Proof.
  split; [exact demo_reachable|]. exact (reachable_inv toy_hash demo_db demo_reachable).
Defined.

(** X3 (models/User.js, createUser with the schema of initTable):
    [createUser] succeeds exactly when bcrypt accepts the salt, the name
    is a text of at most 50 characters, the email is a text of the shape
    [%@%.%] and no account has that email.  It then stores one row with a
    fresh id, the name, the email and the hash, and returns the object
    holding that id with its arguments and the hash; otherwise it throws
    and the database is unchanged.  Of the two length checks the schema
    declares for the name the table has the last only, so a name of two
    characters, or of none, is stored.  The plaintext password plays no
    part in the decision: the length check of the password column is
    applied to the hash. *)
Theorem createUser_accepts hash_string db t salt now name email password :
  bcrypt_contract hash_string → users_ok db t →
  (accepted (Bcrypt.hash hash_string password salt) && user_valid t name email = true →
   ∃ h row,
     Bcrypt.hash hash_string password salt = Ok h ∧
     User.createUser hash_string salt now name email password db
     = (Ok {| User.id := JObject {[ "id" := JNum (next_id "id" t) ]};
              User.name := name; User.email := email; User.hashedPassword := h |},
        set_table "users" (with_new_row t row) db) ∧
     col row "id" = SInt (next_id "id" t) ∧
     col row "name" = text_or SNull name ∧
     col row "email" = text_or SNull email ∧
     col row "password" = SText h ∧
     (∀ u, u ∈ t_rows t → col u "id" ≠ SInt (next_id "id" t))) ∧
  (accepted (Bcrypt.hash hash_string password salt) && user_valid t name email = false →
   ∃ e, User.createUser hash_string salt now name email password db = (Throw e, db)) ∧
  (∀ password',
     accepted (Bcrypt.hash hash_string password' salt) && user_valid t name email
     = accepted (Bcrypt.hash hash_string password salt) && user_valid t name email) ∧
  (∀ s, name = JStr s →
        name_ok name = bool_decide (char_count false s ≤ 50)%Z).
Proof.
  intros Hb Hu. pose proof Hu as [Hl Hc Hk Hpk].
  destruct (createUser_cases hash_string db t salt now name email password Hb Hu)
    as [Hgood Hbad].
  split; [|split; [exact Hbad|split]].
  - intros Hok. apply andb_true_iff in Hok as [Hacc Hv].
    destruct (Bcrypt.hash hash_string password salt) as [h|] eqn:Hh; [|done].
    exists h, (new_user_row now t name email h).
    destruct (new_user_row_cols now t name email h Hc) as (Hid & Hn & He & Hp).
    apply col_lookup in Hid, Hn, He, Hp.
    split; [done|]. split; [by apply Hgood|].
    split; [done|]. split; [done|]. split; [done|]. split; [done|].
    intros u Hin Hid'. pose proof (next_id_fresh "id" t u Hin) as Hf.
    rewrite Hid' in Hf. cbn in Hf. by rewrite Z.eqb_refl in Hf.
  - intros password'. f_equal. unfold Bcrypt.hash.
    destruct (hash_string (substring 0 72 password) salt) as [h|] eqn:Hh,
             (hash_string (substring 0 72 password') salt) as [h'|] eqn:Hh'; try done.
    + destruct (hash_accepts hash_string Hb _ (substring 0 72 password') salt h Hh)
        as [x Hx].
      congruence.
    + destruct (hash_accepts hash_string Hb _ (substring 0 72 password) salt h' Hh')
        as [x Hx].
      congruence.
  - intros s ->. unfold name_ok, length_ok, op_holds. cbn.
    destruct (Z.leb_spec (char_count false s) 50).
    + by rewrite bool_decide_eq_true_2.
    + rewrite bool_decide_eq_false_2; [done|lia].
Qed.

(** On the initialised database a name of two letters and a password of
    one are accepted. *)
Lemma createUser_accepts_witness :
  bcrypt_contract toy_hash ∧
  users_ok (demo_init UndefThrow) (table_of (demo_init UndefThrow) "users") ∧
  ∃ h db',
    User.createUser toy_hash demo_salt "2026-01-01 00:00:00" (JStr "Al")
      (JStr "bob@b.org") "x" (demo_init UndefThrow)
    = (Ok {| User.id := JObject {[ "id" := JNum 1 ]}; User.name := JStr "Al";
             User.email := JStr "bob@b.org"; User.hashedPassword := h |}, db').
Proof.
  split; [exact toy_hash_contract|]. split; [exact (demo_init_users_ok UndefThrow)|].
  destruct (proj1 (createUser_accepts toy_hash (demo_init UndefThrow)
                     (table_of (demo_init UndefThrow) "users") demo_salt
                     "2026-01-01 00:00:00" (JStr "Al") (JStr "bob@b.org") "x"
                     toy_hash_contract (demo_init_users_ok UndefThrow)))
    as (h & row & _ & Hrun & _); [vm_compute; reflexivity|].
  exists h. eexists. exact Hrun.
Defined.

(** X5 (models/User.js, findByEmail): [findByEmail] never throws on a
    declared users table and never changes the database; it answers
    undefined exactly when no account has that very email, and a row it
    answers with is an account with that email, the one found first in
    the table. *)
Theorem findByEmail_spec db t s :
  users_ok db t →
  (∃ o, User.findByEmail s db = (Ok o, db)) ∧
  (User.findByEmail s db = (Ok None, db)
   ↔ ∀ r, r ∈ t_rows t → col r "email" ≠ SText s) ∧
  (∀ row, User.findByEmail s db = (Ok (Some row), db) →
          row ∈ t_rows t ∧ col row "email" = SText s) ∧
  (∀ before row rest,
     t_rows t = before ++ row :: rest → col row "email" = SText s →
     (∀ r, r ∈ before → col r "email" ≠ SText s) →
     User.findByEmail s db = (Ok (Some row), db)).
Proof.
  intros [Hl Hc Hk Hpk]. rewrite (findByEmail_run db t) by done.
  split; [by eexists|]. split; [split|split].
  - intros Hnone r Hin He.
    assert (Hr : r ∈ List.filter (λ r, sql_eqb (col r "email") (SText s)) (t_rows t)).
    { apply list_elem_of_In, filter_In. split; [by apply list_elem_of_In|].
      rewrite He. by apply sql_eqb_refl. }
    destruct (List.filter _ (t_rows t)); [by inversion Hr|done].
  - intros Hno. rewrite filter_none; [done|]. intros x Hx.
    apply not_true_is_false. intros Hm. apply sql_eqb_eq in Hm. by apply (Hno x).
  - intros row Hrow.
    assert (Hh : head (List.filter (λ r, sql_eqb (col r "email") (SText s)) (t_rows t))
                 = Some row) by congruence.
    apply head_filter_Some in Hh as [Hin Hm]. split; [done|]. by apply sql_eqb_eq.
  - intros before row rest -> He Hno. rewrite List.filter_app.
    rewrite (filter_none _ before).
    + cbn [app List.filter]. rewrite He, sql_eqb_refl by done. done.
    + intros x Hx. apply not_true_is_false. intros Hm. apply sql_eqb_eq in Hm.
      by apply (Hno x).
Qed.

(** No account of the scenario has Bob's email. *)
Lemma findByEmail_spec_witness :
  users_ok demo_db demo_users ∧
  User.findByEmail "bob@b.org" demo_db = (Ok None, demo_db).
Proof.
  split; [exact demo_users_ok|].
  apply (proj2 (proj1 (proj2 (findByEmail_spec demo_db demo_users "bob@b.org"
                                demo_users_ok)))).
  intros r Hin. rewrite demo_users_rows in Hin.
  apply list_elem_of_singleton in Hin. subst r. vm_compute. discriminate.
Defined.

(** X6 (models/User.js and models/Job.js, every method that writes): no
    call ever removes or changes an account.  Along any run the accounts
    of the start are the first accounts of the end, in the same order and
    unchanged, and [findByEmail] keeps answering with the same row. *)
Theorem accounts_append_only hash_string db db' tu tj :
  users_ok db tu → jobs_ok db tj → rtc (step hash_string) db db' →
  ∃ tu', users_ok db' tu' ∧
         t_rows tu `prefix_of` t_rows tu' ∧
         (∀ (i : nat) u, t_rows tu !! i = Some u → t_rows tu' !! i = Some u) ∧
         (∀ s row, User.findByEmail s db = (Ok (Some row), db) →
                   User.findByEmail s db' = (Ok (Some row), db')).
Proof.
  intros Hu Hj Hsteps.
  destruct (steps_grow _ _ _ _ _ Hu Hj Hsteps)
    as (tu0 & tj0 & tu' & tj' & Hu0 & _ & Hu' & _ & Hp & _).
  rewrite <- (users_ok_unique _ _ _ Hu Hu0) in Hp. clear Hu0.
  exists tu'. split; [done|]. split; [done|]. destruct Hp as [k Hk]. split.
  - intros i u Hi. rewrite Hk. by apply lookup_app_l_Some.
  - intros s row Hfind. pose proof Hu as [Hl Hc _ _]. pose proof Hu' as [Hl' Hc' _ _].
    rewrite (findByEmail_run db tu) in Hfind by done.
    rewrite (findByEmail_run db' tu') by done. rewrite Hk.
    rewrite (head_filter_app _ _ _ row); [done|]. congruence.
Qed.

(** Deleting Alice's job leaves her account where it was. *)
Lemma accounts_append_only_witness :
  users_ok demo_db demo_users ∧ jobs_ok demo_db demo_jobs ∧
  rtc (step toy_hash) demo_db (after (Job.deleteJob 1 1) demo_db) ∧
  User.findByEmail "a@b.com" (after (Job.deleteJob 1 1) demo_db)
  = (Ok (Some demo_user), after (Job.deleteJob 1 1) demo_db).
Proof.
  assert (Hs : rtc (step toy_hash) demo_db (after (Job.deleteJob 1 1) demo_db)).
  { apply rtc_once. constructor. }
  split; [exact demo_users_ok|]. split; [exact demo_jobs_ok|]. split; [exact Hs|].
  destruct (accounts_append_only toy_hash demo_db _ demo_users demo_jobs
              demo_users_ok demo_jobs_ok Hs) as (tu' & _ & _ & _ & Hfind).
  apply Hfind. vm_compute. reflexivity.
Defined.

(** X4 (models/User.js, createUser, findByEmail and comparePassword): the
    round trip of registration and login.  After a successful
    [createUser] with a text email, under a salt that [genSalt] draws,
    [findByEmail] on that email answers with a row whose id is the one in
    the object [createUser] returned, and [comparePassword] accepts the
    registered password against the password column of that row; lookups
    of any other email answer as before. *)
Theorem login_after_register hash_string db t salt now name s password c db' :
  bcrypt_contract hash_string → generated_salt salt = true → users_ok db t →
  User.createUser hash_string salt now name (JStr s) password db = (Ok c, db') →
  ∃ row stored n,
    User.findByEmail s db' = (Ok (Some row), db') ∧
    User.id c = JObject {[ "id" := JNum n ]} ∧ col row "id" = SInt n ∧
    col row "password" = SText stored ∧
    User.comparePassword hash_string password stored = Ok true ∧
    (∀ s', s' ≠ s → (User.findByEmail s' db').1 = (User.findByEmail s' db).1).
Proof.
  intros Hb Hg Hu Hrun. pose proof Hu as [Hl Hc Hk Hpk].
  destruct (createUser_inv _ _ _ _ _ _ _ _ _ _ Hu Hrun)
    as (h & Hh & Hname & Hemail & Hfree & -> & ->).
  set (r := new_user_row now t name (JStr s) h).
  destruct (new_user_row_cols now t name (JStr s) h Hc) as (Hid & _ & He & Hp).
  apply col_lookup in Hid, He, Hp. fold r in Hid, He, Hp.
  change (text_or SNull (JStr s)) with (SText s) in *.
  pose proof (users_ok_insert db t r Hu Hid) as [Hl1 Hc1 _ _].
  exists r, h, (next_id "id" t).
  split; [|split; [done|split; [done|split; [done|split]]]].
  - rewrite (findByEmail_run _ (with_new_row t r)) by done.
    cbn [with_new_row t_rows]. rewrite List.filter_app. cbn [List.filter].
    rewrite He, sql_eqb_refl by done.
    rewrite filter_none; [done|]. intros x Hx.
    apply not_true_is_false. intros Hm.
    assert (email_taken t (SText s) = true); [|congruence].
    apply existsb_exists. exists x. split; [by apply list_elem_of_In|done].
  - unfold Bcrypt.hash in Hh.
    destruct (compare_generated hash_string _ salt h password Hb Hg Hh)
      as (comp & Hcomp & ->).
    unfold Bcrypt.hash in Hcomp. assert (comp = h) as -> by congruence.
    by rewrite String.eqb_refl.
  - intros s' Hne. rewrite (findByEmail_run _ (with_new_row t r)) by done.
    rewrite (findByEmail_run db t) by done. cbn [fst with_new_row t_rows].
    rewrite List.filter_app. cbn [List.filter]. rewrite He.
    assert (sql_eqb (SText s) (SText s') = false) as ->.
    { apply not_true_is_false. intros Hm. apply sql_eqb_eq in Hm. congruence. }
    by rewrite app_nil_r.
Qed.

(** Alice logs in with the password she registered with. *)
Lemma login_after_register_witness :
  bcrypt_contract toy_hash ∧ generated_salt demo_salt = true ∧
  users_ok (demo_init UndefThrow) (table_of (demo_init UndefThrow) "users") ∧
  ∃ row stored,
    User.findByEmail "a@b.com" (demo_registered UndefThrow)
    = (Ok (Some row), demo_registered UndefThrow) ∧
    col row "password" = SText stored ∧
    User.comparePassword toy_hash "secret1" stored = Ok true.
Proof.
  assert (Hg : generated_salt demo_salt = true) by (vm_compute; reflexivity).
  split; [exact toy_hash_contract|]. split; [exact Hg|].
  split; [exact (demo_init_users_ok UndefThrow)|].
  assert (Hrun : ∃ c, User.createUser toy_hash demo_salt "2026-01-01 00:00:00"
                   (JStr "Alice") (JStr "a@b.com") "secret1" (demo_init UndefThrow)
                 = (Ok c, demo_registered UndefThrow)).
  { eexists. vm_compute. reflexivity. }
  destruct Hrun as [c Hrun].
  destruct (login_after_register toy_hash _ _ _ _ _ _ _ _ _ toy_hash_contract Hg
              (demo_init_users_ok UndefThrow) Hrun)
    as (row & stored & n & Hfind & _ & _ & Hp & Hcmp & _).
  exists row, stored. split; [exact Hfind|]. split; [exact Hp|exact Hcmp].
Defined.

(** ** Jobs: how the methods compose *)

Lemma next_id_gt_seq idc t : (t_seq t < next_id idc t)%Z.
Proof.
  unfold next_id.
  assert (t_seq t ≤ foldr (λ r m, Z.max (row_int idc r) m) (t_seq t) (t_rows t))%Z; [|lia].
  induction (t_rows t) as [|r rows IH]; cbn [foldr]; lia.
Qed.

(** What a successful [createJob] did. *)
Lemma createJob_inv db t now role company status createdBy c db' :
  jobs_ok db t →
  Job.createJob now role company status createdBy db = (Ok c, db') →
  job_valid db role company status createdBy = true ∧
  c = {| Job.id := JNum (next_id "id" t); Job.role := role; Job.company := company;
         Job.status := status; Job.createdBy := createdBy |} ∧
  db' = set_table "jobs"
          (with_new_row t (new_job_row now t role company status createdBy)) db.
Proof.
  intros [Hl Hc Hk Hpk] Hrun.
  destruct (createJob_cases db t now role company status createdBy Hl Hc Hk)
    as [Hgood Hbad].
  destruct (job_valid db role company status createdBy) eqn:Hv.
  - rewrite (Hgood eq_refl) in Hrun. split; [done|]. split; congruence.
  - destruct (Hbad eq_refl) as [e He]. by rewrite He in Hrun.
Qed.

Lemma filter_implied {A : Type} (p q : A → bool) (l : list A) :
  (∀ x, p x = true → q x = true) → List.filter p (List.filter q l) = List.filter p l.
Proof.
  intros Hpq. induction l as [|x l IH]; [done|]. cbn [List.filter].
  destruct (q x) eqn:Hq; cbn [List.filter].
  - by rewrite IH.
  - destruct (p x) eqn:Hp; [|done]. rewrite (Hpq x Hp) in Hq. done.
Qed.

Lemma matches_update now payload j u r :
  matches (job_where j u) (job_set now payload ∪ r) = matches (job_where j u) r.
Proof.
  apply Bool.eq_iff_eq_true. rewrite !matches_targets. unfold targets.
  by rewrite job_set_keeps_id, job_set_keeps_owner.
Qed.

Lemma targets_pair j u j' u' r : targets j u r → targets j' u' r → (j', u') = (j, u).
Proof. intros [Hi Ho] [Hi' Ho']. congruence. Qed.

(** X7 (models/Job.js, createJob with deleteJob and the other writes):
    the id of a job is never given out again.  Whatever calls follow a
    successful [createJob], deletes of that very job included, every later
    successful [createJob] returns a strictly greater id. *)
Theorem job_ids_never_reused hash_string db tu tj now role company status createdBy
    c db1 db2 :
  users_ok db tu → jobs_ok db tj →
  Job.createJob now role company status createdBy db = (Ok c, db1) →
  rtc (step hash_string) db1 db2 →
  ∃ n, Job.id c = JNum n ∧
       ∀ now' role' company' status' createdBy' c' db3,
         Job.createJob now' role' company' status' createdBy' db2 = (Ok c', db3) →
         ∃ m, Job.id c' = JNum m ∧ (n < m)%Z.
Proof.
  intros Hu Hj Hrun Hsteps. pose proof Hj as [Hl Hc Hk Hpk].
  destruct (createJob_inv _ _ _ _ _ _ _ _ _ Hj Hrun) as (_ & -> & ->).
  set (r := new_job_row now tj role company status createdBy) in *.
  destruct (new_job_row_cols now tj role company status createdBy Hc) as (Hid & _).
  apply col_lookup in Hid. fold r in Hid.
  pose proof (jobs_ok_insert db tj r Hj Hid) as Hj1.
  pose proof (users_ok_other db tu "jobs" (with_new_row tj r) ltac:(done) Hu) as Hu1.
  destruct (steps_grow _ _ _ _ _ Hu1 Hj1 Hsteps)
    as (tu0 & tj0 & tu2 & tj2 & _ & Hj0 & _ & Hj2 & _ & Hseq & _).
  rewrite <- (jobs_ok_unique _ _ _ Hj1 Hj0) in Hseq. clear Hj0.
  cbn [with_new_row t_seq] in Hseq. rewrite (job_rowid tj r Hc Hid) in Hseq.
  exists (next_id "id" tj). split; [done|].
  intros now' role' company' status' createdBy' c' db3 Hrun'.
  destruct (createJob_inv _ _ _ _ _ _ _ _ _ Hj2 Hrun') as (_ & -> & _).
  exists (next_id "id" tj2). split; [done|].
  pose proof (next_id_gt_seq "id" tj2). lia.
Qed.

(** After Alice's job 1 is deleted, the next job gets id 2. *)
Lemma job_ids_never_reused_witness :
  users_ok (demo_registered UndefThrow) (table_of (demo_registered UndefThrow) "users") ∧
  jobs_ok (demo_registered UndefThrow) (table_of (demo_registered UndefThrow) "jobs") ∧
  ∃ c db3,
    Job.createJob "2026-01-06 00:00:00" (JStr "Tester") (JStr "Initech") (JStr "interview") 1
      (after (Job.deleteJob 1 1) demo_db) = (Ok c, db3) ∧
    ∃ m, Job.id c = JNum m ∧ (1 < m)%Z.
Proof.
  assert (Hu : users_ok (demo_registered UndefThrow)
                 (table_of (demo_registered UndefThrow) "users")).
  { split; [vm_compute; reflexivity..|]. apply NoDup_by_decide. vm_compute. reflexivity. }
  split; [exact Hu|]. split; [exact (demo_registered_jobs_ok UndefThrow)|].
  assert (Hfirst : ∃ c, Job.createJob "2026-01-02 00:00:00" (JStr "Engineer") (JStr "Acme")
                          (JStr "pending") 1 (demo_registered UndefThrow)
                        = (Ok c, demo_db) ∧ Job.id c = JNum 1).
  { eexists. split; vm_compute; reflexivity. }
  destruct Hfirst as (c1 & Hfirst & Hid1).
  assert (Hs : rtc (step toy_hash) demo_db (after (Job.deleteJob 1 1) demo_db)).
  { apply rtc_once. constructor. }
  destruct (job_ids_never_reused toy_hash _ _ _ _ _ _ _ _ _ _ _ Hu
              (demo_registered_jobs_ok UndefThrow) Hfirst Hs) as (n & Hn & Hlater).
  assert (Hsecond : ∃ c db3,
            Job.createJob "2026-01-06 00:00:00" (JStr "Tester") (JStr "Initech")
              (JStr "interview") 1 (after (Job.deleteJob 1 1) demo_db) = (Ok c, db3)).
  { eexists _, _. vm_compute. reflexivity. }
  destruct Hsecond as (c & db3 & Hsecond). exists c, db3. split; [exact Hsecond|].
  destruct (Hlater _ _ _ _ _ _ _ Hsecond) as (m & Hm & Hlt).
  exists m. split; [exact Hm|]. rewrite Hid1 in Hn. injection Hn as <-. exact Hlt.
Defined.

Lemma users_no_owner_column tu : t_columns tu = User.columns → has_column tu "created_by" = false.
Proof. intros Hc. unfold has_column, find_column. by rewrite Hc. Qed.

(** X8 (models/Job.js, createJob then getAllJobs): a job created for an
    existing account shows up at the end of that account's list, with the
    account's name as creator_name, and the lists of all other accounts
    are as before. *)
Theorem createJob_then_list db tu tj u now role company status createdBy c db' :
  users_ok db tu → jobs_ok db tj →
  u ∈ t_rows tu → col u "id" = SInt createdBy →
  Job.createJob now role company status createdBy db = (Ok c, db') →
  ∃ old r n,
    Job.getAllJobs createdBy db = (Ok old, db) ∧
    Job.getAllJobs createdBy db'
    = (Ok (old ++ [<["creator_name" := col u "name"]> r]), db') ∧
    Job.id c = JNum n ∧ col r "id" = SInt n ∧
    col r "role" = text_or SNull role ∧ col r "company" = text_or SNull company ∧
    col r "created_by" = SInt createdBy ∧
    (∀ other, other ≠ createdBy →
       (Job.getAllJobs other db').1 = (Job.getAllJobs other db).1).
Proof.
  intros Hu Hj Hin Huid Hrun.
  pose proof Hj as [Hl Hc Hk Hpk]. pose proof Hu as [Hlu Hcu _ Hpku].
  destruct (createJob_inv _ _ _ _ _ _ _ _ _ Hj Hrun) as (_ & -> & ->).
  set (r := new_job_row now tj role company status createdBy) in *.
  destruct (new_job_row_cols now tj role company status createdBy Hc)
    as (Hid & Hr & Hco & _ & Hcb & _).
  apply col_lookup in Hid, Hr, Hco, Hcb. fold r in Hid, Hr, Hco, Hcb.
  pose proof (jobs_ok_insert db tj r Hj Hid) as [Hl1 Hc1 _ _].
  assert (Hlu1 : db_tables (set_table "jobs" (with_new_row tj r) db) !! "users" = Some tu).
  { by rewrite set_table_lookup_ne. }
  assert (Hrun1 : ∀ w, Job.getAllJobs w (set_table "jobs" (with_new_row tj r) db)
                       = (Ok (joined w (t_rows tj) (t_rows tu) ++ joined w [r] (t_rows tu)),
                          set_table "jobs" (with_new_row tj r) db)).
  { intros w. rewrite (getAllJobs_run _ (with_new_row tj r)) by done.
    rewrite Hlu1, (users_no_owner_column tu Hcu). cbn [with_new_row t_rows].
    unfold joined. by rewrite flat_map_app. }
  assert (Hrun0 : ∀ w, Job.getAllJobs w db = (Ok (joined w (t_rows tj) (t_rows tu)), db)).
  { intros w. rewrite (getAllJobs_run db tj) by done.
    by rewrite Hlu, (users_no_owner_column tu Hcu). }
  exists (joined createdBy (t_rows tj) (t_rows tu)), r, (next_id "id" tj).
  split; [apply Hrun0|]. split.
  { rewrite Hrun1. do 2 f_equal. rewrite (joined_owner createdBy [r] _ u) by done.
    cbn [List.filter]. rewrite bool_decide_eq_true_2 by done. done. }
  split; [done|]. split; [done|]. split; [done|]. split; [done|]. split; [done|].
  intros other Hne. rewrite Hrun1, Hrun0. cbn [fst]. f_equal.
  unfold joined at 2. cbn [flat_map]. rewrite filter_none; [by rewrite !app_nil_r|].
  intros x _. rewrite Hcb. apply andb_false_intro2. cbn. by apply Z.eqb_neq.
Qed.

(** A second job of Alice comes after her first in her list. *)
Lemma createJob_then_list_witness :
  users_ok demo_db demo_users ∧ jobs_ok demo_db demo_jobs ∧
  demo_user ∈ t_rows demo_users ∧ col demo_user "id" = SInt 1 ∧
  ∃ old r db',
    Job.getAllJobs 1 demo_db = (Ok old, demo_db) ∧
    Job.getAllJobs 1 db' = (Ok (old ++ [<["creator_name" := SText "Alice"]> r]), db').
Proof.
  assert (Hin : demo_user ∈ t_rows demo_users).
  { rewrite demo_users_rows. apply list_elem_of_here. }
  assert (Hid : col demo_user "id" = SInt 1) by (vm_compute; reflexivity).
  split; [exact demo_users_ok|]. split; [exact demo_jobs_ok|].
  split; [exact Hin|]. split; [exact Hid|].
  assert (Hrun : ∃ c db', Job.createJob "2026-01-04 00:00:00" (JStr "Tester")
                            (JStr "Initech") (JStr "interview") 1 demo_db = (Ok c, db')).
  { eexists _, _. vm_compute. reflexivity. }
  destruct Hrun as (c & db' & Hrun).
  destruct (createJob_then_list demo_db demo_users demo_jobs demo_user _ _ _ _ _ c db'
              demo_users_ok demo_jobs_ok Hin Hid Hrun)
    as (old & r & n & Hold & Hnew & _).
  exists old, r, db'. split; [exact Hold|exact Hnew].
Defined.

(** X9 (models/Job.js, getSingleJob against updateJob, deleteJob and
    createJob): a write addressed to one id and owner does not change what
    [getSingleJob] answers for any other id and owner pair, and a
    [createJob] does not change what it answers for any id but the new
    one. *)
Theorem getSingleJob_frame db t now jobId userId payload j' u' :
  jobs_ok db t → (j', u') ≠ (jobId, userId) →
  (Job.getSingleJob j' u' (after (Job.updateJob now jobId userId payload) db)).1
  = (Job.getSingleJob j' u' db).1 ∧
  (Job.getSingleJob j' u' (after (Job.deleteJob jobId userId) db)).1
  = (Job.getSingleJob j' u' db).1 ∧
  (∀ role company status createdBy,
     j' ≠ next_id "id" t →
     (Job.getSingleJob j' u' (after (Job.createJob now role company status createdBy) db)).1
     = (Job.getSingleJob j' u' db).1).
Proof.
  intros Hj Hne. pose proof Hj as [Hl Hc Hk Hpk]. unfold after.
  assert (Hread : ∀ rows,
            (Job.getSingleJob j' u' (set_table "jobs" (with_rows t rows) db)).1
            = Ok (head (List.filter (matches (job_where j' u')) rows))).
  { intros rows. rewrite (getSingleJob_run _ (with_rows t rows)); [done| |done].
    apply set_table_lookup. }
  rewrite (getSingleJob_run db t) by done. cbn [fst].
  split; [|split].
  - rewrite (updateJob_run db t) by done. cbn zeta.
    destruct (first_error _ _).
    + cbn [snd]. by rewrite (getSingleJob_run db t) by done.
    + cbn [snd]. rewrite Hread. do 2 f_equal.
      rewrite filter_map_swap.
      rewrite (List.filter_ext _ (matches (job_where j' u'))).
      * apply map_fixed. intros x Hx.
        apply list_elem_of_In, filter_In in Hx as [_ Hx]. apply matches_targets in Hx.
        destruct (matches (job_where jobId userId) x) eqn:Hm; [|done].
        apply matches_targets in Hm. destruct Hne. by apply (targets_pair _ _ _ _ x).
      * intros x. destruct (matches (job_where jobId userId) x); [|done].
        apply matches_update.
  - rewrite (deleteJob_run db t) by done. cbn [snd]. rewrite Hread. do 2 f_equal.
    apply filter_implied. intros x Hx. apply matches_targets in Hx.
    apply negb_true_iff, matches_not_targets. intros Hx'.
    destruct Hne. by apply (targets_pair _ _ _ _ x).
  - intros role company status createdBy Hnew.
    destruct (createJob_cases db t now role company status createdBy Hl Hc Hk)
      as [Hgood Hbad].
    destruct (job_valid db role company status createdBy) eqn:Hv.
    + rewrite (Hgood eq_refl). cbn [snd].
      set (r := new_job_row now t role company status createdBy).
      destruct (new_job_row_cols now t role company status createdBy Hc) as (Hid & _).
      apply col_lookup in Hid. fold r in Hid.
      pose proof (jobs_ok_insert db t r Hj Hid) as [Hl1 Hc1 _ _].
      rewrite (getSingleJob_run _ (with_new_row t r)) by done.
      cbn [fst with_new_row t_rows]. do 2 f_equal.
      rewrite List.filter_app. cbn [List.filter].
      assert (matches (job_where j' u') r = false) as ->; [|by rewrite app_nil_r].
      apply matches_not_targets. intros [Hid' _]. congruence.
    + destruct (Hbad eq_refl) as [e ->]. cbn [snd].
      by rewrite (getSingleJob_run db t) by done.
Qed.

(** Alice's job is read as before after a write to job 2 of owner 1. *)
Lemma getSingleJob_frame_witness :
  jobs_ok demo_db demo_jobs ∧ (1%Z, 1%Z) ≠ (2%Z, 1%Z) ∧
  (Job.getSingleJob 1 1 (after (Job.deleteJob 2 1) demo_db)).1 = Ok (Some demo_job).
Proof.
  assert (Hne : (1%Z, 1%Z) ≠ (2%Z, 1%Z)) by discriminate.
  split; [exact demo_jobs_ok|]. split; [exact Hne|].
  rewrite (proj1 (proj2 (getSingleJob_frame demo_db demo_jobs "2026-01-03 00:00:00"
                           2 1 demo_payload 1 1 demo_jobs_ok Hne))).
  vm_compute. reflexivity.
Defined.

Lemma joined_cons userId ra jobs users :
  joined userId (ra :: jobs) users = joined userId [ra] users ++ joined userId jobs users.
Proof. unfold joined. cbn [flat_map]. by rewrite app_nil_r. Qed.

Lemma joined_delete userId jobId users jobs :
  joined userId (List.filter (λ r, negb (matches (job_where jobId userId) r)) jobs) users
  = List.filter (λ o, bool_decide (col o "id" ≠ SInt jobId)) (joined userId jobs users).
Proof.
  induction jobs as [|ra jobs IH]; [done|]. cbn [List.filter].
  rewrite (joined_cons userId ra jobs), List.filter_app, <- IH.
  destruct (matches (job_where jobId userId) ra) eqn:Hm; cbn [negb].
  - rewrite (filter_none _ (joined userId [ra] users)); [done|]. intros o Ho.
    apply joined_inv in Ho as (ra' & rb & Hra & _ & _ & _ & ->).
    apply list_elem_of_singleton in Hra. subst ra'.
    apply matches_targets in Hm as [Hid _].
    apply bool_decide_eq_false. intros Hne. apply Hne. by rewrite col_insert_ne.
  - rewrite joined_cons. f_equal. symmetry. apply filter_all. intros o Ho.
    apply joined_inv in Ho as (ra' & rb & Hra & _ & Hown & _ & ->).
    apply list_elem_of_singleton in Hra. subst ra'.
    apply matches_not_targets in Hm.
    apply bool_decide_eq_true. rewrite col_insert_ne by done. intros Hid.
    apply Hm. by split.
Qed.

(** X10 (models/Job.js, deleteJob followed by the other methods): once
    [deleteJob] has run for an id and owner, the record is gone for every
    method: [getSingleJob] and [updateJob] answer undefined, the update
    changes nothing, and the owner's list is the former list without the
    rows of that id. *)
Theorem deleteJob_then_read db t tu jobId userId :
  jobs_ok db t → users_ok db tu →
  Job.getSingleJob jobId userId (after (Job.deleteJob jobId userId) db)
  = (Ok None, after (Job.deleteJob jobId userId) db) ∧
  (∀ now payload,
     Job.updateJob now jobId userId payload (after (Job.deleteJob jobId userId) db)
     = (Ok None, after (Job.deleteJob jobId userId) db)) ∧
  ∃ rows,
    Job.getAllJobs userId db = (Ok rows, db) ∧
    Job.getAllJobs userId (after (Job.deleteJob jobId userId) db)
    = (Ok (List.filter (λ o, bool_decide (col o "id" ≠ SInt jobId)) rows),
       after (Job.deleteJob jobId userId) db).
Proof.
  intros Hj Hu. pose proof Hj as [Hl Hc Hk Hpk]. pose proof Hu as [Hlu Hcu _ _].
  pose proof (jobs_ok_delete db t jobId userId Hj) as Hj'. unfold after.
  rewrite (deleteJob_run db t) in * by done. cbn [snd] in *.
  set (t' := with_rows t _) in *.
  assert (Hgone : ∀ r, r ∈ t_rows t' → ¬ targets jobId userId r).
  { intros r Hr. unfold t' in Hr. cbn [with_rows t_rows] in Hr.
    apply list_elem_of_In, filter_In in Hr as [_ Hr].
    by apply negb_true_iff, matches_not_targets in Hr. }
  pose proof Hj' as [Hl' Hc' _ _].
  split; [|split].
  - rewrite (getSingleJob_run _ t') by done. by rewrite job_filter_none.
  - intros now payload. by apply (updateJob_none _ t').
  - exists (joined userId (t_rows t) (t_rows tu)). split.
    + rewrite (getAllJobs_run db t) by done.
      by rewrite Hlu, (users_no_owner_column tu Hcu).
    + rewrite (getAllJobs_run _ t') by done.
      rewrite set_table_lookup_ne, Hlu, (users_no_owner_column tu Hcu) by done.
      unfold t'. cbn [with_rows t_rows]. by rewrite joined_delete.
Qed.

(** After Alice deletes her job it is undefined for her. *)
Lemma deleteJob_then_read_witness :
  jobs_ok demo_db demo_jobs ∧ users_ok demo_db demo_users ∧
  Job.getSingleJob 1 1 (after (Job.deleteJob 1 1) demo_db)
  = (Ok None, after (Job.deleteJob 1 1) demo_db).
Proof.
  split; [exact demo_jobs_ok|]. split; [exact demo_users_ok|].
  exact (proj1 (deleteJob_then_read demo_db demo_jobs demo_users 1 1
                  demo_jobs_ok demo_users_ok)).
Defined.

(** X11 (models/Job.js, createJob with the schema of initTable):
    [createJob] succeeds exactly on the arguments the schema accepts, and
    a refused call throws and leaves the database unchanged.  Accepted
    arguments have a role, a company and a status that are set and not
    null, a text status that is one of the three words of the enum, and,
    on a connection that enforces foreign keys, an existing account as
    owner.  The length checks count characters, not bytes: a text role is
    accepted up to 100 characters and a text company up to 50. *)
Theorem createJob_accepts db t now role company status createdBy :
  jobs_ok db t →
  (job_valid db role company status createdBy = true
   ↔ ∃ c db', Job.createJob now role company status createdBy db = (Ok c, db')) ∧
  (job_valid db role company status createdBy = false →
   ∃ e, Job.createJob now role company status createdBy db = (Throw e, db)) ∧
  (job_valid db role company status createdBy = true →
   role ≠ JUndefined ∧ role ≠ JNull ∧ company ≠ JUndefined ∧ company ≠ JNull ∧
   status ≠ JUndefined ∧ status ≠ JNull ∧
   (∀ s, status = JStr s → s ∈ ["pending"; "interview"; "decline"]) ∧
   (db_foreign_keys db = true → owner_exists db createdBy = true)) ∧
  (∀ r c s, role = JStr r → company = JStr c → status = JStr s →
     job_valid db role company status createdBy
     = bool_decide (char_count false r ≤ 100)%Z && bool_decide (char_count false c ≤ 50)%Z
       && bool_decide (s ∈ ["pending"; "interview"; "decline"])
       && (negb (db_foreign_keys db) || owner_exists db createdBy)).
Proof.
  intros Hj. pose proof Hj as [Hl Hc Hk Hpk].
  destruct (createJob_cases db t now role company status createdBy Hl Hc Hk)
    as [Hgood Hbad].
  split; [split|split; [exact Hbad|split]].
  - intros Hv. rewrite (Hgood Hv). by eexists _, _.
  - intros (c & db' & Hrun). by destruct (createJob_inv _ _ _ _ _ _ _ _ _ Hj Hrun).
  - intros Hv. unfold job_valid in Hv.
    apply andb_true_iff in Hv as [Hv Hfk]. apply andb_true_iff in Hv as [Hv Hs].
    apply andb_true_iff in Hv as [Hr Hco].
    split; [by intros ->|]. split; [by intros ->|].
    split; [by intros ->|]. split; [by intros ->|].
    split; [by intros ->|]. split; [by intros ->|]. split.
    + intros s ->. unfold status_arg_ok in Hs. apply andb_true_iff in Hs as [_ Hs].
      change (text_or SNull (JStr s)) with (SText s) in Hs.
      cbn in Hs. repeat (apply orb_true_iff in Hs as [Hs|Hs];
                         [apply String.eqb_eq in Hs; subst s; set_solver|]).
      done.
    + intros Hfk'. rewrite Hfk' in Hfk. by cbn in Hfk.
  - intros r c s -> -> ->. unfold job_valid, text_arg_ok, status_arg_ok, length_ok, op_holds.
    cbn [text_or bind_param affinity is_null negb andb sql_length fst snd String.eqb
         Ascii.eqb Bool.eqb enum_member].
    f_equal. f_equal; [f_equal|].
    + destruct (Z.leb_spec (char_count false r) 100).
      * by rewrite bool_decide_eq_true_2.
      * rewrite bool_decide_eq_false_2; [done|lia].
    + destruct (Z.leb_spec (char_count false c) 50).
      * by rewrite bool_decide_eq_true_2.
      * rewrite bool_decide_eq_false_2; [done|lia].
    + destruct (existsb (String.eqb s) ["pending"; "interview"; "decline"]) eqn:Hex.
      * rewrite bool_decide_eq_true_2; [done|].
        apply existsb_exists in Hex as (x & Hx & Heq). apply String.eqb_eq in Heq.
        subst x. by apply list_elem_of_In.
      * rewrite bool_decide_eq_false_2; [done|]. intros Hin.
        apply list_elem_of_In in Hin.
        assert (existsb (String.eqb s) ["pending"; "interview"; "decline"] = true);
          [|congruence].
        apply existsb_exists. exists s. split; [done|apply String.eqb_refl].
Qed.

(** A status outside the enum is refused and nothing is stored. *)
Lemma createJob_accepts_witness :
  jobs_ok demo_db demo_jobs ∧
  ∃ e, Job.createJob "2026-01-04 00:00:00" (JStr "Tester") (JStr "Initech")
         (JStr "declined") 1 demo_db = (Throw e, demo_db).
Proof.
  split; [exact demo_jobs_ok|].
  apply (proj1 (proj2 (createJob_accepts demo_db demo_jobs "2026-01-04 00:00:00"
                         (JStr "Tester") (JStr "Initech") (JStr "declined") 1
                         demo_jobs_ok))).
  vm_compute. reflexivity.
Defined.

(** ** The constraints of the schema, on every stored row *)

Lemma createUser_row_valid hash_string db t salt now name email password c db' h :
  users_ok db t →
  User.createUser hash_string salt now name email password db = (Ok c, db') →
  Bcrypt.hash hash_string password salt = Ok h →
  user_row_valid (new_user_row now t name email h) = true.
Proof.
  intros [Hl Hc Hk Hpk] Hrun Hh.
  rewrite (createUser_run hash_string db t) in Hrun by done.
  rewrite Hh in Hrun. cbn zeta in Hrun.
  destruct (refuses_undefined db _); [done|].
  destruct (row_errors "users" t all_columns _) eqn:Hre; [done|].
  destruct (user_row_valid _) eqn:Hv; [done|].
  destruct (user_row_errors t (new_user_row now t name email h) Hc Hk) as [_ Hbad].
  destruct (Hbad Hv) as [e He]. by rewrite He in Hre.
Qed.

Lemma field_ok_truthy payload f ok :
  field_ok payload f ok = true → truthy (prop payload f) = true →
  ok (text (prop payload f)) = true.
Proof. unfold field_ok. intros H Ht. by rewrite Ht in H. Qed.

Lemma job_row_valid_update now payload r :
  job_row_valid r = true → fields_valid payload = true →
  job_row_valid (job_set now payload ∪ r) = true.
Proof.
  unfold job_row_valid, fields_valid. intros Hr Hf.
  apply andb_true_iff in Hf as [Hf Hfs]. apply andb_true_iff in Hf as [Hfr Hfc].
  apply andb_true_iff in Hr as [Hr Hcb]. apply andb_true_iff in Hr as [Hr Hse].
  apply andb_true_iff in Hr as [Hr Hsn]. apply andb_true_iff in Hr as [Hr Hcl].
  apply andb_true_iff in Hr as [Hr Hcn]. apply andb_true_iff in Hr as [Hr Hrl].
  apply andb_true_iff in Hr as [Hid Hrn].
  rewrite !col_union.
  rewrite job_set_role, job_set_company, job_set_status.
  rewrite !job_set_other by done. rewrite Hid, Hcb. cbn [andb]. rewrite andb_true_r.
  assert (Hrole : negb (is_null (match (if truthy (prop payload "role")
                                        then Some (text (prop payload "role")) else None)
                                 with Some v => v | None => col r "role" end))
                  && length_ok (match (if truthy (prop payload "role")
                                       then Some (text (prop payload "role")) else None)
                                with Some v => v | None => col r "role" end)
                               ("<=", 100%Z) = true).
  { destruct (truthy (prop payload "role")) eqn:Ht.
    - rewrite (truthy_not_null _ Ht). cbn [negb andb].
      by apply (field_ok_truthy payload "role" (λ v, length_ok v ("<=", 100%Z))).
    - by rewrite Hrn, Hrl. }
  assert (Hcomp : negb (is_null (match (if truthy (prop payload "company")
                                        then Some (text (prop payload "company")) else None)
                                 with Some v => v | None => col r "company" end))
                  && length_ok (match (if truthy (prop payload "company")
                                       then Some (text (prop payload "company")) else None)
                                with Some v => v | None => col r "company" end)
                               ("<=", 50%Z) = true).
  { destruct (truthy (prop payload "company")) eqn:Ht.
    - rewrite (truthy_not_null _ Ht). cbn [negb andb].
      by apply (field_ok_truthy payload "company" (λ v, length_ok v ("<=", 50%Z))).
    - by rewrite Hcn, Hcl. }
  assert (Hstat : negb (is_null (match (if truthy (prop payload "status")
                                        then Some (text (prop payload "status")) else None)
                                 with Some v => v | None => col r "status" end))
                  && enum_member ["pending"; "interview"; "decline"]
                       (match (if truthy (prop payload "status")
                               then Some (text (prop payload "status")) else None)
                        with Some v => v | None => col r "status" end) = true).
  { destruct (truthy (prop payload "status")) eqn:Ht.
    - rewrite (truthy_not_null _ Ht). cbn [negb andb].
      by apply (field_ok_truthy payload "status"
                  (enum_member ["pending"; "interview"; "decline"])).
    - by rewrite Hsn, Hse. }
  apply andb_true_iff in Hrole as [-> ->], Hcomp as [-> ->], Hstat as [-> ->]. done.
Qed.

Lemma affinity_text p :
  is_null (affinity (TString 255) p) = false → ∃ s, affinity (TString 255) p = SText s.
Proof. destruct p as [[|n|s]|n]; cbn; [done|by eexists..]. Qed.

Lemma job_status_text_new now t role company status createdBy :
  t_columns t = Job.columns →
  status_arg_ok status = true →
  ∃ s, col (new_job_row now t role company status createdBy) "status" = SText s.
Proof.
  intros Hc Hs.
  destruct (new_job_row_cols now t role company status createdBy Hc)
    as (_ & _ & _ & Hst & _).
  apply col_lookup in Hst. rewrite Hst. unfold status_arg_ok in Hs.
  apply andb_true_iff in Hs as [Hnn _]. apply negb_true_iff in Hnn.
  unfold text_or in *. destruct (bind_param status) as [v|]; [|done].
  by apply affinity_text.
Qed.

Lemma job_status_text_update now payload r :
  (∃ s, col r "status" = SText s) →
  ∃ s, col (job_set now payload ∪ r) "status" = SText s.
Proof.
  intros Hs. rewrite col_union, job_set_status.
  destruct (truthy (prop payload "status")) eqn:Ht; [|done].
  apply affinity_text. by apply truthy_not_null.
Qed.

Lemma step_rows_valid hash_string db db' tu tj :
  users_ok db tu → jobs_ok db tj → rows_valid tu tj → step hash_string db db' →
  ∃ tu' tj', users_ok db' tu' ∧ jobs_ok db' tj' ∧ rows_valid tu' tj'.
Proof.
  intros Hu Hj (Hvu & Hvj & Hst) Hstep.
  pose proof Hu as [Hlu Hcu Hku Hpku]. pose proof Hj as [Hl Hc Hk Hpk].
  destruct Hstep as [db salt now name email password
                    |db now role company status createdBy
                    |db now jobId userId payload|db jobId userId|db|db]; unfold after.
  - destruct (User.createUser hash_string salt now name email password db)
      as [[c|e] db'] eqn:Hrun.
    + destruct (createUser_inv _ _ _ _ _ _ _ _ _ _ Hu Hrun)
        as (h & Hh & _ & _ & _ & _ & Hdb).
      pose proof (createUser_row_valid _ _ _ _ _ _ _ _ _ _ h Hu Hrun Hh) as Hnew.
      subst db'. cbn [snd].
      destruct (new_user_row_cols now tu name email h Hcu) as (Hid & _).
      apply col_lookup in Hid.
      exists (with_new_row tu (new_user_row now tu name email h)), tj.
      split; [by apply users_ok_insert|]. split; [by apply jobs_ok_other|].
      split; [|done].
      intros u Hin. cbn [with_new_row t_rows] in Hin.
      apply elem_of_app in Hin as [Hin|Hin]; [by apply Hvu|].
      apply list_elem_of_singleton in Hin. by subst u.
    + rewrite (createUser_run hash_string db tu) in Hrun by done.
      assert (db' = db) as ->.
      { destruct (Bcrypt.hash hash_string password salt); [|congruence]. cbn zeta in Hrun.
        destruct (refuses_undefined db _); [congruence|].
        destruct (row_errors "users" tu all_columns _); [congruence|].
        destruct (email_taken tu _); [congruence|done]. }
      cbn [snd]. by exists tu, tj.
  - destruct (Job.createJob now role company status createdBy db)
      as [[c|e] db'] eqn:Hrun.
    + destruct (createJob_inv _ _ _ _ _ _ _ _ _ Hj Hrun) as (Hv & _ & ->). cbn [snd].
      destruct (new_job_row_cols now tj role company status createdBy Hc) as (Hid & _).
      apply col_lookup in Hid.
      exists tu, (with_new_row tj (new_job_row now tj role company status createdBy)).
      split; [by apply users_ok_other|]. split; [by apply jobs_ok_insert|]. split; [done|].
      unfold job_valid in Hv. apply andb_true_iff in Hv as [Hv _].
      split.
      * intros j Hin. cbn [with_new_row t_rows] in Hin.
        apply elem_of_app in Hin as [Hin|Hin]; [by apply Hvj|].
        apply list_elem_of_singleton in Hin. subst j.
        by rewrite new_job_row_valid by done.
      * intros j Hin. cbn [with_new_row t_rows] in Hin.
        apply elem_of_app in Hin as [Hin|Hin]; [by apply Hst|].
        apply list_elem_of_singleton in Hin. subst j.
        apply job_status_text_new; [done|]. by apply andb_true_iff in Hv as [_ Hv].
    + destruct (createJob_cases db tj now role company status createdBy Hl Hc Hk)
        as [Hgood Hbad].
      destruct (job_valid db role company status createdBy) eqn:Hv.
      * by rewrite (Hgood eq_refl) in Hrun.
      * destruct (Hbad eq_refl) as [e' He]. rewrite He in Hrun.
        injection Hrun as _ <-. cbn [snd]. by exists tu, tj.
  - destruct (updateJob_frame db tj now jobId userId payload Hj)
      as (res & t' & Hrun & Hj' & _ & _).
    pose proof Hrun as Hrun'. rewrite (updateJob_run db tj) in Hrun' by done.
    cbn zeta in Hrun'. rewrite Hrun. cbn [snd].
    exists tu, t'. split; [by apply users_ok_other|]. split; [done|]. split; [done|].
    destruct (first_error _ _) eqn:Hfe.
    + apply (f_equal snd) in Hrun'. cbn [snd] in Hrun'.
      assert (t' = tj) as ->; [|done].
      apply (f_equal (λ d, db_tables d !! "jobs")) in Hrun'. cbn beta in Hrun'.
      rewrite set_table_lookup, Hl in Hrun'. by injection Hrun' as <-.
    + apply (f_equal snd) in Hrun'. cbn [snd] in Hrun'.
      apply (f_equal (λ d, db_tables d !! "jobs")) in Hrun'. cbn beta in Hrun'.
      rewrite !set_table_lookup in Hrun'. apply (inj Some) in Hrun'. subst t'.
      split.
      * intros j Hin. cbn [with_rows t_rows] in Hin.
        apply list_elem_of_In, in_map_iff in Hin as (x & <- & Hx).
        destruct (matches (job_where jobId userId) x) eqn:Hm;
          [|by apply Hvj, list_elem_of_In].
        apply job_row_valid_update; [by apply Hvj, list_elem_of_In|].
        destruct (fields_valid payload) eqn:Hf; [done|].
        destruct (job_row_errors tj now payload x Hc Hk) as [_ Hbad].
        destruct (Hbad Hf) as [cn Hcn].
        pose proof (first_error_inv _ _ Hfe (job_set now payload ∪ x)) as Hnone.
        rewrite Hnone in Hcn; [done|].
        apply list_elem_of_In, in_map_iff. exists x. split; [done|].
        apply filter_In. by split.
      * intros j Hin. cbn [with_rows t_rows] in Hin.
        apply list_elem_of_In, in_map_iff in Hin as (x & <- & Hx).
        destruct (matches (job_where jobId userId) x) eqn:Hm;
          [|by apply Hst, list_elem_of_In].
        by apply job_status_text_update, Hst, list_elem_of_In.
  - pose proof (jobs_ok_delete db tj jobId userId Hj) as Hj'.
    rewrite (deleteJob_run db tj) in * by done.
    cbn [snd] in *. eexists tu, _. split; [by apply users_ok_other|].
    split; [exact Hj'|]. split; [done|].
    split; intros j Hin; cbn [with_rows t_rows] in Hin;
      apply list_elem_of_In, filter_In in Hin as [Hin _].
    + by apply Hvj, list_elem_of_In.
    + by apply Hst, list_elem_of_In.
  - rewrite (user_initTable_existing db tu Hlu). cbn [snd]. by exists tu, tj.
  - rewrite (job_initTable_existing db tj Hl). cbn [snd]. by exists tu, tj.
Qed.

Lemma steps_rows_valid hash_string db db' tu tj :
  users_ok db tu → jobs_ok db tj → rows_valid tu tj → rtc (step hash_string) db db' →
  ∃ tu' tj', users_ok db' tu' ∧ jobs_ok db' tj' ∧ rows_valid tu' tj'.
Proof.
  intros Hu Hj Hv Hsteps. revert tu tj Hu Hj Hv.
  induction Hsteps as [db|db db1 db2 Hstep Hsteps IH]; intros tu tj Hu Hj Hv.
  - by exists tu, tj.
  - destruct (step_rows_valid _ _ _ _ _ Hu Hj Hv Hstep) as (tu1 & tj1 & Hu1 & Hj1 & Hv1).
    by apply (IH tu1 tj1).
Qed.

Lemma enum_member_text l s : enum_member l (SText s) = true → s ∈ l.
Proof.
  cbn [enum_member]. intros Hex.
  apply existsb_exists in Hex as (x & Hx & Heq). apply String.eqb_eq in Heq.
  subst x. by apply list_elem_of_In.
Qed.

(** X12 (models/Job.js and models/User.js, the schemas of initTable
    against createUser, createJob, updateJob and deleteJob): in every
    state the stores reach, every stored row satisfies the NOT NULL and
    CHECK constraints of its table.  In particular the status of every
    job is one of pending, interview and decline, whatever updates were
    made. *)
Theorem reachable_rows_valid hash_string db :
  reachable hash_string db →
  ∃ tu tj, users_ok db tu ∧ jobs_ok db tj ∧
           (∀ u, u ∈ t_rows tu → user_row_valid u = true) ∧
           (∀ j, j ∈ t_rows tj → job_row_valid j = true) ∧
           (∀ j, j ∈ t_rows tj →
                 ∃ s, col j "status" = SText s ∧ s ∈ ["pending"; "interview"; "decline"]).
Proof.
  intros Hr. destruct (reachable_steps _ _ Hr) as (pol & fk & Hsteps).
  destruct (init_tables pol fk) as [Hu Hj].
  assert (Hv : rows_valid (fresh_table User.columns User.checks)
                          (fresh_table Job.columns [])).
  { split; [|split]; intros x Hx; by inversion Hx. }
  destruct (steps_rows_valid _ _ _ _ _ Hu Hj Hv Hsteps)
    as (tu & tj & Hu' & Hj' & Hvu & Hvj & Hst).
  exists tu, tj. split; [done|]. split; [done|]. split; [done|]. split; [done|].
  intros j Hin. pose proof (Hvj j Hin) as Hjv. unfold job_row_valid in Hjv.
  apply andb_true_iff in Hjv as [Hjv _]. apply andb_true_iff in Hjv as [_ Hse].
  destruct (Hst j Hin) as [s Hs]. exists s. split; [done|].
  rewrite Hs in Hse. by apply enum_member_text.
Qed.

Lemma reachable_rows_valid_witness :
  reachable toy_hash demo_db ∧ job_row_valid demo_job = true.
Proof.
  split; [exact demo_reachable|].
  destruct (reachable_rows_valid toy_hash demo_db demo_reachable)
    as (tu & tj & _ & Hj & _ & Hvj & _).
  rewrite <- (jobs_ok_unique _ _ _ demo_jobs_ok Hj) in Hvj.
  apply Hvj. exact demo_job_in.
Defined.

(** ** Starting the application *)

Lemma user_initTable_run db :
  User.initTable db = (Ok (), after User.initTable db) ∧
  db_tables (after User.initTable db) !! "users"
  = Some (default (fresh_table User.columns User.checks) (db_tables db !! "users")) ∧
  (∀ tn, tn ≠ "users" →
         db_tables (after User.initTable db) !! tn = db_tables db !! tn) ∧
  db_undefined (after User.initTable db) = db_undefined db ∧
  db_foreign_keys (after User.initTable db) = db_foreign_keys db.
Proof.
  unfold after. destruct (db_tables db !! "users") as [t|] eqn:Ht.
  - by rewrite (user_initTable_existing db t Ht).
  - rewrite (user_initTable_fresh db Ht). cbn [snd default].
    split; [done|]. split; [apply set_table_lookup|]. split; [|done].
    intros tn Hne. by apply set_table_lookup_ne.
Qed.

Lemma job_initTable_run db :
  Job.initTable db = (Ok (), after Job.initTable db) ∧
  db_tables (after Job.initTable db) !! "jobs"
  = Some (default (fresh_table Job.columns []) (db_tables db !! "jobs")) ∧
  (∀ tn, tn ≠ "jobs" →
         db_tables (after Job.initTable db) !! tn = db_tables db !! tn) ∧
  db_undefined (after Job.initTable db) = db_undefined db ∧
  db_foreign_keys (after Job.initTable db) = db_foreign_keys db.
Proof.
  unfold after. destruct (db_tables db !! "jobs") as [t|] eqn:Ht.
  - by rewrite (job_initTable_existing db t Ht).
  - rewrite (job_initTable_fresh db Ht). cbn [snd default].
    split; [done|]. split; [apply set_table_lookup|]. split; [|done].
    intros tn Hne. by apply set_table_lookup_ne.
Qed.

Lemma start_connected db listen :
  App.start (Ok db) listen =
  match listen with
  | Throw err =>
    App.failed [App.Text "Database connected"; App.Text "Users table initialized";
                App.Text "Jobs table initialized"] err
               (Some (after Job.initTable (after User.initTable db)))
  | Ok _ =>
    {| App.r_status := App.Listening;
       App.r_console := [App.Text "Database connected"; App.Text "Users table initialized";
                         App.Text "Jobs table initialized";
                         App.Text "Server running on http://localhost:3000"];
       App.r_db := Some (after Job.initTable (after User.initTable db)) |}
  end.
Proof.
  unfold App.start.
  destruct (user_initTable_run db) as [-> _].
  destruct (job_initTable_run (after User.initTable db)) as [-> _].
  by destruct listen.
Qed.

(** X13 (app.js, start, with the initTable of both models): once the
    connection is there, [start] leaves a database that has both tables,
    whether the server then listens or not.  A table the database already
    had is kept with its rows (a restart loses nothing, and on a database
    that has both tables nothing is written at all), a missing one is
    created empty with the declared schema, users before jobs, and a
    database that was empty satisfies the invariant of the stores. *)
Theorem start_initialises db listen :
  ∃ db',
    App.r_db (App.start (Ok db) listen) = Some db' ∧
    db_tables db' !! "users"
    = Some (default (fresh_table User.columns User.checks) (db_tables db !! "users")) ∧
    db_tables db' !! "jobs"
    = Some (default (fresh_table Job.columns []) (db_tables db !! "jobs")) ∧
    (∀ tn t, db_tables db !! tn = Some t → db_tables db' !! tn = Some t) ∧
    (∀ tu tj, db_tables db !! "users" = Some tu → db_tables db !! "jobs" = Some tj →
              db' = db) ∧
    (db_tables db = ∅ → db_inv db').
Proof.
  exists (after Job.initTable (after User.initTable db)).
  destruct (user_initTable_run db) as (_ & Hu & Huo & _).
  destruct (job_initTable_run (after User.initTable db)) as (_ & Hj & Hjo & _).
  split; [rewrite start_connected; by destruct listen|].
  split; [by rewrite Hjo, Hu|]. split; [by rewrite Hj, Huo|].
  split; [|split].
  - intros tn t Ht. destruct (decide (tn = "jobs")) as [->|Hnj].
    { by rewrite Hj, Huo, Ht. }
    rewrite Hjo by done. destruct (decide (tn = "users")) as [->|Hnu].
    { by rewrite Hu, Ht. }
    by rewrite Huo.
  - intros tu tj Htu Htj. unfold after.
    rewrite (user_initTable_existing db tu Htu). cbn [snd].
    by rewrite (job_initTable_existing db tj Htj).
  - intros Hempty. destruct db as [pol fk tabs]. cbn in Hempty. subst tabs.
    apply (inv_init pol fk).
Qed.

(** X14 (app.js, start): [start] ends listening exactly when the
    connection and the listener both succeed, and otherwise exits with
    code 1 after printing the message of the error, never with another
    code.  When the connection fails nothing else is printed and no table
    is touched; when only the listener fails the three steps before it were
    printed.  Initialising the tables never makes [start] fail. *)
Theorem start_exit_code connectDB listen :
  (App.r_status (App.start connectDB listen) = App.Listening
   ↔ accepted connectDB = true ∧ accepted listen = true) ∧
  (App.r_status (App.start connectDB listen) = App.Exited 1
   ↔ accepted connectDB = false ∨ accepted listen = false) ∧
  (∀ code, App.r_status (App.start connectDB listen) = App.Exited code → code = 1%Z) ∧
  (∀ err, connectDB = Throw err →
          App.start connectDB listen
          = {| App.r_status := App.Exited 1; App.r_console := [App.Message err];
               App.r_db := None |}) ∧
  (∀ db err, connectDB = Ok db → listen = Throw err →
             App.r_console (App.start connectDB listen)
             = [App.Text "Database connected"; App.Text "Users table initialized";
                App.Text "Jobs table initialized"; App.Message err]) ∧
  (∀ db, connectDB = Ok db → accepted listen = true →
         App.r_console (App.start connectDB listen)
         = [App.Text "Database connected"; App.Text "Users table initialized";
            App.Text "Jobs table initialized";
            App.Text "Server running on http://localhost:3000"]).
Proof.
  destruct connectDB as [db|err].
  - rewrite start_connected. destruct listen as [[]|err'].
    + split; [done|]. split; [cbn; split; [done|by intros [|]]|].
      split; [done|]. split; [done|]. split; [done|done].
    + split; [cbn; split; [done|by intros []]|]. split; [cbn; split; [by right|done]|].
      split; [cbn; by intros code [= <-]|]. split; [done|].
      split; [by intros db' err'' _ [= <-]|done].
  - split; [cbn; split; [done|by intros []]|]. split; [cbn; split; [by left|done]|].
    split; [cbn; by intros code [= <-]|]. split; [by intros err' [= <-]|].
    split; [done|done].
Qed.

(** ** The secret of the tokens *)

(** X15 (models/User.js, createJWT): [createJWT] answers with a token
    exactly when JWT_SECRET is set in the environment and not empty;
    otherwise it throws and no token is issued, signed or not.  The token
    depends on the user object only through its id and its name: whatever
    else the object holds, a stored password hash included, has no part
    in it. *)
Theorem createJWT_needs_secret env now user :
  ((∃ tok, User.createJWT env now user = Ok tok)
   ↔ ∃ secret, env !! "JWT_SECRET" = Some secret ∧ secret ≠ EmptyString) ∧
  (env !! "JWT_SECRET" = None ∨ env !! "JWT_SECRET" = Some EmptyString →
   User.createJWT env now user = Throw (EJwt "secretOrPrivateKey must have a value")) ∧
  (∀ user', prop user' "id" = prop user "id" → prop user' "name" = prop user "name" →
            User.createJWT env now user' = User.createJWT env now user).
Proof.
  unfold User.createJWT, Jwt.sign, env_get. split; [|split].
  - destruct (env !! "JWT_SECRET") as [secret|] eqn:Henv.
    + cbn [truthy]. destruct (String.eqb_spec secret EmptyString) as [->|Hne]; cbn [negb].
      * split; [by intros [tok ?]|]. by intros (s & [= <-] & Hs).
      * rewrite thirty_days_span. split; [|by eexists]. intros _. by exists secret.
    + split; [by intros [tok ?]|]. by intros (s & ? & _).
  - intros [->| ->]; [done|]. by cbn [truthy String.eqb negb].
  - intros user' -> ->. done.
Qed.

(** ** Jobs without an account *)

(** X16 (models/Job.js, createJob, getSingleJob and getAllJobs):
    [createJob] for an id that is no account's succeeds only on a
    connection that does not enforce foreign keys; the job is then stored
    and [getSingleJob] finds it, but [getAllJobs] for that id answers with
    the empty list: the inner join with users drops every job whose
    creator has no account. *)
Theorem orphan_job_hidden db tu tj now role company status createdBy c db' :
  users_ok db tu → jobs_ok db tj →
  (∀ u, u ∈ t_rows tu → col u "id" ≠ SInt createdBy) →
  Job.createJob now role company status createdBy db = (Ok c, db') →
  db_foreign_keys db = false ∧
  (∃ r n, Job.id c = JNum n ∧ col r "created_by" = SInt createdBy ∧
          Job.getSingleJob n createdBy db' = (Ok (Some r), db')) ∧
  Job.getAllJobs createdBy db' = (Ok [], db').
Proof.
  intros Hu Hj Hno Hrun.
  pose proof Hj as [Hl Hc Hk Hpk]. pose proof Hu as [Hlu Hcu _ _].
  destruct (createJob_inv _ _ _ _ _ _ _ _ _ Hj Hrun) as (Hv & -> & ->).
  set (r := new_job_row now tj role company status createdBy) in *.
  destruct (new_job_row_cols now tj role company status createdBy Hc)
    as (Hid & _ & _ & _ & Hcb & _).
  apply col_lookup in Hid, Hcb. fold r in Hid, Hcb.
  pose proof (jobs_ok_insert db tj r Hj Hid) as Hj1. pose proof Hj1 as [Hl1 Hc1 _ _].
  split; [|split].
  - unfold job_valid in Hv. apply andb_true_iff in Hv as [_ Hv].
    apply orb_true_iff in Hv as [Hv|Hv]; [by apply negb_true_iff|].
    unfold owner_exists in Hv. rewrite Hlu in Hv.
    apply existsb_exists in Hv as (u & Hin & Hid'). apply sql_eqb_int in Hid'.
    by destruct (Hno u (proj2 (list_elem_of_In _ _) Hin)).
  - exists r, (next_id "id" tj). split; [done|]. split; [done|].
    apply (getSingleJob_owner _ (with_new_row tj r)); [done| |by split].
    cbn [with_new_row t_rows]. apply elem_of_app. right. apply list_elem_of_here.
  - rewrite (getAllJobs_run _ (with_new_row tj r)) by done.
    rewrite set_table_lookup_ne, Hlu, (users_no_owner_column tu Hcu) by done.
    by rewrite joined_no_owner.
Qed.

(** On a connection without foreign keys, a job for account 7 on a
    database without accounts. *)
Lemma orphan_job_hidden_witness :
  users_ok (after Job.initTable (after User.initTable (empty_db UndefThrow false)))
           (fresh_table User.columns User.checks) ∧
  jobs_ok (after Job.initTable (after User.initTable (empty_db UndefThrow false)))
          (fresh_table Job.columns []) ∧
  ∃ db', Job.getAllJobs 7 db' = (Ok [], db') ∧
         ∃ r, Job.getSingleJob 1 7 db' = (Ok (Some r), db').
Proof.
  destruct (init_tables UndefThrow false) as [Hu Hj].
  split; [exact Hu|]. split; [exact Hj|].
  assert (Hrun : ∃ c db',
            Job.createJob "2026-01-02 00:00:00" (JStr "Engineer") (JStr "Acme")
              (JStr "pending") 7
              (after Job.initTable (after User.initTable (empty_db UndefThrow false)))
            = (Ok c, db') ∧ Job.id c = JNum 1).
  { eexists _, _. split; vm_compute; reflexivity. }
  destruct Hrun as (c & db' & Hrun & Hc).
  destruct (orphan_job_hidden _ _ _ _ _ _ _ _ c db' Hu Hj
              ltac:(intros u Hin; inversion Hin) Hrun)
    as (_ & (r & n & Hn & _ & Hget) & Hall).
  exists db'. split; [exact Hall|]. exists r.
  rewrite Hc in Hn. injection Hn as <-. exact Hget.
Defined.
